(** * SpeechTrackAI: script tracking, transcript segmentation, playback
      scheduling, session orchestration and PCM encoding

    A shallow embedding of the parts of the teleprompter that the
    specification makes claims about, followed by the theorems that settle
    those claims.

    Conventions.
    - A JavaScript string is a sequence of code units; the model uses
      [string], so a code unit is an [ascii] (code units 0..255).
    - A JavaScript integer (an index, a count, a time stamp in milliseconds)
      is a [Z].
    - [useRef] cells and [useState] cells of a hook are the fields of a
      record; a hook function takes the record and returns the new one.
    - Objects that outlive the reference to them (a WebSocket) live in a
      store and are referred to by their position in it. *)

From Stdlib Require Import ZArith QArith Qround Lia Lqa List String Ascii Bool.
From Stdlib Require Import Floats.
Import ListNotations.

Local Open Scope string_scope.
Local Open Scope Z_scope.

(* ===================================================================== *)
(** * Part I. The embedding                                                *)
(* ===================================================================== *)

(** ** JavaScript string primitives used by the sources *)

Module Js.

Definition code (c : ascii) : Z := Z.of_nat (nat_of_ascii c).

(** The class [\s] restricted to code units below 256: TAB, LF, VT, FF,
    CR, SPACE and NO-BREAK SPACE. [String.prototype.trim] strips the
    same set. *)
Definition isSpace (c : ascii) : bool :=
  let n := code c in
  ((9 <=? n) && (n <=? 13)) || (n =? 32) || (n =? 160).

(** The class [\w]: ASCII letters, digits and underscore. *)
Definition isWordChar (c : ascii) : bool :=
  let n := code c in
  ((48 <=? n) && (n <=? 57)) || ((65 <=? n) && (n <=? 90))
  || ((97 <=? n) && (n <=? 122)) || (n =? 95).

(** [toLowerCase] on one code unit: A-Z, and the Latin-1 capitals
    192..222 except the multiplication sign 215. *)
Definition lowerChar (c : ascii) : ascii :=
  let n := code c in
  if ((65 <=? n) && (n <=? 90))
     || ((192 <=? n) && (n <=? 222) && negb (n =? 215))
  then ascii_of_nat (nat_of_ascii c + 32) else c.

Fixpoint toLowerCase (s : string) : string :=
  match s with
  | EmptyString => EmptyString
  | String c r => String (lowerChar c) (toLowerCase r)
  end.

(** [s.replace(/[^\w\s]|_/g, "")]: drop every code unit that is neither
    a word character nor white space, and every underscore. *)
Definition keptByClean (c : ascii) : bool :=
  (isWordChar c || isSpace c) && negb (code c =? 95).

Fixpoint stripPunctuation (s : string) : string :=
  match s with
  | EmptyString => EmptyString
  | String c r =>
      if keptByClean c then String c (stripPunctuation r)
      else stripPunctuation r
  end.

Fixpoint trimStart (s : string) : string :=
  match s with
  | EmptyString => EmptyString
  | String c r => if isSpace c then trimStart r else s
  end.

Fixpoint trimEnd (s : string) : string :=
  match s with
  | EmptyString => EmptyString
  | String c r =>
      match trimEnd r with
      | EmptyString => if isSpace c then EmptyString else String c EmptyString
      | r' => String c r'
      end
  end.

Definition trim (s : string) : string := trimEnd (trimStart s).

(** [s.split(/\s+/)]: the pieces between maximal runs of white space.
    [inRun] tells that the previous code unit was white space; [cur] is
    the piece being read, most recent code unit first. *)
Fixpoint splitGo (inRun : bool) (cur : list ascii) (s : string)
  : list string :=
  match s with
  | EmptyString => [string_of_list_ascii (rev cur)]
  | String c r =>
      if isSpace c then
        if inRun then splitGo true cur r
        else string_of_list_ascii (rev cur) :: splitGo true [] r
      else splitGo false (c :: cur) r
  end.

Definition splitWhitespace (s : string) : list string := splitGo false [] s.

(** [s.length] *)
Definition len (s : string) : Z := Z.of_nat (String.length s).

(** [s.slice(start)] and [s.slice(0, stop)] for non-negative bounds. *)
Definition sliceFrom (s : string) (start : Z) : string :=
  substring (Z.to_nat start) (String.length s - Z.to_nat start) s.

Definition sliceTo (s : string) (stop : Z) : string :=
  substring 0 (Z.to_nat stop) s.

(** [s.startsWith(p)] *)
Definition startsWith (s p : string) : bool := prefix p s.

(** [arr[i]] on an array: [None] is [undefined]. *)
Definition at_ {A : Type} (l : list A) (i : Z) : option A :=
  if i <? 0 then None else nth_error l (Z.to_nat i).

(** Truthiness of a value that is a string or [null]. *)
Definition truthy (v : option string) : bool :=
  match v with
  | Some s => negb (s =? "")%string
  | None => false
  end.

(** [a === b] where [a] is a string and [b] a string or [null]. *)
Definition strictEq (a : string) (b : option string) : bool :=
  match b with
  | Some s => (a =? s)%string
  | None => false
  end.

End Js.

(** ** The script model and the position tracker *)

Record WordItem : Type := mkWordItem {
  word : string;
  cleanWord : string;   (* lowercase, no punctuation, for matching *)
  index : Z
}.

(** What one run of an effect does to [activeIndex]. *)
Inductive EffectResult : Type :=
| NoWrite                       (* the effect returns without a write *)
| SetActiveIndex (v : Z)        (* [setActiveIndex(v)] then return *)
| TypeError.                    (* a property of [undefined] was read *)

Module Script.

Definition clean (w : string) : string :=
  Js.stripPunctuation (Js.toLowerCase w).

Fixpoint mapIndexed (i : Z) (ws : list string) : list WordItem :=
  match ws with
  | [] => []
  | w :: r => mkWordItem w (clean w) i :: mapIndexed (i + 1) r
  end.

(** The [words] memo of both Teleprompter components. *)
Definition words (script : string) : list WordItem :=
  filter (fun w => negb (Js.trim (word w) =? "")%string)
         (mapIndexed 0 (Js.splitWhitespace script)).

(** The normalised word list of a transcript. *)
Definition transcriptWords (transcript : string) : list string :=
  filter (fun w => negb (w =? "")%string)
         (Js.splitWhitespace (clean transcript)).

Definition cleanWordAt (ws : list WordItem) (i : Z) : option string :=
  option_map cleanWord (Js.at_ ws i).

Definition length (ws : list WordItem) : Z := Z.of_nat (List.length ws).

(** The last three spoken words: [tw[tw.length - 1]], and the guarded
    reads [tw.length > 1 ? tw[tw.length - 2] : null] and
    [tw.length > 2 ? tw[tw.length - 3] : null]. *)
Definition lastWordOf (tw : list string) : option string :=
  Js.at_ tw (Z.of_nat (List.length tw) - 1).

Definition secondLastWordOf (tw : list string) : option string :=
  let n := Z.of_nat (List.length tw) in
  if 1 <? n then Js.at_ tw (n - 2) else None.

Definition thirdLastWordOf (tw : list string) : option string :=
  let n := Z.of_nat (List.length tw) in
  if 2 <? n then Js.at_ tw (n - 3) else None.

End Script.

(** The tracking effect of the five-mode Teleprompter. *)
Module Tracker.

Definition searchWindow : Z := 20.

Section Run.
Variable words : list WordItem.
Variable activeIndex : Z.
Variables lastWord : string.
Variables secondLastWord thirdLastWord : option string.

(** [matchCount] after the look-back of candidate [i]; [None] when a
    property of [undefined] is read. *)
Definition matchCount (i : Z) : option nat :=
  if Js.truthy secondLastWord && (0 <? i) then
    match Script.cleanWordAt words (i - 1) with
    | None => None
    | Some w1 =>
        if Js.strictEq w1 secondLastWord then
          if Js.truthy thirdLastWord && (1 <? i) then
            match Script.cleanWordAt words (i - 2) with
            | None => None
            | Some w2 =>
                if Js.strictEq w2 thirdLastWord then Some 3%nat
                else Some 2%nat
            end
          else Some 2%nat
        else Some 1%nat
    end
  else Some 1%nat.

Definition requiredMatches (distance : Z) : nat :=
  if (2 <=? distance) && (distance <=? 10) then 2%nat
  else if 10 <? distance then 3%nat
  else 1%nat.

(** The [for] loop from [i] on; [fuel] bounds the number of
    iterations that remain. *)
Fixpoint scan (searchEndIndex : Z) (fuel : nat) (i : Z) : EffectResult :=
  match fuel with
  | O => NoWrite
  | S fuel' =>
      if i <? searchEndIndex then
        let distance := i - activeIndex in
        match Script.cleanWordAt words i with
        | None => TypeError
        | Some scriptWord =>
            if (scriptWord =? lastWord)%string then
              match matchCount i with
              | None => TypeError
              | Some mc =>
                  if (requiredMatches distance <=? mc)%nat
                  then SetActiveIndex (i + 1)
                  else scan searchEndIndex fuel' (i + 1)
              end
            else scan searchEndIndex fuel' (i + 1)
        end
      else NoWrite
  end.
End Run.

(** The effect on an already normalised transcript. *)
Definition onWords (words : list WordItem) (transcriptWords : list string)
           (activeIndex : Z) : EffectResult :=
  match Script.lastWordOf transcriptWords with
  | None => NoWrite                (* transcriptWords.length === 0 *)
  | Some lastWord =>
      let secondLastWord := Script.secondLastWordOf transcriptWords in
      let thirdLastWord := Script.thirdLastWordOf transcriptWords in
      let searchEndIndex :=
        Z.min (activeIndex + searchWindow) (Script.length words) in
      scan words activeIndex lastWord secondLastWord thirdLastWord
           searchEndIndex (Z.to_nat (searchEndIndex - activeIndex))
           activeIndex
  end.

Definition effect (words : list WordItem) (transcript : string)
           (activeIndex : Z) : EffectResult :=
  if (transcript =? "")%string then NoWrite
  else onWords words (Script.transcriptWords transcript) activeIndex.

End Tracker.

(** The tracking effect of the single-mode Teleprompter
    (components/Teleprompter.tsx). *)
Module LegacyTracker.

Section Run.
Variable words : list WordItem.
Variable activeIndex : Z.
Variables lastSpokenWord : string.
Variables secondLastSpokenWord : option string.

(** The guard of the first [if] inside a candidate's branch. *)
Definition previousMatches (i : Z) : option bool :=
  if Js.truthy secondLastSpokenWord && (0 <? i) then
    match Script.cleanWordAt words (i - 1) with
    | None => None
    | Some w1 => Some (Js.strictEq w1 secondLastSpokenWord)
    end
  else Some false.

Fixpoint scan (searchEndIndex : Z) (fuel : nat) (i : Z) : EffectResult :=
  match fuel with
  | O => NoWrite
  | S fuel' =>
      if i <? searchEndIndex then
        match Script.cleanWordAt words i with
        | None => TypeError
        | Some scriptWord =>
            if (scriptWord =? lastSpokenWord)%string then
              match previousMatches i with
              | None => TypeError
              | Some true => SetActiveIndex (i + 1)
              | Some false =>
                  if activeIndex =? 0 then SetActiveIndex (i + 1)
                  else scan searchEndIndex fuel' (i + 1)
              end
            else scan searchEndIndex fuel' (i + 1)
        end
      else NoWrite
  end.
End Run.

Definition onWords (words : list WordItem) (transcriptWords : list string)
           (activeIndex : Z) : EffectResult :=
  match Script.lastWordOf transcriptWords with
  | None => NoWrite
  | Some lastSpokenWord =>
      let secondLastSpokenWord :=
        Script.secondLastWordOf transcriptWords in
      let searchEndIndex :=
        Z.min (activeIndex + Tracker.searchWindow) (Script.length words) in
      scan words activeIndex lastSpokenWord secondLastSpokenWord
           searchEndIndex (Z.to_nat (searchEndIndex - activeIndex))
           activeIndex
  end.

Definition effect (words : list WordItem) (transcript : string)
           (activeIndex : Z) : EffectResult :=
  if (transcript =? "")%string then NoWrite
  else onWords words (Script.transcriptWords transcript) activeIndex.

End LegacyTracker.

(** The two Teleprompter components of the repository. *)
Inductive TeleprompterVariant : Type :=
| FiveMode      (* the component with the five translation modes *)
| SingleMode.   (* components/Teleprompter.tsx, Live mode only *)

Definition trackingEffect (v : TeleprompterVariant)
  : list WordItem -> string -> Z -> EffectResult :=
  match v with
  | FiveMode => Tracker.effect
  | SingleMode => LegacyTracker.effect
  end.

(** ** The cursor under tracking, navigation and restart *)

Module Cursor.

(** The value of [activeIndex] after an effect run. *)
Definition commit (activeIndex : Z) (r : EffectResult) : Z :=
  match r with
  | SetActiveIndex v => v
  | NoWrite | TypeError => activeIndex
  end.

Inductive Event : Type :=
| TrackingRun (transcript : string)   (* the tracking effect runs *)
| ClickWord (i : Z)                   (* [onClick] of the i-th word span *)
| ArrowForward                        (* ArrowRight or ArrowDown *)
| ArrowBack                           (* ArrowLeft or ArrowUp *)
| Restart.                            (* the restart button *)

Section Steps.
(** The tracking effect in use: [Tracker.effect] or
    [LegacyTracker.effect]. *)
Variable tracking : list WordItem -> string -> Z -> EffectResult.
Variable words : list WordItem.
(** [pdfFile] is set: the arrow keys turn slides instead. *)
Variable pdfFile : bool.

Definition step (activeIndex : Z) (e : Event) : Z :=
  match e with
  | TrackingRun transcript =>
      commit activeIndex (tracking words transcript activeIndex)
  | ClickWord i =>
      (* a span exists for every [i] with [0 <= i < words.length]; only
         the five-mode component gives it a click handler *)
      if (0 <=? i) && (i <? Script.length words) then i else activeIndex
  | ArrowForward =>
      if pdfFile then activeIndex
      else Z.min (activeIndex + 1) (Script.length words - 1)
  | ArrowBack =>
      if pdfFile then activeIndex else Z.max (activeIndex - 1) 0
  | Restart => 0
  end.

Definition run (activeIndex : Z) (es : list Event) : Z :=
  fold_left step es activeIndex.
End Steps.

Definition isTracking (e : Event) : bool :=
  match e with TrackingRun _ => true | _ => false end.

End Cursor.

(** ** useTextTranslation: the transcript segmenter and its request gate *)

(** A reference to a browser object other than a WebSocket (a media
    stream, an audio context, a recognition object, a timer). *)
Definition Handle : Type := nat.

(** [if (ref.current) { ...; ref.current = null }] on a ref. *)
Definition nullIfSet {A : Type} (r : option A) : option A :=
  match r with
  | Some _ => None
  | None => r
  end.

Module TextTranslation.

Inductive TTSMode : Type := browser | gemini.

Record State : Type := mkState {
  (* useState *)
  isActive : bool;
  translatedText : string;
  sourceText : string;
  isSpeaking : bool;
  error : option string;
  (* useRef *)
  targetLanguageRef : string;
  lastProcessedRef : string;
  lastProcessedTimeRef : Z;
  lastActivityTimeRef : Z;
  isTranslatingRef : bool;
  recognitionRef : option Handle;
  fullTranscriptRef : string;
  isActiveRef : bool;
  useExternalTranscriptRef : bool;
  ttsModeRef : TTSMode;
  ttsQueueRef : list string;
  isTTSSpeakingRef : bool
}.

(** The hook as first rendered. *)
Definition initial : State :=
  mkState false "" "" false None
          "French" "" 0 0 false None "" false false browser [] false.

Definition setSource (transcript : string) (s : State) : State :=
  mkState (isActive s) (translatedText s) transcript (isSpeaking s) (error s)
          (targetLanguageRef s) (lastProcessedRef s) (lastProcessedTimeRef s)
          (lastActivityTimeRef s) (isTranslatingRef s) (recognitionRef s)
          transcript (isActiveRef s) (useExternalTranscriptRef s)
          (ttsModeRef s) (ttsQueueRef s) (isTTSSpeakingRef s).

Definition setLastProcessed (w : string) (s : State) : State :=
  mkState (isActive s) (translatedText s) (sourceText s) (isSpeaking s)
          (error s)
          (targetLanguageRef s) w (lastProcessedTimeRef s)
          (lastActivityTimeRef s) (isTranslatingRef s) (recognitionRef s)
          (fullTranscriptRef s) (isActiveRef s) (useExternalTranscriptRef s)
          (ttsModeRef s) (ttsQueueRef s) (isTTSSpeakingRef s).

Definition setLastActivityTime (t : Z) (s : State) : State :=
  mkState (isActive s) (translatedText s) (sourceText s) (isSpeaking s)
          (error s)
          (targetLanguageRef s) (lastProcessedRef s) (lastProcessedTimeRef s)
          t (isTranslatingRef s) (recognitionRef s)
          (fullTranscriptRef s) (isActiveRef s) (useExternalTranscriptRef s)
          (ttsModeRef s) (ttsQueueRef s) (isTTSSpeakingRef s).

(** [isTranslatingRef.current = true] and the two time stamps that
    follow it in [translateText]. *)
Definition beginRequest (now : Z) (s : State) : State :=
  mkState (isActive s) (translatedText s) (sourceText s) (isSpeaking s)
          (error s)
          (targetLanguageRef s) (lastProcessedRef s) now
          now true (recognitionRef s)
          (fullTranscriptRef s) (isActiveRef s) (useExternalTranscriptRef s)
          (ttsModeRef s) (ttsQueueRef s) (isTTSSpeakingRef s).

(** What a call of the hook does besides updating its cells. *)
Inductive Action : Type :=
| TranslateTextCalled (text watermark : string)
    (* [translateText(text)] is entered; [watermark] is the value of
       [lastProcessedRef.current] at that moment *)
| ForcedReset               (* the stuck in-flight flag is cleared *)
| RequestSkipped (text : string)   (* "Still working, skip this request" *)
| RequestStarted (text targetLang : string)  (* generateContentStream *)
| RecognitionRestarted.

(** [translateText] up to its first [await]. The readings of
    [Date.now()] within one synchronous run are one value, [now]. *)
Definition translateText (now : Z) (text : string) (s : State)
  : State * list Action :=
  let entered := TranslateTextCalled text (lastProcessedRef s) in
  if (Js.trim text =? "")%string then (s, [entered])
  else if isTranslatingRef s then
    let timeSinceActivity := now - lastActivityTimeRef s in
    if 10000 <? timeSinceActivity then
      (beginRequest now s,
       [entered; ForcedReset; RequestStarted text (targetLanguageRef s)])
    else (s, [entered; RequestSkipped text])
  else
    (beginRequest now s,
     [entered; RequestStarted text (targetLanguageRef s)]).

(** The test of [translateText] on the in-flight flag: the call goes on
    when the flag is clear, or when the last recorded activity is more
    than 10000 ms old. *)
Definition admits (now : Z) (s : State) : bool :=
  negb (isTranslatingRef s) || (10000 <? now - lastActivityTimeRef s).

(** The settlement of a request ([finally]). *)
Definition requestSettled (now : Z) (s : State) : State :=
  mkState (isActive s) (translatedText s) (sourceText s) (isSpeaking s)
          (error s)
          (targetLanguageRef s) (lastProcessedRef s) (lastProcessedTimeRef s)
          now false (recognitionRef s)
          (fullTranscriptRef s) (isActiveRef s) (useExternalTranscriptRef s)
          (ttsModeRef s) (ttsQueueRef s) (isTTSSpeakingRef s).

(** The reset test of [processTranscript]. *)
Definition isReset (transcript lastProcessed : string) : bool :=
  (Js.len transcript <? Js.len lastProcessed)
  || negb (Js.startsWith transcript
             (Js.sliceTo lastProcessed
                         (Z.min 50 (Js.len lastProcessed)))).

(** [newContent] of [processTranscript]. *)
Definition newContent (transcript lastProcessed : string) : string :=
  if isReset transcript lastProcessed then Js.trim transcript
  else Js.trim (Js.sliceFrom transcript (Js.len lastProcessed)).

Definition isBoundaryMark (c : ascii) : bool :=
  existsb (Ascii.eqb c) ["."; "!"; "?"; ","; ";"; ":"]%char.

(** [/[.!?,;:]/.test(s)] *)
Fixpoint hasCompleteSentence (s : string) : bool :=
  match s with
  | EmptyString => false
  | String c r => isBoundaryMark c || hasCompleteSentence r
  end.

(** [s.split(/\s+/).length] *)
Definition wordCount (s : string) : Z :=
  Z.of_nat (List.length (Js.splitWhitespace s)).

Definition processTranscript (now : Z) (transcript : string) (s : State)
  : State * list Action :=
  if (transcript =? "")%string then (s, [])
  else
    let s1 := setSource transcript s in
    let lastProcessed := lastProcessedRef s1 in
    if (transcript =? lastProcessed)%string then (s1, [])
    else
      let content := newContent transcript lastProcessed in
      if (content =? "")%string then (s1, [])
      else if hasCompleteSentence content || (5 <=? wordCount content) then
        translateText now content (setLastProcessed transcript s1)
      else (s1, []).

(** [feedTranscript]: the transcript handed over by the tracker. *)
Definition feedTranscript (now : Z) (transcript : string) (s : State)
  : State * list Action :=
  if negb (isActiveRef s) || negb (useExternalTranscriptRef s) then (s, [])
  else processTranscript now transcript (setLastActivityTime now s).

(** [startRecognition()] while the hook is active: the recognition in
    the ref is stopped and dropped, a new one is created and started, and
    the ref holds it; [recognition] is that object, [None] when its
    [start()] throws (the error message of a browser without speech
    recognition and the retry 500 ms after a failed start are left
    out). *)
Definition startRecognition (recognition : option Handle) (s : State)
  : State :=
  if isActiveRef s then
    mkState (isActive s) (translatedText s) (sourceText s) (isSpeaking s)
            (error s)
            (targetLanguageRef s) (lastProcessedRef s)
            (lastProcessedTimeRef s)
            (lastActivityTimeRef s) (isTranslatingRef s) recognition
            (fullTranscriptRef s) (isActiveRef s)
            (useExternalTranscriptRef s)
            (ttsModeRef s) (ttsQueueRef s) (isTTSSpeakingRef s)
  else s.

(** One run of the interval callback (every 500 ms while [isActive]);
    [recognition] is the object a restart of the recognition stores. *)
Definition intervalTick (now : Z) (recognition : option Handle) (s : State)
  : State * list Action :=
  let timeSinceLastTranslation := now - lastProcessedTimeRef s in
  let fullTranscript := fullTranscriptRef s in
  let lastProcessed := lastProcessedRef s in
  let '(s1, acts) :=
    if (2000 <=? timeSinceLastTranslation)
       && (Js.len lastProcessed <? Js.len fullTranscript) then
      let content :=
        Js.trim (Js.sliceFrom fullTranscript (Js.len lastProcessed)) in
      if negb (content =? "")%string && (2 <=? wordCount content) then
        translateText now content (setLastProcessed fullTranscript s)
      else (s, [])
    else (s, []) in
  let timeSinceActivity := now - lastActivityTimeRef s1 in
  if (30000 <? timeSinceActivity) && isActiveRef s1 then
    (setLastActivityTime now (startRecognition recognition s1),
     (acts ++ [RecognitionRestarted])%list)
  else (s1, acts).

(** The requests a run hands to [translateText]. *)
Definition triggers (acts : list Action) : list (string * string) :=
  flat_map (fun a => match a with
                     | TranslateTextCalled t w => [(t, w)]
                     | _ => []
                     end) acts.

Definition started (acts : list Action) : list string :=
  flat_map (fun a => match a with
                     | RequestStarted t _ => [t]
                     | _ => []
                     end) acts.

(** [start(options)] with internal recognition left to the browser:
    [recognition] is the object [startRecognition] stores, if any (the
    error message of a browser without speech recognition is left
    out). *)
Definition start (now : Z) (targetLanguage : option string)
           (useExternalTranscript : bool) (ttsMode : option TTSMode)
           (recognition : option Handle) (s : State) : State :=
  mkState true "" "" (isSpeaking s) None
          (match targetLanguage with
           | Some l => if (l =? "")%string then "French" else l
           | None => "French"
           end)
          "" now now false
          (if useExternalTranscript then None else recognition)
          "" true useExternalTranscript
          (match ttsMode with Some m => m | None => browser end)
          [] false.

(** [stop()] *)
Definition stop (s : State) : State :=
  mkState false (translatedText s) (sourceText s) false (error s)
          (targetLanguageRef s) (lastProcessedRef s) (lastProcessedTimeRef s)
          (lastActivityTimeRef s) false (nullIfSet (recognitionRef s))
          (fullTranscriptRef s) false (useExternalTranscriptRef s)
          (ttsModeRef s) [] false.

End TextTranslation.

(** The new content of a feed in the words of the specification, on
    sequences of characters, for comparison with
    [TextTranslation.newContent]. *)
Module SegmenterSpec.

Definition chars (s : string) : list ascii := list_ascii_of_string s.

(** "t is shorter than w" *)
Definition isShorter (t w : string) : Prop :=
  (String.length t < String.length w)%nat.

(** "t starts with the first n characters of w" *)
Definition startsWithFirst (n : nat) (t w : string) : Prop :=
  exists rest, chars t = (firstn n (chars w) ++ rest)%list.

(** "the suffix of t beyond the first n characters" *)
Definition suffixBeyond (n : nat) (t : string) : string :=
  string_of_list_ascii (skipn n (chars t)).

(** The reset case of the watermark diffing. *)
Definition resetCase (t w : string) : Prop :=
  isShorter t w
  \/ ~ startsWithFirst (Nat.min 50 (String.length w)) t w.

End SegmenterSpec.

(** ** The scheduled-ahead playback queue *)

(** Times are JavaScript numbers, in seconds. The model takes them as
    exact rationals: [Math.max] and the comparison are exact on numbers,
    the one rounding operation of the code, [startTime + duration], is
    taken without its rounding. *)
Module Playback.

(** [Math.max(a, b)] *)
Definition max (a b : Q) : Q := if Qle_bool a b then b else a.

(** The "audio playback refs" of a streaming hook. *)
Record Refs : Type := mkRefs {
  playbackContextRef : option Handle;
  nextPlayTimeRef : Q
}.

Definition initial : Refs := mkRefs None 0.

(** The scheduling lines of [playAudioChunk]: the context is created
    on first use ([fresh] is the new object), the source is started at
    [startTime], which is returned. [currentTime] is
    [ctx.currentTime], [duration] is [audioBuffer.duration]. *)
Definition playAudioChunk (fresh : Handle) (currentTime duration : Q)
           (r : Refs) : Refs * Q :=
  let ctx := match playbackContextRef r with
             | Some c => c
             | None => fresh
             end in
  let startTime := max currentTime (nextPlayTimeRef r) in
  (mkRefs (Some ctx) (startTime + duration), startTime).

(** The teardown lines shared by [stop] and [disconnect]. *)
Definition release (r : Refs) : Refs := mkRefs None 0.

(** A chunk as it reaches [playAudioChunk]: the clock reading at that
    moment and the duration of the decoded buffer. *)
Record Chunk : Type := mkChunk { arrival : Q; duration : Q }.

(** The start times given to a sequence of chunks, in call order. *)
Fixpoint run (fresh : Handle) (r : Refs) (cs : list Chunk) : list Q :=
  match cs with
  | [] => []
  | c :: rest =>
      let '(r', startTime) :=
        playAudioChunk fresh (arrival c) (duration c) r in
      startTime :: run fresh r' rest
  end.

(** The refs after a sequence of chunks. *)
Fixpoint after (fresh : Handle) (r : Refs) (cs : list Chunk) : Refs :=
  match cs with
  | [] => r
  | c :: rest =>
      after fresh (fst (playAudioChunk fresh (arrival c) (duration c) r))
            rest
  end.

End Playback.

(** The same scheduling lines on binary64 numbers, as the browser
    computes them, for evaluation on given inputs. *)
Module PlaybackBinary64.

(** [Math.max(a, b)], up to the sign of a zero result. *)
Definition max (a b : float) : float :=
  if PrimFloat.is_nan a || PrimFloat.is_nan b then PrimFloat.nan
  else if PrimFloat.leb a b then b else a.

(** The pair of the new [nextPlayTime] and the start time. *)
Definition playAudioChunk (currentTime duration nextPlayTime : float)
  : float * float :=
  let startTime := max currentTime nextPlayTime in
  (PrimFloat.add startTime duration, startTime).

(** The start times of chunks given as (arrival, duration). *)
Fixpoint run (nextPlayTime : float) (cs : list (float * float))
  : list float :=
  match cs with
  | [] => []
  | (arrival, duration) :: rest =>
      let '(next, startTime) := playAudioChunk arrival duration nextPlayTime in
      startTime :: run next rest
  end.

End PlaybackBinary64.

(** ** pcmToBase64: Float32 samples to 16-bit PCM to base64 *)

Module Pcm.

(** A JavaScript number. Every finite Float32 sample is a rational, and
    so are its products with [0x8000] and [0x7FFF], which a double
    holds without rounding (24 significant bits times 15). *)
Inductive Num : Type :=
| Fin (q : Q)
| NaN
| PosInf
| NegInf.

Definition qmin (a b : Q) : Q := if Qle_bool a b then a else b.
Definition qmax (a b : Q) : Q := if Qle_bool a b then b else a.

(** [Math.min(1, x)] *)
Definition min1 (x : Num) : Num :=
  match x with
  | Fin q => Fin (qmin 1 q)
  | NaN => NaN
  | PosInf => Fin 1
  | NegInf => NegInf
  end.

(** [Math.max(-1, x)] *)
Definition maxNeg1 (x : Num) : Num :=
  match x with
  | Fin q => Fin (qmax (-1) q)
  | NaN => NaN
  | PosInf => PosInf
  | NegInf => Fin (-1)
  end.

(** [s < 0] *)
Definition ltZero (s : Num) : bool :=
  match s with
  | Fin q => negb (Qle_bool 0 q)
  | NegInf => true
  | NaN | PosInf => false
  end.

(** [s * k] for a positive integer constant [k] *)
Definition scale (s : Num) (k : Z) : Num :=
  match s with
  | Fin q => Fin (q * inject_Z k)
  | other => other
  end.

(** Truncation toward zero. *)
Definition truncate (q : Q) : Z :=
  if Qle_bool 0 q then Qfloor q else Qceiling q.

(** The wrap-around of a store into an [Int16Array]. *)
Definition wrap16 (z : Z) : Z :=
  let m := z mod 65536 in
  if 32768 <=? m then m - 65536 else m.

(** [int16[i] = v]: ToInt16 of a number. *)
Definition toInt16 (v : Num) : Z :=
  match v with
  | Fin q => wrap16 (truncate q)
  | NaN | PosInf | NegInf => 0
  end.

(** The clamped sample [s] of the loop body. *)
Definition clamp (x : Num) : Num := maxNeg1 (min1 x).

(** The number the loop body stores, before the store converts it. *)
Definition scaled (x : Num) : Num :=
  let s := clamp x in
  if ltZero s then scale s 32768 (* 0x8000 *)
  else scale s 32767 (* 0x7FFF *).

Definition sampleToInt16 (x : Num) : Z := toInt16 (scaled x).

(** [new Uint8Array(int16.buffer)]: two bytes per element, low byte
    first (the byte order of the platforms browsers run on). *)
Definition bytesOfInt16 (v : Z) : list Z :=
  let u := v mod 65536 in [u mod 256; u / 256].

Definition bytes (int16 : list Z) : list Z := flat_map bytesOfInt16 int16.

Definition alphabet : string :=
  "ABCDEFGHIJKLMNOPQRSTUVWXYZabcdefghijklmnopqrstuvwxyz0123456789+/".

Definition digit (n : Z) : ascii :=
  match get (Z.to_nat n) alphabet with
  | Some c => c
  | None => "="%char
  end.

Fixpoint encode (binary : list Z) : string :=
  match binary with
  | [] => ""
  | [a] =>
      String (digit (a / 4)) (String (digit ((a mod 4) * 16)) "==")
  | [a; b] =>
      String (digit (a / 4))
        (String (digit ((a mod 4) * 16 + b / 16))
           (String (digit ((b mod 16) * 4)) "="))
  | a :: b :: c :: rest =>
      String (digit (a / 4))
        (String (digit ((a mod 4) * 16 + b / 16))
           (String (digit ((b mod 16) * 4 + c / 64))
              (String (digit (c mod 64)) (encode rest))))
  end.

(** [btoa(binary)]: throws (here [None]) when a code unit exceeds 255. *)
Definition btoa (binary : list Z) : option string :=
  if forallb (fun u => (0 <=? u) && (u <=? 255)) binary
  then Some (encode binary) else None.

Definition int16Array (data : list Num) : list Z := map sampleToInt16 data.

(** [pcmToBase64(data)]; the string [binary] has one code unit per
    byte. *)
Definition pcmToBase64 (data : list Num) : option string :=
  btoa (bytes (int16Array data)).

End Pcm.

(** ** Browser objects shared by the streaming hooks *)

Inductive TranslationMode : Type :=
| live | text | local_omni | local_pipeline | personaplex.

Inductive PipelineAsrMode : Type := asrBrowser | asrLocal.

Inductive ReadyState : Type := CONNECTING | OPEN | CLOSING | CLOSED.

(** The outcome of a call that may throw. *)
Inductive Completion (A : Type) : Type :=
| Normal (a : A)
| Throw (name : string).
Arguments Normal {A} a.
Arguments Throw {A} name.

(** [try { body } catch (e) {}]: a throw leaves what the body had done
    before it, here [fallback]. *)
Definition tryCatchEmpty {A : Type} (fallback : A) (body : Completion A) : A :=
  match body with
  | Normal a => a
  | Throw _ => fallback
  end.

Definition andThen {A B : Type} (c : Completion A) (k : A -> Completion B)
  : Completion B :=
  match c with
  | Normal a => k a
  | Throw e => Throw e
  end.

(** WebSocket objects, and the Live API session, which is driven through
    the same four states. An object stays in the store, with the handlers
    its creator attached, whether or not a ref still points to it. *)
Module WebSocket.

(** Which closure was attached as [onopen]/[onclose]/[onerror]. *)
Inductive Handlers : Type :=
| PipelineSocket (asrMode : PipelineAsrMode)
| PersonaPlexSocket
| LocalOmniSocket
| LiveSession (quickMode : bool).

Record Socket : Type := mkSocket {
  readyState : ReadyState;
  handlers : Handlers;
  (** a [sessionRef.current.then(session => session.close())] is
      waiting for the session to resolve *)
  closeWhenOpen : bool
}.

Definition Store : Type := list Socket.

Definition get (st : Store) (h : nat) : option Socket := nth_error st h.

Fixpoint update (st : Store) (h : nat) (f : Socket -> Socket) : Store :=
  match st, h with
  | [], _ => []
  | x :: r, O => f x :: r
  | x :: r, S h' => x :: update r h' f
  end.

(** [new WebSocket(url)] *)
Definition create (st : Store) (hs : Handlers) : Store * nat :=
  ((st ++ [mkSocket CONNECTING hs false])%list, List.length st).

Definition setReady (rs : ReadyState) (x : Socket) : Socket :=
  mkSocket rs (handlers x) (closeWhenOpen x).

(** [ws.send(data)]: throws InvalidStateError while CONNECTING. *)
Definition send (st : Store) (h : nat) : Completion Store :=
  match get st h with
  | Some x =>
      match readyState x with
      | CONNECTING => Throw "InvalidStateError"
      | _ => Normal st
      end
  | None => Normal st
  end.

(** [ws.close()]: starts the closing handshake, or fails a connection
    that is not established yet; no effect once closing or closed. *)
Definition close (st : Store) (h : nat) : Completion Store :=
  Normal (update st h (fun x =>
            match readyState x with
            | CONNECTING | OPEN => setReady CLOSING x
            | _ => x
            end)).

(** The teardown block [try { ws.send(stop); ws.close(); } catch (e) {}] *)
Definition sendStopAndClose (st : Store) (h : nat) : Store :=
  tryCatchEmpty st (andThen (send st h) (fun st' => close st' h)).

(** [promise.then(session => { try { session.close() } catch (e) {} })]
    on the session promise: at once when it has resolved, else when it
    resolves. *)
Definition closeWhenResolved (st : Store) (h : nat) : Store :=
  update st h (fun x =>
    match readyState x with
    | CONNECTING => mkSocket CONNECTING (handlers x) true
    | OPEN => setReady CLOSING x
    | _ => x
    end).

End WebSocket.

(** ** useLocalPipeline (text buffers left out) *)

Module LocalPipeline.

Record State : Type := mkState {
  isActive : bool;
  isSpeaking : bool;
  volume : Q;
  error : option string;
  wsRef : option nat;
  audioContextRef : option Handle;
  mediaStreamRef : option Handle;
  processorRef : option Handle;
  sourceRef : option Handle;
  asrModeRef : PipelineAsrMode;
  recognitionRef : option Handle;
  isActiveRef : bool;
  playback : Playback.Refs;
  activeSourceCountRef : Z
}.

Definition initial : State :=
  mkState false false 0 None None None None None None asrLocal None false
          Playback.initial 0.

(** [stop()] *)
Definition stop (st : WebSocket.Store) (s : State)
  : WebSocket.Store * State :=
  let st' := match wsRef s with
             | Some h => WebSocket.sendStopAndClose st h
             | None => st
             end in
  (st',
   mkState false false 0 (error s)
           (nullIfSet (wsRef s))
           None
           (nullIfSet (mediaStreamRef s))
           (processorRef s) (sourceRef s) (asrModeRef s)
           (nullIfSet (recognitionRef s))
           false
           (Playback.mkRefs
              (nullIfSet (Playback.playbackContextRef (playback s))) 0)
           0).

(** [start(options)]: everything it does before the socket opens. *)
Definition start (asrMode : option PipelineAsrMode)
           (st : WebSocket.Store) (s : State) : WebSocket.Store * State :=
  let '(st1, s1) := match wsRef s with
                    | Some _ => stop st s
                    | None => (st, s)
                    end in
  let mode := match asrMode with Some m => m | None => asrLocal end in
  let '(st2, ws) := WebSocket.create st1 (WebSocket.PipelineSocket mode) in
  (st2,
   mkState (isActive s1) false (volume s1) None
           (Some ws)
           (audioContextRef s1) (mediaStreamRef s1)
           (processorRef s1) (sourceRef s1) mode
           (recognitionRef s1) (isActiveRef s1)
           (playback s1) (activeSourceCountRef s1)).

(** [ws.onopen]: [recognition] is the object browser recognition
    started with, [audioCtx] the context of local capture. *)
Definition onopen (asrMode : PipelineAsrMode)
           (recognition : option Handle) (audioCtx : Handle) (s : State)
  : State :=
  mkState true (isSpeaking s) (volume s) (error s)
          (wsRef s)
          (match asrMode with
           | asrLocal => Some audioCtx
           | asrBrowser => audioContextRef s
           end)
          (mediaStreamRef s) (processorRef s) (sourceRef s) (asrModeRef s)
          (match asrMode with
           | asrBrowser =>
               match recognition with
               | Some r => Some r
               | None => recognitionRef s
               end
           | asrLocal => recognitionRef s
           end)
          true
          (playback s) (activeSourceCountRef s).

(** [getUserMedia] resolves inside [startAudioCapture]. *)
Definition captureStarted (stream source processor : Handle) (s : State)
  : State :=
  mkState (isActive s) (isSpeaking s) (volume s) (error s)
          (wsRef s) (audioContextRef s) (Some stream)
          (Some processor) (Some source) (asrModeRef s)
          (recognitionRef s) (isActiveRef s)
          (playback s) (activeSourceCountRef s).

Definition withFlags (active : bool) (err : option string) (s : State)
  : State :=
  mkState active (isSpeaking s) (volume s) err
          (wsRef s) (audioContextRef s) (mediaStreamRef s)
          (processorRef s) (sourceRef s) (asrModeRef s)
          (recognitionRef s) (isActiveRef s)
          (playback s) (activeSourceCountRef s).

(** [ws.onclose] and [ws.onerror] *)
Definition onclose (s : State) : State := withFlags false (error s) s.
Definition onerror (s : State) : State :=
  withFlags false (Some "Connection failed") s.

(** [playAudioChunk] *)
Definition playAudioChunk (fresh : Handle) (currentTime duration : Q)
           (s : State) : State * Q :=
  let '(p, startTime) :=
    Playback.playAudioChunk fresh currentTime duration (playback s) in
  (mkState (isActive s) true (volume s) (error s)
           (wsRef s) (audioContextRef s) (mediaStreamRef s)
           (processorRef s) (sourceRef s) (asrModeRef s)
           (recognitionRef s) (isActiveRef s)
           p (activeSourceCountRef s + 1),
   startTime).

(** [source.onended] *)
Definition onended (s : State) : State :=
  let n := activeSourceCountRef s - 1 in
  mkState (isActive s) (if n <=? 0 then false else isSpeaking s)
          (volume s) (error s)
          (wsRef s) (audioContextRef s) (mediaStreamRef s)
          (processorRef s) (sourceRef s) (asrModeRef s)
          (recognitionRef s) (isActiveRef s)
          (playback s) (if n <=? 0 then 0 else n).

End LocalPipeline.

(** ** usePersonaPlex (text buffers left out) *)

Module PersonaPlex.

Record State : Type := mkState {
  isConnected : bool;
  isConnecting : bool;
  volume : Q;
  error : option string;
  audioPlaybackCount : Z;
  wsRef : option nat;
  audioContextRef : option Handle;
  mediaStreamRef : option Handle;
  processorRef : option Handle;
  sourceRef : option Handle;
  playback : Playback.Refs
}.

Definition initial : State :=
  mkState false false 0 None 0 None None None None None Playback.initial.

(** [disconnect()] *)
Definition disconnect (st : WebSocket.Store) (s : State)
  : WebSocket.Store * State :=
  let st' := match wsRef s with
             | Some h => WebSocket.sendStopAndClose st h
             | None => st
             end in
  (st',
   mkState false false 0 (error s) 0
           (nullIfSet (wsRef s))
           None
           (nullIfSet (mediaStreamRef s))
           (processorRef s) (sourceRef s)
           (Playback.mkRefs
              (nullIfSet (Playback.playbackContextRef (playback s))) 0)).

(** [connect(options)] up to [await getUserMedia]. *)
Definition connectBegin (audioCtx : Handle) (st : WebSocket.Store)
           (s : State) : WebSocket.Store * State :=
  let '(st1, s1) := match wsRef s with
                    | Some _ => disconnect st s
                    | None => (st, s)
                    end in
  (st1,
   mkState (isConnected s1) true (volume s1) None (audioPlaybackCount s1)
           (wsRef s1) (Some audioCtx) (mediaStreamRef s1)
           (processorRef s1) (sourceRef s1) (playback s1)).

(** [connect] resumes with the stream: the socket is created. *)
Definition micGranted (hs : WebSocket.Handlers) (stream : Handle)
           (st : WebSocket.Store) (s : State) : WebSocket.Store * State :=
  let '(st1, ws) := WebSocket.create st hs in
  (st1,
   mkState (isConnected s) (isConnecting s) (volume s) (error s)
           (audioPlaybackCount s)
           (Some ws) (audioContextRef s) (Some stream)
           (processorRef s) (sourceRef s) (playback s)).

Definition withFlags (connected connecting : bool) (err : option string)
           (s : State) : State :=
  mkState connected connecting (volume s) err (audioPlaybackCount s)
          (wsRef s) (audioContextRef s) (mediaStreamRef s)
          (processorRef s) (sourceRef s) (playback s).

(** The [catch] of [connect]. *)
Definition micDenied (message : string) (s : State) : State :=
  withFlags false false (Some message) s.

(** [ws.onopen] *)
Definition onopen (source processor : Handle) (s : State) : State :=
  mkState true false (volume s) (error s) (audioPlaybackCount s)
          (wsRef s) (audioContextRef s) (mediaStreamRef s)
          (Some processor) (Some source) (playback s).

Definition onclose (s : State) : State := withFlags false false (error s) s.
Definition onerror (s : State) : State :=
  withFlags false false (Some "Connection failed") s.

(** [playAudioChunk] *)
Definition playAudioChunk (fresh : Handle) (currentTime duration : Q)
           (s : State) : State * Q :=
  let '(p, startTime) :=
    Playback.playAudioChunk fresh currentTime duration (playback s) in
  (mkState (isConnected s) (isConnecting s) (volume s) (error s)
           (audioPlaybackCount s)
           (wsRef s) (audioContextRef s) (mediaStreamRef s)
           (processorRef s) (sourceRef s) p,
   startTime).

End PersonaPlex.

(** ** useLocalOmni *)

(** Modelled from the spec: the source of the hook useLocalOmni is not
    among the sources. The specification gives every pipeline variant the
    same lifecycle contract (start, stop, read-only status flags), the
    Teleprompter reads from it the same fields as from usePersonaPlex
    (isConnected, isConnecting, volume, audioPlaybackCount, connect,
    disconnect), and usePersonaPlex names it as sharing its playback
    pattern; the model gives it the state and the lifecycle of
    usePersonaPlex, with handlers of its own. *)
Module LocalOmni.

Definition State : Type := PersonaPlex.State.
Definition initial : State := PersonaPlex.initial.
Definition disconnect := PersonaPlex.disconnect.
Definition connectBegin := PersonaPlex.connectBegin.
Definition micGranted := PersonaPlex.micGranted WebSocket.LocalOmniSocket.
Definition micDenied := PersonaPlex.micDenied.
Definition onopen := PersonaPlex.onopen.
Definition onclose := PersonaPlex.onclose.
Definition onerror := PersonaPlex.onerror.

End LocalOmni.

(** ** useGeminiLive, the hook with audio playback (text buffers left out) *)

Module GeminiLive.

Record State : Type := mkState {
  isConnected : bool;
  isConnecting : bool;
  volume : Q;
  error : option string;
  audioPlaybackCount : Z;
  sessionRef : option nat;
  audioContextRef : option Handle;
  mediaStreamRef : option Handle;
  processorRef : option Handle;
  sourceRef : option Handle;
  playback : Playback.Refs;
  nudgeIntervalRef : option Handle
}.

Definition initial : State :=
  mkState false false 0 None 0 None None None None None
          Playback.initial None.

(** [disconnect()] *)
Definition disconnect (st : WebSocket.Store) (s : State)
  : WebSocket.Store * State :=
  let st' := match sessionRef s with
             | Some h => WebSocket.closeWhenResolved st h
             | None => st
             end in
  (st',
   mkState false false 0 (error s) 0
           (nullIfSet (sessionRef s))
           None
           (nullIfSet (mediaStreamRef s))
           (processorRef s) (sourceRef s)
           (Playback.mkRefs
              (nullIfSet (Playback.playbackContextRef (playback s))) 0)
           (nullIfSet (nudgeIntervalRef s))).

(** [connect(options)] up to [await getUserMedia]. *)
Definition connectBegin (audioCtx : Handle) (st : WebSocket.Store)
           (s : State) : WebSocket.Store * State :=
  let '(st1, s1) := match sessionRef s with
                    | Some _ => disconnect st s
                    | None => (st, s)
                    end in
  (st1,
   mkState (isConnected s1) true (volume s1) None (audioPlaybackCount s1)
           (sessionRef s1) (Some audioCtx) (mediaStreamRef s1)
           (processorRef s1) (sourceRef s1) (playback s1)
           (nudgeIntervalRef s1)).

(** [connect] resumes with the stream: [ai.live.connect] is called. *)
Definition micGranted (quickMode : bool) (stream : Handle)
           (st : WebSocket.Store) (s : State) : WebSocket.Store * State :=
  let '(st1, session) :=
    WebSocket.create st (WebSocket.LiveSession quickMode) in
  (st1,
   mkState (isConnected s) (isConnecting s) (volume s) (error s)
           (audioPlaybackCount s)
           (Some session) (audioContextRef s) (Some stream)
           (processorRef s) (sourceRef s) (playback s)
           (nudgeIntervalRef s)).

Definition withFlags (connected connecting : bool) (err : option string)
           (s : State) : State :=
  mkState connected connecting (volume s) err (audioPlaybackCount s)
          (sessionRef s) (audioContextRef s) (mediaStreamRef s)
          (processorRef s) (sourceRef s) (playback s)
          (nudgeIntervalRef s).

Definition micDenied (message : string) (s : State) : State :=
  withFlags false false (Some message) s.

(** The [onopen] callback; [timer] is the nudge interval of quick
    mode. *)
Definition onopen (quickMode : bool) (source processor timer : Handle)
           (s : State) : State :=
  mkState true false (volume s) (error s) (audioPlaybackCount s)
          (sessionRef s) (audioContextRef s) (mediaStreamRef s)
          (Some processor) (Some source) (playback s)
          (if quickMode then Some timer else nudgeIntervalRef s).

Definition onclose (s : State) : State := withFlags false false (error s) s.
Definition onerror (s : State) : State :=
  withFlags false (isConnecting s) (Some "Connection reset") s.

(** [playAudioChunk] *)
Definition playAudioChunk (fresh : Handle) (currentTime duration : Q)
           (s : State) : State * Q :=
  let '(p, startTime) :=
    Playback.playAudioChunk fresh currentTime duration (playback s) in
  (mkState (isConnected s) (isConnecting s) (volume s) (error s)
           (audioPlaybackCount s)
           (sessionRef s) (audioContextRef s) (mediaStreamRef s)
           (processorRef s) (sourceRef s) p (nudgeIntervalRef s),
   startTime).

End GeminiLive.

(** ** useGeminiLive as used by the single-mode Teleprompter *)

Module GeminiLiveLegacy.

Record State : Type := mkState {
  isConnected : bool;
  isConnecting : bool;
  volume : Q;
  error : option string;
  sessionRef : option nat;
  audioContextRef : option Handle;
  mediaStreamRef : option Handle;
  processorRef : option Handle;
  sourceRef : option Handle
}.

Definition initial : State :=
  mkState false false 0 None None None None None None.

(** [disconnect()] *)
Definition disconnect (st : WebSocket.Store) (s : State)
  : WebSocket.Store * State :=
  let st' := match sessionRef s with
             | Some h => WebSocket.closeWhenResolved st h
             | None => st
             end in
  (st',
   mkState false false 0 (error s)
           (nullIfSet (sessionRef s))
           None
           (nullIfSet (mediaStreamRef s))
           (processorRef s) (sourceRef s)).

End GeminiLiveLegacy.

(** ** The five-mode Teleprompter: mode orchestration *)

Module Teleprompter.

(** The [useState] cells the orchestration reads, [isListening] of
    useSpeechRecognition, and [prevIsListeningRef]. *)
Record Component : Type := mkComponent {
  showSubtitles : bool;
  translationMode : TranslationMode;
  pipelineAsrMode : PipelineAsrMode;
  targetLanguage : string;
  quickResponse : bool;
  voiceMode : TextTranslation.TTSMode;
  isListening : bool;
  prevIsListeningRef : bool
}.

Definition initialComponent : Component :=
  mkComponent false live asrBrowser "French" false
              TextTranslation.browser false false.

(** A pending [getUserMedia] promise and the code that awaits it. *)
Inductive MicRequest : Type :=
| LiveMic (quickMode : bool)
| OmniMic
| PersonaMic
| PipelineMic
| Settled.

Record World : Type := mkWorld {
  comp : Component;
  liveHook : GeminiLive.State;
  textHook : TextTranslation.State;
  omniHook : LocalOmni.State;
  pipelineHook : LocalPipeline.State;
  personaHook : PersonaPlex.State;
  sockets : WebSocket.Store;
  micRequests : list MicRequest;
  (** armed 100 ms timers, each with the render values it captured;
      [None] once fired *)
  restartTimers : list (option Component);
  fresh : Handle;      (* the next browser object to be created *)
  clock : Z            (* [Date.now()] *)
}.

Definition initialWorld : World :=
  mkWorld initialComponent GeminiLive.initial TextTranslation.initial
          LocalOmni.initial LocalPipeline.initial PersonaPlex.initial
          [] [] [] 0%nat 0.

(** The calls the component makes on its hooks. *)
Inductive HookCall : Type :=
| disconnectLive | stopTextTranslation | disconnectLocalOmni
| stopLocalPipeline | disconnectPersonaPlex
| connectLive | startTextTranslation | connectLocalOmni
| startLocalPipeline | connectPersonaPlex.

Definition disconnectAll : list HookCall :=
  [disconnectLive; stopTextTranslation; disconnectLocalOmni;
   stopLocalPipeline; disconnectPersonaPlex].

(** The body of the effect "Handle translation start/stop based on
    mode". *)
Definition modeEffect (c : Component) : list HookCall :=
  if showSubtitles c then
    match translationMode c with
    | live =>
        [stopTextTranslation; disconnectLocalOmni; stopLocalPipeline;
         disconnectPersonaPlex; connectLive]
    | text =>
        [disconnectLive; disconnectLocalOmni; stopLocalPipeline;
         disconnectPersonaPlex; startTextTranslation]
    | local_omni =>
        [disconnectLive; stopTextTranslation; stopLocalPipeline;
         disconnectPersonaPlex; connectLocalOmni]
    | local_pipeline =>
        [disconnectLive; stopTextTranslation; disconnectLocalOmni;
         disconnectPersonaPlex; startLocalPipeline]
    | personaplex =>
        [disconnectLive; stopTextTranslation; disconnectLocalOmni;
         stopLocalPipeline; connectPersonaPlex]
    end
  else disconnectAll.

(** Its cleanup. *)
Definition modeEffectCleanup : list HookCall := disconnectAll.

Definition teardownOf (m : TranslationMode) : HookCall :=
  match m with
  | live => disconnectLive
  | text => stopTextTranslation
  | local_omni => disconnectLocalOmni
  | local_pipeline => stopLocalPipeline
  | personaplex => disconnectPersonaPlex
  end.

Definition startOf (m : TranslationMode) : HookCall :=
  match m with
  | live => connectLive
  | text => startTextTranslation
  | local_omni => connectLocalOmni
  | local_pipeline => startLocalPipeline
  | personaplex => connectPersonaPlex
  end.

Section Updates.
Variable w : World.

Definition withComp (c : Component) : World :=
  mkWorld c (liveHook w) (textHook w) (omniHook w) (pipelineHook w)
          (personaHook w) (sockets w) (micRequests w) (restartTimers w)
          (fresh w) (clock w).

Definition withLive (p : WebSocket.Store * GeminiLive.State) : World :=
  mkWorld (comp w) (snd p) (textHook w) (omniHook w) (pipelineHook w)
          (personaHook w) (fst p) (micRequests w) (restartTimers w)
          (fresh w) (clock w).

Definition withText (s : TextTranslation.State) : World :=
  mkWorld (comp w) (liveHook w) s (omniHook w) (pipelineHook w)
          (personaHook w) (sockets w) (micRequests w) (restartTimers w)
          (fresh w) (clock w).

Definition withOmni (p : WebSocket.Store * LocalOmni.State) : World :=
  mkWorld (comp w) (liveHook w) (textHook w) (snd p) (pipelineHook w)
          (personaHook w) (fst p) (micRequests w) (restartTimers w)
          (fresh w) (clock w).

Definition withPipeline (p : WebSocket.Store * LocalPipeline.State)
  : World :=
  mkWorld (comp w) (liveHook w) (textHook w) (omniHook w) (snd p)
          (personaHook w) (fst p) (micRequests w) (restartTimers w)
          (fresh w) (clock w).

Definition withPersona (p : WebSocket.Store * PersonaPlex.State)
  : World :=
  mkWorld (comp w) (liveHook w) (textHook w) (omniHook w)
          (pipelineHook w) (snd p) (fst p) (micRequests w)
          (restartTimers w) (fresh w) (clock w).

Definition withSockets (st : WebSocket.Store) : World :=
  mkWorld (comp w) (liveHook w) (textHook w) (omniHook w)
          (pipelineHook w) (personaHook w) st (micRequests w)
          (restartTimers w) (fresh w) (clock w).

Definition withMicRequests (l : list MicRequest) : World :=
  mkWorld (comp w) (liveHook w) (textHook w) (omniHook w)
          (pipelineHook w) (personaHook w) (sockets w) l
          (restartTimers w) (fresh w) (clock w).

Definition withRestartTimers (l : list (option Component)) : World :=
  mkWorld (comp w) (liveHook w) (textHook w) (omniHook w)
          (pipelineHook w) (personaHook w) (sockets w) (micRequests w)
          l (fresh w) (clock w).

(** [n] browser objects were created. *)
Definition allocated (n : nat) : World :=
  mkWorld (comp w) (liveHook w) (textHook w) (omniHook w)
          (pipelineHook w) (personaHook w) (sockets w) (micRequests w)
          (restartTimers w) (fresh w + n)%nat (clock w).

Definition withClock (t : Z) : World :=
  mkWorld (comp w) (liveHook w) (textHook w) (omniHook w)
          (pipelineHook w) (personaHook w) (sockets w) (micRequests w)
          (restartTimers w) (fresh w) t.
End Updates.

Definition awaitMic (r : MicRequest) (w : World) : World :=
  withMicRequests w (micRequests w ++ [r])%list.

(** [startTextTranslation({ targetLanguage, useExternalTranscript:
    isListening, ttsMode: voiceMode })] with the values of render [c]. *)
Definition startText (c : Component) (w : World) : World :=
  allocated
    (withText w
       (TextTranslation.start (clock w) (Some (targetLanguage c))
          (isListening c) (Some (voiceMode c)) (Some (fresh w))
          (textHook w)))
    1.

(** One hook call, made during render [c]. *)
Definition perform (c : Component) (call : HookCall) (w : World) : World :=
  match call with
  | disconnectLive =>
      withLive w (GeminiLive.disconnect (sockets w) (liveHook w))
  | stopTextTranslation => withText w (TextTranslation.stop (textHook w))
  | disconnectLocalOmni =>
      withOmni w (LocalOmni.disconnect (sockets w) (omniHook w))
  | stopLocalPipeline =>
      withPipeline w (LocalPipeline.stop (sockets w) (pipelineHook w))
  | disconnectPersonaPlex =>
      withPersona w (PersonaPlex.disconnect (sockets w) (personaHook w))
  | connectLive =>
      awaitMic (LiveMic (quickResponse c))
        (allocated
           (withLive w
              (GeminiLive.connectBegin (fresh w) (sockets w) (liveHook w)))
           1)
  | startTextTranslation => startText c w
  | connectLocalOmni =>
      awaitMic OmniMic
        (allocated
           (withOmni w
              (LocalOmni.connectBegin (fresh w) (sockets w) (omniHook w)))
           1)
  | startLocalPipeline =>
      withPipeline w
        (LocalPipeline.start (Some (pipelineAsrMode c)) (sockets w)
                             (pipelineHook w))
  | connectPersonaPlex =>
      awaitMic PersonaMic
        (allocated
           (withPersona w
              (PersonaPlex.connectBegin (fresh w) (sockets w)
                                        (personaHook w)))
           1)
  end.

Definition performAll (c : Component) (calls : list HookCall) (w : World)
  : World :=
  fold_left (fun w' call => perform c call w') calls w.

(** A dependency of the mode effect changed: React runs the cleanup of
    the previous run, then the body with the new render's values. *)
Definition rerunModeEffect (w : World) : World :=
  performAll (comp w) (modeEffectCleanup ++ modeEffect (comp w))%list w.

(** [activeIsConnecting()] *)
Definition activeIsConnecting (w : World) : bool :=
  match translationMode (comp w) with
  | live => GeminiLive.isConnecting (liveHook w)
  | local_omni => PersonaPlex.isConnecting (omniHook w)
  | personaplex => PersonaPlex.isConnecting (personaHook w)
  | text | local_pipeline => false
  end.

(** The flag [activeIsConnected()] reads for mode [m]. *)
Definition reportsConnected (w : World) (m : TranslationMode) : bool :=
  match m with
  | live => GeminiLive.isConnected (liveHook w)
  | text => TextTranslation.isActive (textHook w)
  | local_omni => PersonaPlex.isConnected (omniHook w)
  | local_pipeline => LocalPipeline.isActive (pipelineHook w)
  | personaplex => PersonaPlex.isConnected (personaHook w)
  end.

Definition allModes : list TranslationMode :=
  [live; text; local_omni; local_pipeline; personaplex].

Definition connectedModes (w : World) : list TranslationMode :=
  filter (reportsConnected w) allModes.

Inductive Event : Type :=
(* the user *)
| ClickToggle
| ClickMode (m : TranslationMode)
| ClickAsrMode (m : PipelineAsrMode)
| ClickVoiceMode (m : TextTranslation.TTSMode)
| SelectLanguage (l : string)
(* useSpeechRecognition *)
| ListeningChanged (b : bool)
(* the browser *)
| RestartTimerFired (k : nat)
| SocketOpened (h : nat)
| SocketClosed (h : nat)
| SocketFailed (h : nat)
| MicGranted (k : nat)
| MicDenied (k : nat)
| ClockAdvanced (dt : Z).

Definition modeEqb (a b : TranslationMode) : bool :=
  match a, b with
  | live, live | text, text | local_omni, local_omni
  | local_pipeline, local_pipeline | personaplex, personaplex => true
  | _, _ => false
  end.

Definition asrEqb (a b : PipelineAsrMode) : bool :=
  match a, b with
  | asrBrowser, asrBrowser | asrLocal, asrLocal => true
  | _, _ => false
  end.

Definition ttsEqb (a b : TextTranslation.TTSMode) : bool :=
  match a, b with
  | TextTranslation.browser, TextTranslation.browser
  | TextTranslation.gemini, TextTranslation.gemini => true
  | _, _ => false
  end.

Definition setShowSubtitles (b : bool) (c : Component) : Component :=
  mkComponent b (translationMode c) (pipelineAsrMode c) (targetLanguage c)
              (quickResponse c) (voiceMode c) (isListening c)
              (prevIsListeningRef c).

Definition setTranslationMode (m : TranslationMode) (c : Component)
  : Component :=
  mkComponent (showSubtitles c) m (pipelineAsrMode c) (targetLanguage c)
              (quickResponse c) (voiceMode c) (isListening c)
              (prevIsListeningRef c).

Definition setPipelineAsrMode (m : PipelineAsrMode) (c : Component)
  : Component :=
  mkComponent (showSubtitles c) (translationMode c) m (targetLanguage c)
              (quickResponse c) (voiceMode c) (isListening c)
              (prevIsListeningRef c).

Definition setVoiceMode (m : TextTranslation.TTSMode) (c : Component)
  : Component :=
  mkComponent (showSubtitles c) (translationMode c) (pipelineAsrMode c)
              (targetLanguage c) (quickResponse c) m (isListening c)
              (prevIsListeningRef c).

Definition setTargetLanguage (l : string) (c : Component) : Component :=
  mkComponent (showSubtitles c) (translationMode c) (pipelineAsrMode c)
              l (quickResponse c) (voiceMode c) (isListening c)
              (prevIsListeningRef c).

Definition setListening (b : bool) (c : Component) : Component :=
  mkComponent (showSubtitles c) (translationMode c) (pipelineAsrMode c)
              (targetLanguage c) (quickResponse c) (voiceMode c) b b.

(** A socket or session was opened: its [onopen] runs, and a close that
    waited for the session follows. *)
Definition socketOpened (h : nat) (w : World) : World :=
  match WebSocket.get (sockets w) h with
  | Some x =>
      match WebSocket.readyState x with
      | CONNECTING =>
          let w1 :=
            withSockets w
              (WebSocket.update (sockets w) h
                 (WebSocket.setReady
                    (if WebSocket.closeWhenOpen x then CLOSING else OPEN)))
          in
          match WebSocket.handlers x with
          | WebSocket.PipelineSocket asrMode =>
              let w2 :=
                allocated
                  (withPipeline w1
                     (sockets w1,
                      LocalPipeline.onopen asrMode (Some (fresh w1))
                        (fresh w1) (pipelineHook w1)))
                  1 in
              match asrMode with
              | asrLocal => awaitMic PipelineMic w2
              | asrBrowser => w2
              end
          | WebSocket.PersonaPlexSocket =>
              allocated
                (withPersona w1
                   (sockets w1,
                    PersonaPlex.onopen (fresh w1) (S (fresh w1))
                                       (personaHook w1)))
                2
          | WebSocket.LocalOmniSocket =>
              allocated
                (withOmni w1
                   (sockets w1,
                    LocalOmni.onopen (fresh w1) (S (fresh w1))
                                     (omniHook w1)))
                2
          | WebSocket.LiveSession quickMode =>
              allocated
                (withLive w1
                   (sockets w1,
                    GeminiLive.onopen quickMode (fresh w1) (S (fresh w1))
                      (S (S (fresh w1))) (liveHook w1)))
                3
          end
      | _ => w
      end
  | None => w
  end.

(** A socket or session reached CLOSED: [onerror] first when it failed,
    then [onclose]. *)
Definition socketClosed (failed : bool) (h : nat) (w : World) : World :=
  match WebSocket.get (sockets w) h with
  | Some x =>
      match WebSocket.readyState x with
      | CLOSED => w
      | _ =>
          let w1 :=
            withSockets w
              (WebSocket.update (sockets w) h (WebSocket.setReady CLOSED))
          in
          match WebSocket.handlers x with
          | WebSocket.PipelineSocket _ =>
              let s := pipelineHook w1 in
              withPipeline w1
                (sockets w1,
                 LocalPipeline.onclose
                   (if failed then LocalPipeline.onerror s else s))
          | WebSocket.PersonaPlexSocket =>
              let s := personaHook w1 in
              withPersona w1
                (sockets w1,
                 PersonaPlex.onclose
                   (if failed then PersonaPlex.onerror s else s))
          | WebSocket.LocalOmniSocket =>
              let s := omniHook w1 in
              withOmni w1
                (sockets w1,
                 LocalOmni.onclose
                   (if failed then LocalOmni.onerror s else s))
          | WebSocket.LiveSession _ =>
              let s := liveHook w1 in
              withLive w1
                (sockets w1,
                 GeminiLive.onclose
                   (if failed then GeminiLive.onerror s else s))
          end
      end
  | None => w
  end.

Fixpoint settle (k : nat) (l : list MicRequest) : list MicRequest :=
  match l, k with
  | [], _ => []
  | _ :: r, O => Settled :: r
  | x :: r, S k' => x :: settle k' r
  end.

(** [getUserMedia] resolved with a stream. *)
Definition micGranted (k : nat) (w : World) : World :=
  let w1 := withMicRequests w (settle k (micRequests w)) in
  match nth_error (micRequests w) k with
  | Some (LiveMic quickMode) =>
      allocated
        (withLive w1
           (GeminiLive.micGranted quickMode (fresh w1) (sockets w1)
                                  (liveHook w1)))
        1
  | Some OmniMic =>
      allocated
        (withOmni w1
           (LocalOmni.micGranted (fresh w1) (sockets w1) (omniHook w1)))
        1
  | Some PersonaMic =>
      allocated
        (withPersona w1
           (PersonaPlex.micGranted WebSocket.PersonaPlexSocket (fresh w1)
                                   (sockets w1) (personaHook w1)))
        1
  | Some PipelineMic =>
      allocated
        (withPipeline w1
           (sockets w1,
            LocalPipeline.captureStarted (fresh w1) (S (fresh w1))
              (S (S (fresh w1))) (pipelineHook w1)))
        3
  | Some Settled | None => w
  end.

(** [getUserMedia] rejected. *)
Definition micDenied (k : nat) (w : World) : World :=
  let w1 := withMicRequests w (settle k (micRequests w)) in
  match nth_error (micRequests w) k with
  | Some (LiveMic _) =>
      withLive w1
        (sockets w1, GeminiLive.micDenied "Permission denied" (liveHook w1))
  | Some OmniMic =>
      withOmni w1
        (sockets w1, LocalOmni.micDenied "Permission denied" (omniHook w1))
  | Some PersonaMic =>
      withPersona w1
        (sockets w1,
         PersonaPlex.micDenied "Permission denied" (personaHook w1))
  | Some PipelineMic =>
      let s := pipelineHook w1 in
      withPipeline w1
        (sockets w1,
         LocalPipeline.withFlags (LocalPipeline.isActive s)
           (Some "Permission denied") s)
  | Some Settled | None => w
  end.

Fixpoint fire (k : nat) (l : list (option Component))
  : list (option Component) :=
  match l, k with
  | [], _ => []
  | _ :: r, O => None :: r
  | x :: r, S k' => x :: fire k' r
  end.

(** The effect "Handle tracking mode changes while Fast translation is
    active", run because [isListening] changed to [b]. *)
Definition listeningChanged (b : bool) (w : World) : World :=
  let c := comp w in
  if Bool.eqb b (isListening c) then w
  else
    let wasListening := prevIsListeningRef c in
    let c' := setListening b c in
    let w1 := withComp w c' in
    if showSubtitles c' && modeEqb (translationMode c') text
       && negb (Bool.eqb wasListening b)
    then
      let w2 := perform c' stopTextTranslation w1 in
      withRestartTimers w2 (restartTimers w2 ++ [Some c'])%list
    else w1.

(** The timer callback; [showSubtitles] and [translationMode] are the
    values its closure captured. *)
Definition restartTimerFired (k : nat) (w : World) : World :=
  match nth_error (restartTimers w) k with
  | Some (Some captured) =>
      let w1 := withRestartTimers w (fire k (restartTimers w)) in
      if showSubtitles captured && modeEqb (translationMode captured) text
      then startText captured w1
      else w1
  | _ => w
  end.

Definition step (w : World) (e : Event) : World :=
  match e with
  | ClickToggle =>
      (* disabled={activeIsConnecting()} *)
      if activeIsConnecting w then w
      else
        rerunModeEffect
          (withComp w
             (setShowSubtitles (negb (showSubtitles (comp w))) (comp w)))
  | ClickMode m =>
      (* disabled={showSubtitles} *)
      if showSubtitles (comp w) || modeEqb m (translationMode (comp w))
      then w
      else rerunModeEffect (withComp w (setTranslationMode m (comp w)))
  | ClickAsrMode m =>
      (* rendered in pipeline mode; disabled={showSubtitles} *)
      if showSubtitles (comp w)
         || negb (modeEqb (translationMode (comp w)) local_pipeline)
         || asrEqb m (pipelineAsrMode (comp w))
      then w
      else rerunModeEffect (withComp w (setPipelineAsrMode m (comp w)))
  | ClickVoiceMode m =>
      (* rendered in text mode; disabled={showSubtitles} *)
      if showSubtitles (comp w)
         || negb (modeEqb (translationMode (comp w)) text)
         || ttsEqb m (voiceMode (comp w))
      then w
      else rerunModeEffect (withComp w (setVoiceMode m (comp w)))
  | SelectLanguage l =>
      (* rendered when showSubtitles && !activeIsConnecting() *)
      if showSubtitles (comp w) && negb (activeIsConnecting w)
         && negb (l =? targetLanguage (comp w))%string
      then rerunModeEffect (withComp w (setTargetLanguage l (comp w)))
      else w
  | ListeningChanged b => listeningChanged b w
  | RestartTimerFired k => restartTimerFired k w
  | SocketOpened h => socketOpened h w
  | SocketClosed h => socketClosed false h w
  | SocketFailed h => socketClosed true h w
  | MicGranted k => micGranted k w
  | MicDenied k => micDenied k w
  | ClockAdvanced dt => if 0 <=? dt then withClock w (clock w + dt) else w
  end.

Definition run (w : World) (es : list Event) : World :=
  fold_left step es w.

End Teleprompter.

(** ** Classes of orchestration events and of timers *)

Module Orchestration.

Import Teleprompter.

(** The events that are actions of the user on the translation
    controls. *)
Definition isUserAction (e : Event) : bool :=
  match e with
  | ClickToggle | ClickMode _ | ClickAsrMode _ | ClickVoiceMode _
  | SelectLanguage _ => true
  | _ => false
  end.

(** What the closure of an armed restart timer captured: translation on,
    in text mode. *)
Definition capturedTextOn (timer : option Component) : Prop :=
  match timer with
  | Some c => showSubtitles c = true /\ translationMode c = text
  | None => True
  end.

(** What a teardown through [send] and [close] makes of a socket. *)
Definition afterSendStopAndClose (x : WebSocket.Socket) : WebSocket.Socket :=
  match WebSocket.readyState x with
  | OPEN => WebSocket.setReady CLOSING x
  | _ => x
  end.

End Orchestration.

(** ** useTextTranslation: what follows a translation, and the speech
    queue *)

Module TextSpeech.

Import TextTranslation.

(** The three cells of the speech queue replaced. *)
Definition withSpeech (queue : list string) (ttsSpeaking speaking : bool)
           (s : State) : State :=
  mkState (isActive s) (translatedText s) (sourceText s) speaking (error s)
          (targetLanguageRef s) (lastProcessedRef s) (lastProcessedTimeRef s)
          (lastActivityTimeRef s) (isTranslatingRef s) (recognitionRef s)
          (fullTranscriptRef s) (isActiveRef s) (useExternalTranscriptRef s)
          (ttsModeRef s) queue ttsSpeaking.

(** [setTranslatedText(prev => prev + text)] *)
Definition appendTranslated (text : string) (s : State) : State :=
  mkState (isActive s) (translatedText s ++ text) (sourceText s)
          (isSpeaking s) (error s)
          (targetLanguageRef s) (lastProcessedRef s) (lastProcessedTimeRef s)
          (lastActivityTimeRef s) (isTranslatingRef s) (recognitionRef s)
          (fullTranscriptRef s) (isActiveRef s) (useExternalTranscriptRef s)
          (ttsModeRef s) (ttsQueueRef s) (isTTSSpeakingRef s).

(** [processQueue()] up to its first [await]; the text returned is the
    utterance handed to the voice, if any. *)
Definition processQueue (s : State) : State * option string :=
  if isTTSSpeakingRef s then (s, None)
  else
    match ttsQueueRef s with
    | [] => (s, None)
    | first :: rest =>                      (* ttsQueueRef.current.shift() *)
        if (first =? "")%string
        then (withSpeech rest (isTTSSpeakingRef s) (isSpeaking s) s, None)
        else (withSpeech rest true true s, Some first)
    end.

(** The [finally] of [processQueue], when the utterance has ended or
    failed. *)
Definition utteranceEnded (s : State) : State * option string :=
  let queue := ttsQueueRef s in
  processQueue
    (withSpeech queue false (negb (Nat.eqb (List.length queue) 0)) s).

(** A chunk of the translation stream arrives. *)
Definition chunkArrived (now : Z) (chunkText : string) (s : State) : State :=
  appendTranslated chunkText (setLastActivityTime now s).

(** The stream has ended: the lines of [translateText] after the loop,
    and its [finally]. [fullTranslation] is the concatenation of the
    chunks of this request. *)
Definition translationCompleted (now : Z) (fullTranslation : string)
           (s : State) : State * option string :=
  let s1 := appendTranslated " " s in
  let spoken := Js.trim fullTranslation in
  let '(s2, utterance) :=
    if (spoken =? "")%string then (s1, None)
    else
      processQueue
        (withSpeech (ttsQueueRef s1 ++ [spoken])%list (isTTSSpeakingRef s1)
                    (isSpeaking s1) s1) in
  (requestSettled now s2, utterance).

(** What happens to the queue between [start] and [stop]. *)
Inductive Event : Type :=
| Translated (now : Z) (fullTranslation : string)
| UtteranceEnded.

(** The hook, the utterances begun so far (oldest first), and how many
    of them have not ended. *)
Record Trace : Type := mkTrace {
  hook : State;
  begun : list string;
  unfinished : Z
}.

Definition note (utterance : option string) (t : Trace) (s : State)
           (ended : Z) : Trace :=
  match utterance with
  | Some u => mkTrace s (begun t ++ [u])%list (unfinished t - ended + 1)
  | None => mkTrace s (begun t) (unfinished t - ended)
  end.

(** One event; [None] when an utterance is said to end although none is
    under way. *)
Definition step (t : Trace) (e : Event) : option Trace :=
  match e with
  | Translated now full =>
      let '(s, u) := translationCompleted now full (hook t) in
      Some (note u t s 0)
  | UtteranceEnded =>
      if unfinished t <=? 0 then None
      else
        let '(s, u) := utteranceEnded (hook t) in
        Some (note u t s 1)
  end.

Fixpoint run (t : Trace) (es : list Event) : option Trace :=
  match es with
  | [] => Some t
  | e :: rest =>
      match step t e with
      | Some t' => run t' rest
      | None => None
      end
  end.

(** The texts the translations of a run hand to the queue, in order. *)
Definition queued (es : list Event) : list string :=
  flat_map (fun e => match e with
                     | Translated _ full =>
                         if (Js.trim full =? "")%string then []
                         else [Js.trim full]
                     | UtteranceEnded => []
                     end) es.

(** The state of the queue between two events: the flag and the
    indicator tell whether an utterance is under way, nothing waits
    while none is, and no empty text waits. *)
Definition settled (t : Trace) : Prop :=
  unfinished t = (if isTTSSpeakingRef (hook t) then 1 else 0)
  /\ isSpeaking (hook t) = isTTSSpeakingRef (hook t)
  /\ (isTTSSpeakingRef (hook t) = false -> ttsQueueRef (hook t) = [])
  /\ Forall (fun u => u <> "") (ttsQueueRef (hook t)).

(** A hook whose queue is at rest: nothing waits, the flag and the
    indicator are off, and no utterance is under way. The first render
    is such a state; [stop] leaves one only if no utterance was under
    way, for it ends none. *)
Definition atRest (s : State) : Trace :=
  mkTrace (withSpeech [] false false s) [] 0.

(** [stop()] and then [start({ ttsMode, ... })], as the mode effect
    calls them: the queue is emptied and the flags are cleared, but an
    utterance that is under way is not ended (the voice of Gemini plays
    on; the browser voice is cancelled and the end of its utterance is
    delivered later), so its [finally] is still to come. *)
Definition restarted (now : Z) (ttsMode : option TTSMode) (t : Trace)
  : Trace :=
  mkTrace (start now None true ttsMode None (stop (hook t)))
          (begun t) (unfinished t).

End TextSpeech.

(** ** useTextTranslation: the requests that are under way *)

Module Requests.

Import TextTranslation.

(** The hook, and the texts of the requests that were started and whose
    [finally] has not run yet, oldest first. Nothing in the hook ends a
    request: the signal of the [AbortController] is not handed to
    [generateContentStream], and [stop] cancels only the browser voice. *)
Record World : Type := mkWorld {
  hook : State;
  inFlight : list string
}.

Definition initialWorld : World := mkWorld initial [].

Inductive Event : Type :=
| Start (now : Z) (targetLanguage : string)
    (* [start({ targetLanguage, useExternalTranscript: true })] *)
| Stop                                  (* [stop()] *)
| Feed (now : Z) (transcript : string)  (* [feedTranscript(transcript)] *)
| Tick (now : Z)                        (* the interval callback *)
| Chunk (now : Z) (k : nat) (chunkText : string)
    (* a chunk of the stream of the k-th request under way arrives *)
| Completed (now : Z) (k : nat) (fullTranslation : string).
    (* the stream of the k-th request under way ends: the lines after
       the loop of [translateText], and its [finally] *)

Fixpoint without {A : Type} (k : nat) (l : list A) : list A :=
  match l, k with
  | [], _ => []
  | _ :: r, O => r
  | x :: r, S k' => x :: without k' r
  end.

Definition step (w : World) (e : Event) : World :=
  match e with
  | Start now targetLanguage =>
      mkWorld (start now (Some targetLanguage) true None None (hook w))
              (inFlight w)
  | Stop => mkWorld (stop (hook w)) (inFlight w)
  | Feed now transcript =>
      let '(s, acts) := feedTranscript now transcript (hook w) in
      mkWorld s (inFlight w ++ started acts)%list
  | Tick now =>
      let '(s, acts) := intervalTick now None (hook w) in
      mkWorld s (inFlight w ++ started acts)%list
  | Chunk now k chunkText =>
      match nth_error (inFlight w) k with
      | Some _ =>
          mkWorld (TextSpeech.chunkArrived now chunkText (hook w))
                  (inFlight w)
      | None => w
      end
  | Completed now k fullTranslation =>
      match nth_error (inFlight w) k with
      | Some _ =>
          mkWorld (fst (TextSpeech.translationCompleted now fullTranslation
                          (hook w)))
                  (without k (inFlight w))
      | None => w
      end
  end.

Definition run (w : World) (es : list Event) : World := fold_left step es w.

(** [n] runs of the interval callback, 500 ms apart, the first at
    [now]. *)
Fixpoint every500 (n : nat) (now : Z) : list Event :=
  match n with
  | O => []
  | S n' => Tick now :: every500 n' (now + 500)
  end.

End Requests.

(** ** The start times a streaming hook gives to a sequence of chunks *)

Module HookPlayback.

(** [playAudioChunk] of the hook is called once per chunk, on the state
    the call before left. *)
Fixpoint pipelineRun (fresh : Handle) (s : LocalPipeline.State)
         (cs : list Playback.Chunk) : list Q :=
  match cs with
  | [] => []
  | c :: rest =>
      let '(s', startTime) :=
        LocalPipeline.playAudioChunk fresh (Playback.arrival c)
                                     (Playback.duration c) s in
      startTime :: pipelineRun fresh s' rest
  end.

Fixpoint personaRun (fresh : Handle) (s : PersonaPlex.State)
         (cs : list Playback.Chunk) : list Q :=
  match cs with
  | [] => []
  | c :: rest =>
      let '(s', startTime) :=
        PersonaPlex.playAudioChunk fresh (Playback.arrival c)
                                   (Playback.duration c) s in
      startTime :: personaRun fresh s' rest
  end.

Fixpoint liveRun (fresh : Handle) (s : GeminiLive.State)
         (cs : list Playback.Chunk) : list Q :=
  match cs with
  | [] => []
  | c :: rest =>
      let '(s', startTime) :=
        GeminiLive.playAudioChunk fresh (Playback.arrival c)
                                  (Playback.duration c) s in
      startTime :: liveRun fresh s' rest
  end.

(** The schedule of the specification's example: three chunks that
    start at [t0], [t0 + 1] and [t0 + 1.5], in that order. *)
Definition backToBack (t0 : Q) (starts : list Q) : Prop :=
  match starts with
  | [s1; s2; s3] =>
      (s1 == t0 /\ s2 == t0 + 1 /\ s3 == t0 + (3 # 2)
       /\ s1 < s2 /\ s2 < s3)%Q
  | _ => False
  end.

End HookPlayback.

(** ** The decoding of a received audio chunk

    The first lines of [playAudioChunk] in the three streaming hooks and
    of [playGeminiAudio]: [atob], the bytes, the [Int16Array] over their
    buffer, and the division by 32768. *)

Module PcmPlayback.

Import Pcm.

Fixpoint position (c : ascii) (s : string) (i : Z) : option Z :=
  match s with
  | EmptyString => None
  | String d r => if Ascii.eqb c d then Some i else position c r (i + 1)
  end.

(** The six bits a base64 digit stands for. *)
Definition valueOf (c : ascii) : option Z := position c alphabet 0.

(** ASCII whitespace: tab, line feed, form feed, carriage return and
    space. *)
Definition isAsciiWhitespace (c : ascii) : bool :=
  existsb (Z.eqb (Js.code c)) [9; 10; 12; 13; 32].

Definition isPad (c : ascii) : bool := Ascii.eqb c "="%char.

(** One or two [=] at the end are removed. *)
Fixpoint stripPadding (l : list ascii) : list ascii :=
  match l with
  | [] => []
  | c :: r =>
      if isPad c && match r with
                    | [] => true
                    | [d] => isPad d
                    | _ => false
                    end
      then []
      else c :: stripPadding r
  end.

Fixpoint values (l : list ascii) : option (list Z) :=
  match l with
  | [] => Some []
  | c :: r =>
      match valueOf c, values r with
      | Some v, Some vs => Some (v :: vs)
      | _, _ => None
      end
  end.

(** Four digits give three bytes; the bits left over at the end are
    dropped. *)
Fixpoint decode (v : list Z) : list Z :=
  match v with
  | a :: b :: c :: d :: rest =>
      (a * 4 + b / 16) :: ((b mod 16) * 16 + c / 4) :: ((c mod 4) * 64 + d)
      :: decode rest
  | [a; b; c] => [a * 4 + b / 16; (b mod 16) * 16 + c / 4]
  | [a; b] => [a * 4 + b / 16]
  | _ => []
  end.

Definition length4 (l : list ascii) : Z := Z.of_nat (List.length l) mod 4.

(** [atob(data)], the forgiving base64 decoding of the platform; [None]
    is its InvalidCharacterError. The result has one code unit per
    byte. *)
Definition atob (data : string) : option (list Z) :=
  let l1 := filter (fun c => negb (isAsciiWhitespace c))
                   (list_ascii_of_string data) in
  let l2 := if length4 l1 =? 0 then stripPadding l1 else l1 in
  if length4 l2 =? 1 then None
  else option_map decode (values l2).

Definition signed16 (u : Z) : Z := if 32768 <=? u then u - 65536 else u.

(** [new Int16Array(bytes.buffer)]: two bytes per element, low byte
    first; [None] is the RangeError for a buffer of odd length. *)
Fixpoint int16OfBytes (bytes : list Z) : option (list Z) :=
  match bytes with
  | [] => Some []
  | [_] => None
  | lo :: hi :: rest =>
      match int16OfBytes rest with
      | Some l => Some (signed16 (lo + 256 * hi) :: l)
      | None => None
      end
  end.

(** [int16[i] / 32768], which a Float32 holds without rounding. *)
Definition sample (v : Z) : Q := (inject_Z v / 32768)%Q.

(** The [Int16Array] of a chunk. *)
Definition int16 (base64Data : string) : option (list Z) :=
  match atob base64Data with
  | Some bytes => int16OfBytes bytes
  | None => None
  end.

(** The [Float32Array] handed to the audio buffer. *)
Definition float32 (base64Data : string) : option (list Q) :=
  option_map (map sample) (int16 base64Data).

End PcmPlayback.

(** ** The five-mode Teleprompter: slide navigation *)

Module Slides.

Record State : Type := mkState {
  currentSlide : Z;
  totalSlides : Z
}.

(** The component as first rendered. *)
Definition initial : State := mkState 1 0.

Inductive Event : Type :=
| Forward               (* Space, Enter or ArrowRight, with a PDF set *)
| Back                  (* ArrowLeft, with a PDF set *)
| Restart               (* the restart button *)
| Loaded (numPages : Z).   (* [onLoadSuccess] of the viewer *)

Definition step (s : State) (e : Event) : State :=
  match e with
  | Forward =>
      mkState (Z.min (currentSlide s + 1) (totalSlides s)) (totalSlides s)
  | Back => mkState (Z.max (currentSlide s - 1) 1) (totalSlides s)
  | Restart => mkState 1 (totalSlides s)
  | Loaded numPages => mkState (currentSlide s) numPages
  end.

Definition run (s : State) (es : list Event) : State := fold_left step es s.

Definition isKey (e : Event) : bool :=
  match e with Loaded _ => false | _ => true end.

End Slides.

(** ** useLocalPipeline: the speaking indicator *)

Module PipelineSpeech.

Inductive Event : Type :=
| ChunkPlayed (fresh : Handle) (currentTime duration : Q)
    (* an audio message: [playAudioChunk] *)
| SourceEnded.   (* [onended] of a source that was started *)

(** The hook and the number of sources started and not ended. *)
Record Trace : Type := mkTrace {
  hook : LocalPipeline.State;
  sounding : Z
}.

(** One event; [None] when a source is said to end although none is
    sounding. *)
Definition step (t : Trace) (e : Event) : option Trace :=
  match e with
  | ChunkPlayed fresh currentTime duration =>
      Some (mkTrace
              (fst (LocalPipeline.playAudioChunk fresh currentTime duration
                      (hook t)))
              (sounding t + 1))
  | SourceEnded =>
      if sounding t <=? 0 then None
      else Some (mkTrace (LocalPipeline.onended (hook t)) (sounding t - 1))
  end.

Fixpoint run (t : Trace) (es : list Event) : option Trace :=
  match es with
  | [] => Some t
  | e :: rest =>
      match step t e with
      | Some t' => run t' rest
      | None => None
      end
  end.

End PipelineSpeech.

(** ** useLocalPipeline: the text buffers of [ws.onmessage] *)

Module PipelineText.

Definition newline : ascii := ascii_of_nat 10.

(** [s.lastIndexOf(c)] *)
Fixpoint lastIndexOf (c : ascii) (s : string) : Z :=
  match s with
  | EmptyString => -1
  | String d r =>
      let k := lastIndexOf c r in
      if 0 <=? k then k + 1 else if Ascii.eqb d c then 0 else -1
  end.

(** [committed] of the two source-text updaters. *)
Definition committed (prev : string) : string :=
  let lastNewline := lastIndexOf newline prev in
  if 0 <=? lastNewline then Js.sliceTo prev (lastNewline + 1) else "".

Record Texts : Type := mkTexts {
  sourceText : string;
  translatedText : string;
  committedTextRef : string;
  draftTextRef : string;
  asrModeRef : PipelineAsrMode
}.

(** The buffers after the first lines of [start]. *)
Definition started (asrMode : PipelineAsrMode) : Texts :=
  mkTexts "" "" "" "" asrMode.

(** The messages of the pipeline server that touch the buffers, with
    their [data]; [Other] is an audio, error or status message. *)
Inductive Message : Type :=
| source_text_interim (data : string)
| source_text (data : string)
| translated_text_draft (data : string)
| translated_text_final (data : string)
| translated_text (data : string)
| Other.

Definition onmessage (t : Texts) (msg : Message) : Texts :=
  match msg with
  | source_text_interim data =>
      match asrModeRef t with
      | asrLocal =>
          mkTexts (committed (sourceText t) ++ data) (translatedText t)
                  (committedTextRef t) (draftTextRef t) (asrModeRef t)
      | asrBrowser => t
      end
  | source_text data =>
      match asrModeRef t with
      | asrLocal =>
          mkTexts (committed (sourceText t) ++ data
                   ++ String newline "")
                  (translatedText t)
                  (committedTextRef t) (draftTextRef t) (asrModeRef t)
      | asrBrowser => t
      end
  | translated_text_draft data =>
      let draft := draftTextRef t ++ data in
      mkTexts (sourceText t) (committedTextRef t ++ draft)
              (committedTextRef t) draft (asrModeRef t)
  | translated_text_final data =>
      let done := committedTextRef t ++ (data ++ " ") in
      mkTexts (sourceText t) done done "" (asrModeRef t)
  | translated_text data =>
      let done := committedTextRef t ++ data in
      mkTexts (sourceText t) done done (draftTextRef t) (asrModeRef t)
  | Other => t
  end.

Definition run (t : Texts) (msgs : list Message) : Texts :=
  fold_left onmessage msgs t.

(** The text the messages commit to the translation panel. *)
Fixpoint committedBy (msgs : list Message) : string :=
  match msgs with
  | [] => ""
  | translated_text_final data :: rest => (data ++ " ") ++ committedBy rest
  | translated_text data :: rest => data ++ committedBy rest
  | _ :: rest => committedBy rest
  end.

Definition isDraft (m : Message) : bool :=
  match m with translated_text_draft _ => true | _ => false end.

Definition drafts (texts : list string) : list Message :=
  map translated_text_draft texts.

Fixpoint joined (texts : list string) : string :=
  match texts with
  | [] => ""
  | x :: rest => x ++ joined rest
  end.

Fixpoint hasNewline (s : string) : bool :=
  match s with
  | EmptyString => false
  | String c r => Ascii.eqb c newline || hasNewline r
  end.

(** The text of an interim source message is one line. *)
Definition interimIsOneLine (m : Message) : bool :=
  match m with
  | source_text_interim data => negb (hasNewline data)
  | _ => true
  end.

(** The lines the source-text messages have completed, and the interim
    text after the last of them. *)
Fixpoint sourceLines (done : list string) (interim : string)
         (msgs : list Message) : list string * string :=
  match msgs with
  | [] => (done, interim)
  | source_text_interim data :: rest => sourceLines done data rest
  | source_text data :: rest => sourceLines (done ++ [data])%list "" rest
  | _ :: rest => sourceLines done interim rest
  end.

Fixpoint joinLines (lines : list string) : string :=
  match lines with
  | [] => ""
  | x :: rest => (x ++ String newline "") ++ joinLines rest
  end.

Definition shown (p : list string * string) : string :=
  joinLines (fst p) ++ snd p.

End PipelineText.

(** ** useSpeechRecognition: the transcript of a result event *)

Module Recognition.

(** [event.results[i]]: [isFinal] and [results[i][0].transcript]. *)
Record Result : Type := mkResult {
  isFinal : bool;
  transcript : string
}.

(** The loop of [onresult] from index [i] on: the two accumulators. *)
Fixpoint loop (results : list Result) (finalTranscript interimTranscript
                                       : string) : string * string :=
  match results with
  | [] => (finalTranscript, interimTranscript)
  | r :: rest =>
      if isFinal r
      then loop rest (finalTranscript ++ transcript r) interimTranscript
      else loop rest finalTranscript (interimTranscript ++ transcript r)
  end.

(** The value [onresult] hands to [setTranscript]. *)
Definition onresult (resultIndex : nat) (results : list Result) : string :=
  let '(finalTranscript, interimTranscript) :=
    loop (skipn resultIndex results) "" "" in
  finalTranscript ++ interimTranscript.

Fixpoint texts (results : list Result) : string :=
  match results with
  | [] => ""
  | r :: rest => transcript r ++ texts rest
  end.

Definition isInterim (r : Result) : bool := negb (isFinal r).

End Recognition.

(** ** The sounding intervals of a sequence of chunks *)

Module Schedule.

(** For each chunk of a sequence, in call order, the time its source is
    started at and the time it ends. *)
Definition intervals (fresh : Handle) (r : Playback.Refs)
           (cs : list Playback.Chunk) : list (Q * Q) :=
  map (fun p => (snd p, (snd p + Playback.duration (fst p))%Q))
      (combine cs (Playback.run fresh r cs)).

End Schedule.

(** ** The caption under the slides *)

Module Caption.

Definition dot : ascii := "."%char.

(** [s.split('.')] *)
Fixpoint split (s : string) : list string :=
  match s with
  | EmptyString => [""]
  | String c r =>
      if Ascii.eqb c dot then "" :: split r
      else match split r with
           | p :: ps => String c p :: ps
           | [] => [String c ""]
           end
  end.

(** [l.slice(-2)] *)
Definition lastTwo {A : Type} (l : list A) : list A :=
  skipn (List.length l - 2) l.

(** [l.join('.')] *)
Fixpoint join (l : list string) : string :=
  match l with
  | [] => ""
  | [x] => x
  | x :: rest => x ++ String dot (join rest)
  end.

(** [subtitle.split('.').slice(-2).join('.')], the text of the caption
    when it is not empty. *)
Definition caption (subtitle : string) : string :=
  join (lastTwo (split subtitle)).

(** The number of full stops of a text. *)
Fixpoint dots (s : string) : nat :=
  match s with
  | EmptyString => 0
  | String c r => (if Ascii.eqb c dot then 1 else 0) + dots r
  end.

End Caption.

(** ** ScriptEditor: the way into the Teleprompter *)

Module ScriptEditor.

(** The start button is enabled: [disabled={!script.trim()}]. *)
Definition canStartReading (script : string) : bool :=
  negb (Js.trim script =? "")%string.

End ScriptEditor.

(** ** Classes of characters, for statements about strings *)

Module Chars.

(** Every code unit of [s] satisfies [p]. *)
Fixpoint all (p : ascii -> bool) (s : string) : bool :=
  match s with
  | EmptyString => true
  | String c r => p c && all p r
  end.

(** A digit or a lowercase ASCII letter. *)
Definition isLowerAlnum (c : ascii) : bool :=
  let n := Js.code c in
  ((48 <=? n) && (n <=? 57)) || ((97 <=? n) && (n <=? 122)).

Definition notSpace (c : ascii) : bool := negb (Js.isSpace c).

(** A word: not empty, and free of white space. *)
Definition isWord (s : string) : bool :=
  negb (s =? "")%string && all notSpace s.

(** The last code unit of [s] is white space. *)
Fixpoint lastIsSpace (s : string) : bool :=
  match s with
  | EmptyString => false
  | String c EmptyString => Js.isSpace c
  | String _ r => lastIsSpace r
  end.

End Chars.

(** ** Events while nothing has been recognised *)

Module Silence.

(** The transcript holds no word: it is empty, or nothing is left of it
    once it is normalised. *)
Definition holdsNoWord (transcript : string) : bool :=
  match Script.transcriptWords transcript with
  | [] => true
  | _ :: _ => false
  end.

(** An event of the cursor other than a tracking run on a transcript
    that holds a word. *)
Definition quiet (e : Cursor.Event) : bool :=
  match e with
  | Cursor.TrackingRun transcript => holdsNoWord transcript
  | _ => true
  end.

End Silence.

(** ** The candidate test of the tracking loop *)

Module Candidates.

(** The body of the five-mode loop at candidate [i], as a test: the
    script word is the last spoken word and enough tail words match for
    the distance. *)
Definition qualifies (words : list WordItem) (activeIndex : Z)
           (lastWord : string) (secondLastWord thirdLastWord : option string)
           (i : Z) : bool :=
  match Script.cleanWordAt words i with
  | Some scriptWord =>
      (scriptWord =? lastWord)%string
      && match Tracker.matchCount words secondLastWord thirdLastWord i with
         | Some mc =>
             (Tracker.requiredMatches (i - activeIndex) <=? mc)%nat
         | None => false
         end
  | None => false
  end.

(** The same test for a transcript. *)
Definition qualifiesFor (words : list WordItem) (transcript : string)
           (activeIndex i : Z) : bool :=
  let tw := Script.transcriptWords transcript in
  match Script.lastWordOf tw with
  | Some lastWord =>
      qualifies words activeIndex lastWord (Script.secondLastWordOf tw)
                (Script.thirdLastWordOf tw) i
  | None => false
  end.

(** The end of the search window. *)
Definition searchEndIndex (words : list WordItem) (activeIndex : Z) : Z :=
  Z.min (activeIndex + Tracker.searchWindow) (Script.length words).

End Candidates.

(** ** States used as examples *)

Module Examples.

(** The script of the specification's example. *)
Definition catScript : list WordItem :=
  Script.words "The cat sat on the mat.".

(** The state of the specification's example: the watermark is
    "Hello there," and two more words have arrived. *)
Definition afterComma : TextTranslation.State :=
  TextTranslation.setSource "Hello there, how are"
    (fst (TextTranslation.feedTranscript 1000 "Hello there,"
            (TextTranslation.start 0 (Some "French") true None None
                                   TextTranslation.initial))).

(** A hook with a request in flight whose last activity was at 1000. *)
Definition requestInFlight : TextTranslation.State :=
  fst (TextTranslation.feedTranscript 1000 "Hello there,"
         (TextTranslation.start 0 (Some "French") true None None
                                TextTranslation.initial)).

(** The script of the specification's skip-ahead scenario. *)
Definition twelve : list WordItem :=
  Script.words
    "one two three four five six seven eight nine ten eleven twelve".

(** Feeds in a row, each at time [now]; the texts handed to
    [translateText], in order. *)
Fixpoint feedEach (now : Z) (transcripts : list string)
         (s : TextTranslation.State) : list (string * string) :=
  match transcripts with
  | [] => []
  | t :: rest =>
      let '(s', acts) := TextTranslation.feedTranscript now t s in
      (TextTranslation.triggers acts ++ feedEach now rest s')%list
  end.

End Examples.

(* ===================================================================== *)
(** * Part II. Properties                                                  *)
(* ===================================================================== *)

Import Examples.

(** ** The position tracker *)

Section TrackerFacts.
Variable words : list WordItem.
Variable activeIndex : Z.

(** What the loop of the five-mode tracker has established when it
    writes. *)
Lemma scan_writes lastWord secondLastWord thirdLastWord e fuel i v :
  Tracker.scan words activeIndex lastWord secondLastWord thirdLastWord
               e fuel i = SetActiveIndex v ->
  exists j mc,
    i <= j < e /\ v = j + 1
    /\ Script.cleanWordAt words j = Some lastWord
    /\ Tracker.matchCount words secondLastWord thirdLastWord j = Some mc
    /\ (Tracker.requiredMatches (j - activeIndex) <= mc)%nat.
Proof.
  revert i. induction fuel as [|fuel IH]; intros i H; simpl in H.
  - discriminate.
  - destruct (i <? e) eqn:Hie; [|discriminate].
    apply Z.ltb_lt in Hie.
    destruct (Script.cleanWordAt words i) as [sw|] eqn:Hsw; [|discriminate].
    destruct (String.eqb sw lastWord) eqn:Heq.
    + apply String.eqb_eq in Heq. subst sw.
      destruct (Tracker.matchCount words secondLastWord thirdLastWord i)
        as [mc|] eqn:Hmc; [|discriminate].
      destruct (Nat.leb (Tracker.requiredMatches (i - activeIndex)) mc)
        eqn:Hreq.
      * inversion H; subst v. exists i, mc.
        apply Nat.leb_le in Hreq. repeat split; auto; lia.
      * destruct (IH _ H) as (j & mc' & Hj & Hrest).
        exists j, mc'. split; [lia|exact Hrest].
    + destruct (IH _ H) as (j & mc' & Hj & Hrest).
      exists j, mc'. split; [lia|exact Hrest].
Qed.

(** The same for the single-mode tracker. *)
Lemma legacy_scan_writes lastWord secondLastWord e fuel i v :
  LegacyTracker.scan words activeIndex lastWord secondLastWord e fuel i
  = SetActiveIndex v ->
  exists j,
    i <= j < e /\ v = j + 1
    /\ Script.cleanWordAt words j = Some lastWord
    /\ (LegacyTracker.previousMatches words secondLastWord j = Some true
        \/ activeIndex = 0).
Proof.
  revert i. induction fuel as [|fuel IH]; intros i H; simpl in H.
  - discriminate.
  - destruct (i <? e) eqn:Hie; [|discriminate].
    apply Z.ltb_lt in Hie.
    destruct (Script.cleanWordAt words i) as [sw|] eqn:Hsw; [|discriminate].
    destruct (String.eqb sw lastWord) eqn:Heq.
    + apply String.eqb_eq in Heq. subst sw.
      destruct (LegacyTracker.previousMatches words secondLastWord i)
        as [[|]|] eqn:Hp; [| |discriminate].
      * inversion H; subst v. exists i. repeat split; auto; lia.
      * destruct (activeIndex =? 0) eqn:Ha.
        -- apply Z.eqb_eq in Ha. inversion H; subst v.
           exists i. repeat split; auto; lia.
        -- destruct (IH _ H) as (j & Hj & Hrest).
           exists j. split; [lia|exact Hrest].
    + destruct (IH _ H) as (j & Hj & Hrest).
      exists j. split; [lia|exact Hrest].
Qed.
End TrackerFacts.

(** The table of [requiredMatches]. *)
Lemma requiredMatches_table (d : Z) :
  (0 <= d <= 1 -> Tracker.requiredMatches d = 1%nat)
  /\ (2 <= d <= 10 -> Tracker.requiredMatches d = 2%nat)
  /\ (10 < d -> Tracker.requiredMatches d = 3%nat).
Proof.
  unfold Tracker.requiredMatches. repeat split; intros H.
  - destruct (2 <=? d) eqn:E1; [apply Z.leb_le in E1; lia|].
    simpl. destruct (10 <? d) eqn:E2; [apply Z.ltb_lt in E2; lia|reflexivity].
  - destruct (2 <=? d) eqn:E1; [|apply Z.leb_gt in E1; lia].
    destruct (d <=? 10) eqn:E2; [reflexivity|apply Z.leb_gt in E2; lia].
  - destruct (d <=? 10) eqn:E2; [apply Z.leb_le in E2; lia|].
    rewrite andb_false_r.
    destruct (10 <? d) eqn:E3; [reflexivity|apply Z.ltb_ge in E3; lia].
Qed.

(** [matchCount] counts the consecutive tail words that match backwards
    from the candidate: it is 1, 2 or 3; it is at least 2 only when the
    second-last spoken word is the script word before the candidate, and
    3 only when the third-last is the one before that. *)
Lemma matchCount_meaning words second third i mc :
  Tracker.matchCount words second third i = Some mc ->
  (1 <= mc <= 3)%nat
  /\ ((2 <= mc)%nat ->
      0 < i /\ exists w1, Script.cleanWordAt words (i - 1) = Some w1
                          /\ second = Some w1)
  /\ (mc = 3%nat ->
      1 < i /\ exists w2, Script.cleanWordAt words (i - 2) = Some w2
                          /\ third = Some w2).
Proof.
  unfold Tracker.matchCount. intros H.
  destruct (Js.truthy second && (0 <? i)) eqn:G1.
  2:{ inversion H; subst. split; [lia|]. split; intros; lia. }
  apply andb_true_iff in G1. destruct G1 as [_ G1]. apply Z.ltb_lt in G1.
  destruct (Script.cleanWordAt words (i - 1)) as [w1|] eqn:W1; [|discriminate].
  destruct (Js.strictEq w1 second) eqn:E1.
  2:{ inversion H; subst. split; [lia|]. split; intros; lia. }
  assert (S1 : second = Some w1).
  { destruct second as [s|]; simpl in E1; [|discriminate].
    apply String.eqb_eq in E1. now subst. }
  assert (P2 : 0 < i /\ exists w, Some w1 = Some w /\ second = Some w).
  { split; [lia|]. exists w1. auto. }
  destruct (Js.truthy third && (1 <? i)) eqn:G2.
  2:{ inversion H; subst. split; [lia|]. split; [auto|intros; lia]. }
  apply andb_true_iff in G2. destruct G2 as [_ G2]. apply Z.ltb_lt in G2.
  destruct (Script.cleanWordAt words (i - 2)) as [w2|] eqn:W2; [|discriminate].
  destruct (Js.strictEq w2 third) eqn:E2; inversion H; subst.
  - split; [lia|]. split; [auto|]. intros _. split; [lia|].
    exists w2. split; [reflexivity|].
    destruct third as [s|]; simpl in E2; [|discriminate].
    apply String.eqb_eq in E2. now subst.
  - split; [lia|]. split; [auto|intros; lia].
Qed.

Lemma cleanWordAt_in_range words i w :
  Script.cleanWordAt words i = Some w -> 0 <= i < Script.length words.
Proof.
  unfold Script.cleanWordAt, Script.length, Js.at_. intros H.
  destruct (i <? 0) eqn:E; [discriminate|]. apply Z.ltb_ge in E.
  destruct (nth_error words (Z.to_nat i)) eqn:N; [|discriminate].
  assert (Z.to_nat i < List.length words)%nat
    by (apply nth_error_Some; congruence).
  lia.
Qed.

(** C1, as amended. When a tracking run writes [i + 1]: the candidate [i]
    lies in the window that starts at the cursor, its normalised word is
    the last spoken word, and
    - in the five-mode Teleprompter the number of consecutive matching
      tail words is at least the requirement of the distance
      [i - activeIndex], which is 1 for distance 0..1, 2 for 2..10 and 3
      above 10, so that a one-word match at distance 5 does not write;
    - in the single-mode Teleprompter the word before the candidate is the
      second-last spoken word, or the cursor is at 0. *)
Theorem tracker_advance_is_confirmed
        (v : TeleprompterVariant) (words : list WordItem)
        (transcript : string) (activeIndex i : Z) :
  trackingEffect v words transcript activeIndex = SetActiveIndex (i + 1) ->
  let tw := Script.transcriptWords transcript in
  exists lastWord,
    Script.lastWordOf tw = Some lastWord
    /\ activeIndex <= i < activeIndex + 20
    /\ 0 <= i < Script.length words
    /\ Script.cleanWordAt words i = Some lastWord
    /\ match v with
       | FiveMode =>
           exists mc,
             Tracker.matchCount words (Script.secondLastWordOf tw)
                                (Script.thirdLastWordOf tw) i = Some mc
             /\ (Tracker.requiredMatches (i - activeIndex) <= mc)%nat
             /\ (i - activeIndex <= 1 -> (1 <= mc)%nat)
             /\ (2 <= i - activeIndex <= 10 -> (2 <= mc)%nat)
             /\ (10 < i - activeIndex -> mc = 3%nat)
             /\ ~ (i - activeIndex = 5 /\ mc = 1%nat)
       | SingleMode =>
           LegacyTracker.previousMatches words (Script.secondLastWordOf tw) i
           = Some true
           \/ activeIndex = 0
       end.
Proof.
  intros H tw.
  destruct v; simpl in H.
  - unfold Tracker.effect in H.
    destruct (String.eqb transcript "") ; [discriminate|].
    unfold Tracker.onWords in H. fold tw in H.
    destruct (Script.lastWordOf tw) as [lastWord|] eqn:L; [|discriminate].
    apply scan_writes in H.
    destruct H as (j & mc & Hj & Hv & Hw & Hmc & Hreq).
    assert (j = i) by lia. subst j.
    exists lastWord. split; [reflexivity|].
    unfold Tracker.searchWindow in Hj.
    pose proof (cleanWordAt_in_range _ _ _ Hw) as Hr.
    repeat split; try lia; auto.
    exists mc. split; [exact Hmc|]. split; [exact Hreq|].
    pose proof (requiredMatches_table (i - activeIndex)) as (T1 & T2 & T3).
    pose proof (matchCount_meaning _ _ _ _ _ Hmc) as (B & _).
    repeat split.
    + intros _. lia.
    + intros D. rewrite (T2 D) in Hreq. lia.
    + intros D. rewrite (T3 D) in Hreq. lia.
    + intros [D M]. rewrite T2 in Hreq by lia. lia.
  - unfold LegacyTracker.effect in H.
    destruct (String.eqb transcript "") ; [discriminate|].
    unfold LegacyTracker.onWords in H. fold tw in H.
    destruct (Script.lastWordOf tw) as [lastWord|] eqn:L; [|discriminate].
    apply legacy_scan_writes in H.
    destruct H as (j & Hj & Hv & Hw & Hp).
    assert (j = i) by lia. subst j.
    exists lastWord. split; [reflexivity|].
    unfold Tracker.searchWindow in Hj.
    pose proof (cleanWordAt_in_range _ _ _ Hw) as Hr.
    repeat split; try lia; auto.
Qed.

Lemma tracker_advance_is_confirmed_witness :
  let tw := Script.transcriptWords "on the mat" in
  exists lastWord,
    Script.lastWordOf tw = Some lastWord
    /\ 0 <= 5 < 0 + 20
    /\ 0 <= 5 < Script.length catScript
    /\ Script.cleanWordAt catScript 5 = Some lastWord
    /\ exists mc,
         Tracker.matchCount catScript (Script.secondLastWordOf tw)
                            (Script.thirdLastWordOf tw) 5 = Some mc
         /\ (Tracker.requiredMatches (5 - 0) <= mc)%nat
         /\ (5 - 0 <= 1 -> (1 <= mc)%nat)
         /\ (2 <= 5 - 0 <= 10 -> (2 <= mc)%nat)
         /\ (10 < 5 - 0 -> mc = 3%nat)
         /\ ~ (5 - 0 = 5 /\ mc = 1%nat).
Proof.
  apply (tracker_advance_is_confirmed FiveMode catScript "on the mat" 0 5).
  reflexivity.
Defined.

(** C1 fails as stated: in the single-mode Teleprompter, with the cursor
    at 0, the transcript "mat" alone moves the cursor to the candidate at
    distance 5, where one tail word matches and two are required. *)
Lemma single_word_jump_in_single_mode :
  trackingEffect SingleMode catScript "mat" 0 = SetActiveIndex (5 + 1)
  /\ Tracker.matchCount catScript
       (Script.secondLastWordOf (Script.transcriptWords "mat"))
       (Script.thirdLastWordOf (Script.transcriptWords "mat")) 5
     = Some 1%nat
  /\ Tracker.requiredMatches (5 - 0) = 2%nat
  /\ trackingEffect FiveMode catScript "mat" 0 = NoWrite.
Proof. repeat split; reflexivity. Qed.

(** A tracking run of either component writes only [i + 1] for a
    candidate [i] of the script at or after the cursor. *)
Lemma tracking_write_shape v words transcript activeIndex x :
  trackingEffect v words transcript activeIndex = SetActiveIndex x ->
  exists i, activeIndex <= i /\ 0 <= i < Script.length words /\ x = i + 1.
Proof.
  intros H. destruct v; simpl in H.
  - unfold Tracker.effect in H.
    destruct (String.eqb transcript ""); [discriminate|].
    unfold Tracker.onWords in H.
    destruct (Script.lastWordOf _) as [lastWord|]; [|discriminate].
    apply scan_writes in H. destruct H as (j & mc & Hj & Hv & Hw & _).
    exists j. pose proof (cleanWordAt_in_range _ _ _ Hw). lia.
  - unfold LegacyTracker.effect in H.
    destruct (String.eqb transcript ""); [discriminate|].
    unfold LegacyTracker.onWords in H.
    destruct (Script.lastWordOf _) as [lastWord|]; [|discriminate].
    apply legacy_scan_writes in H. destruct H as (j & Hj & Hv & Hw & _).
    exists j. pose proof (cleanWordAt_in_range _ _ _ Hw). lia.
Qed.

Lemma tracking_step_shape v words pdfFile activeIndex transcript :
  let a' := Cursor.step (trackingEffect v) words pdfFile activeIndex
                        (Cursor.TrackingRun transcript) in
  a' = activeIndex
  \/ exists i, activeIndex <= i /\ 0 <= i < Script.length words /\ a' = i + 1.
Proof.
  simpl. unfold Cursor.commit.
  destruct (trackingEffect v words transcript activeIndex) eqn:E; auto.
  right. eapply tracking_write_shape; eauto.
Qed.

(** C3. Along any sequence of tracking runs, with no navigation or
    restart between them, the cursor never decreases; and one run either
    leaves the cursor where it is or moves it to [i + 1] for a candidate
    [i] at or after the cursor. This holds in both Teleprompter
    components. *)
Theorem auto_tracking_is_monotonic
        (v : TeleprompterVariant) (words : list WordItem) (pdfFile : bool)
        (activeIndex : Z) (events : list Cursor.Event) :
  forallb Cursor.isTracking events = true ->
  activeIndex
  <= Cursor.run (trackingEffect v) words pdfFile activeIndex events
  /\ forall transcript,
      let a' := Cursor.step (trackingEffect v) words pdfFile activeIndex
                            (Cursor.TrackingRun transcript) in
      a' = activeIndex \/ exists i, activeIndex <= i /\ a' = i + 1.
Proof.
  intros Hall. split.
  - revert activeIndex.
    induction events as [|e es IH]; intros a; simpl.
    + lia.
    + simpl in Hall. apply andb_true_iff in Hall. destruct Hall as [He Hes].
      destruct e; try discriminate.
      change (a <= Cursor.run (trackingEffect v) words pdfFile
                     (Cursor.step (trackingEffect v) words pdfFile a
                                  (Cursor.TrackingRun transcript)) es).
      pose proof (tracking_step_shape v words pdfFile a transcript) as Hs.
      cbv zeta in Hs.
      set (a1 := Cursor.step (trackingEffect v) words pdfFile a
                             (Cursor.TrackingRun transcript)) in *.
      specialize (IH Hes a1).
      destruct Hs as [Hs|(i & Hi & _ & Hs)]; lia.
  - intros transcript.
    pose proof (tracking_step_shape v words pdfFile activeIndex transcript)
      as Hs.
    cbv zeta in Hs |- *.
    destruct Hs as [Hs|(i & Hi & _ & Hs)]; [left|right; exists i]; auto.
Qed.

Lemma auto_tracking_is_monotonic_witness :
  2 <= Cursor.run (trackingEffect FiveMode) catScript false 2
         [Cursor.TrackingRun "the cat sat"; Cursor.TrackingRun "sat on";
          Cursor.TrackingRun "cat"]
  /\ forall transcript,
      let a' := Cursor.step (trackingEffect FiveMode) catScript false 2
                            (Cursor.TrackingRun transcript) in
      a' = 2 \/ exists i, 2 <= i /\ a' = i + 1.
Proof.
  apply (auto_tracking_is_monotonic FiveMode catScript false 2).
  reflexivity.
Defined.

(** What does hold of the cursor over a non-empty script: it stays within
    [0 .. words.length], both ends included, under every event. *)
Lemma cursor_stays_within_closed_range v words pdfFile activeIndex e :
  0 < Script.length words ->
  0 <= activeIndex <= Script.length words ->
  0 <= Cursor.step (trackingEffect v) words pdfFile activeIndex e
    <= Script.length words.
Proof.
  intros Hne Ha. destruct e.
  - pose proof (tracking_step_shape v words pdfFile activeIndex transcript)
      as Hs.
    cbv zeta in Hs.
    destruct Hs as [Hs|(i & Hi & Hr & Hs)]; lia.
  - simpl. destruct ((0 <=? i) && (i <? Script.length words)) eqn:G; [|lia].
    apply andb_true_iff in G. destruct G as [G1 G2].
    apply Z.leb_le in G1. apply Z.ltb_lt in G2. lia.
  - simpl. destruct pdfFile; lia.
  - simpl. destruct pdfFile; lia.
  - simpl. lia.
Qed.

(** Navigation and restart alone keep the cursor below
    [words.length]. *)
Lemma navigation_keeps_half_open_range v words pdfFile activeIndex e :
  Cursor.isTracking e = false ->
  0 < Script.length words ->
  0 <= activeIndex < Script.length words ->
  0 <= Cursor.step (trackingEffect v) words pdfFile activeIndex e
    < Script.length words.
Proof.
  intros Hn Hne Ha. destruct e; try discriminate.
  - simpl. destruct ((0 <=? i) && (i <? Script.length words)) eqn:G; [|lia].
    apply andb_true_iff in G. destruct G as [G1 G2].
    apply Z.leb_le in G1. apply Z.ltb_lt in G2. lia.
  - simpl. destruct pdfFile; lia.
  - simpl. destruct pdfFile; lia.
  - simpl. lia.
Qed.

(** C2 at its failing input. Script "hello", cursor 0, transcript
    "hello": the tracking run matches the last script word and writes
    [0 + 1], the length of the script, in both components; the arrow key
    on the same cursor is clamped to [words.length - 1]. *)
Theorem tracking_moves_cursor_to_length :
  let words := Script.words "hello" in
  Script.length words = 1
  /\ Cursor.run (trackingEffect FiveMode) words false 0
                [Cursor.TrackingRun "hello"] = 1
  /\ Cursor.run (trackingEffect SingleMode) words false 0
                [Cursor.TrackingRun "hello"] = 1
  /\ Cursor.run (trackingEffect FiveMode) words false 0
                [Cursor.ArrowForward] = 0.
Proof. repeat split; reflexivity. Qed.

(** The skip-ahead scenario of the specification: "one two" moves the
    cursor from 0 to 2; "nine" alone, eight words ahead, does not move it;
    "eight nine" does. A transcript replaced by a shorter one is matched on
    its own tail. *)
Example skip_ahead_needs_two_words :
  trackingEffect FiveMode twelve "one two" 0 = SetActiveIndex 2
  /\ trackingEffect FiveMode twelve "one two three four five nine" 2
     = NoWrite
  /\ trackingEffect FiveMode twelve "one two three four five eight nine" 2
     = SetActiveIndex 9
  /\ trackingEffect FiveMode twelve "Three!" 2 = SetActiveIndex 3.
Proof. repeat split; reflexivity. Qed.

(** ** Strings *)

Section StringFacts.

Lemma substring_zero_length n s : substring n 0 s = "".
Proof.
  revert n. induction s as [|c r IH]; intros [|n]; simpl; auto.
Qed.

Lemma substring_firstn n s :
  substring 0 n s
  = string_of_list_ascii (firstn n (list_ascii_of_string s)).
Proof.
  revert n. induction s as [|c r IH]; intros [|n]; simpl; auto.
  now rewrite IH.
Qed.

Lemma substring_skipn n s :
  substring n (String.length s - n) s
  = string_of_list_ascii (skipn n (list_ascii_of_string s)).
Proof.
  revert n. induction s as [|c r IH]; intros [|n].
  - reflexivity.
  - reflexivity.
  - specialize (IH 0%nat). rewrite Nat.sub_0_r in IH.
    rewrite Nat.sub_0_r. simpl in IH |- *. now rewrite IH.
  - simpl. apply IH.
Qed.

Lemma prefix_app p s :
  prefix p s = true
  <-> exists rest,
      list_ascii_of_string s = (list_ascii_of_string p ++ rest)%list.
Proof.
  revert s. induction p as [|c p IH]; intros s; simpl.
  - split; [intros _; exists (list_ascii_of_string s); reflexivity|].
    intros _. destruct s; reflexivity.
  - destruct s as [|d s]; simpl.
    + split; [discriminate|]. intros [rest H]. discriminate.
    + destruct (ascii_dec c d) as [->|Hne].
      * rewrite IH. split; intros [rest H]; exists rest.
        -- now f_equal.
        -- now inversion H.
      * split; [discriminate|]. intros [rest H]. inversion H. congruence.
Qed.

Lemma prefix_of_own_start n s : prefix (substring 0 n s) s = true.
Proof.
  apply prefix_app. rewrite substring_firstn.
  rewrite list_ascii_of_string_of_list_ascii.
  exists (skipn n (list_ascii_of_string s)).
  symmetry. apply firstn_skipn.
Qed.

Lemma trimStart_head s c r :
  Js.trimStart s = String c r -> Js.isSpace c = false.
Proof.
  induction s as [|d s IH]; simpl; [discriminate|].
  destruct (Js.isSpace d) eqn:E; auto.
  intros H. inversion H; subst. exact E.
Qed.

Lemma trimEnd_cons c r :
  Js.isSpace c = false -> Js.trimEnd (String c r) = String c (Js.trimEnd r).
Proof.
  intros H. simpl. rewrite H. destruct (Js.trimEnd r); reflexivity.
Qed.

Lemma trimEnd_idempotent s : Js.trimEnd (Js.trimEnd s) = Js.trimEnd s.
Proof.
  induction s as [|c r IH]; simpl; auto.
  destruct (Js.trimEnd r) as [|d r'] eqn:E.
  - destruct (Js.isSpace c) eqn:Sp; simpl; [reflexivity|now rewrite Sp].
  - simpl in IH |- *. rewrite IH. reflexivity.
Qed.

Lemma trim_idempotent s : Js.trim (Js.trim s) = Js.trim s.
Proof.
  unfold Js.trim.
  destruct (Js.trimStart s) as [|c r] eqn:E; [reflexivity|].
  pose proof (trimStart_head _ _ _ E) as Sp.
  rewrite (trimEnd_cons _ _ Sp). simpl Js.trimStart. rewrite Sp.
  rewrite <- (trimEnd_cons _ _ Sp). apply trimEnd_idempotent.
Qed.

End StringFacts.

(** ** The transcript segmenter *)

Import TextTranslation.

Lemma isReset_meaning t w :
  isReset t w = true <-> SegmenterSpec.resetCase t w.
Proof.
  unfold isReset, SegmenterSpec.resetCase, SegmenterSpec.isShorter,
    SegmenterSpec.startsWithFirst, SegmenterSpec.chars, Js.len,
    Js.startsWith, Js.sliceTo.
  replace (Z.to_nat (Z.min 50 (Z.of_nat (String.length w))))
    with (Nat.min 50 (String.length w)) by lia.
  rewrite orb_true_iff, Z.ltb_lt, negb_true_iff.
  rewrite <- not_true_iff_false, prefix_app, substring_firstn,
    list_ascii_of_string_of_list_ascii.
  split; (intros [H|H]; [left; lia|right; exact H]).
Qed.

Lemma sliceFrom_suffix t w :
  Js.sliceFrom t (Js.len w) = SegmenterSpec.suffixBeyond (String.length w) t.
Proof.
  unfold Js.sliceFrom, Js.len, SegmenterSpec.suffixBeyond, SegmenterSpec.chars.
  rewrite Nat2Z.id. apply substring_skipn.
Qed.

(** C5, as amended. The new content of a feed is the trimmed whole
    transcript in the reset case (the transcript is shorter than the
    watermark, or does not start with the first min(50, |w|) characters of
    the watermark), and otherwise the trimmed suffix of the transcript
    beyond the first |w| characters. *)
Theorem new_content_by_watermark (t w : string) :
  (SegmenterSpec.resetCase t w -> newContent t w = Js.trim t)
  /\ (~ SegmenterSpec.resetCase t w ->
      newContent t w
      = Js.trim (SegmenterSpec.suffixBeyond (String.length w) t)).
Proof.
  unfold newContent. split; intros H.
  - apply isReset_meaning in H. now rewrite H.
  - destruct (isReset t w) eqn:E.
    + apply isReset_meaning in E. contradiction.
    + now rewrite sliceFrom_suffix.
Qed.

Lemma not_reset_hello :
  ~ SegmenterSpec.resetCase "hello world" "hello".
Proof.
  intros H. apply isReset_meaning in H. discriminate.
Defined.

Lemma new_content_by_watermark_witness :
  newContent "hello" "hello world" = Js.trim "hello"
  /\ newContent "hello world" "hello"
     = Js.trim (SegmenterSpec.suffixBeyond 5 "hello world").
Proof.
  split.
  - apply (proj1 (new_content_by_watermark "hello" "hello world")).
    left. unfold SegmenterSpec.isShorter. simpl. lia.
  - apply (proj2 (new_content_by_watermark "hello world" "hello")).
    exact not_reset_hello.
Defined.

(** C5 fails as stated: in the extension case the new content is not the
    suffix itself. After the watermark "hello", the transcript
    "hello world" has the suffix " world" and the new content "world". *)
Lemma extension_suffix_is_trimmed :
  ~ SegmenterSpec.resetCase "hello world" "hello"
  /\ SegmenterSpec.suffixBeyond 5 "hello world" = " world"
  /\ newContent "hello world" "hello" = "world"
  /\ newContent "hello world" "hello"
     <> SegmenterSpec.suffixBeyond (String.length "hello") "hello world".
Proof.
  split; [exact not_reset_hello|].
  repeat split; try reflexivity. discriminate.
Qed.

Lemma translateText_triggers now text s :
  triggers (snd (translateText now text s)) = [(text, lastProcessedRef s)]
  /\ lastProcessedRef (fst (translateText now text s)) = lastProcessedRef s.
Proof.
  unfold translateText.
  destruct (String.eqb (Js.trim text) ""); [split; reflexivity|].
  destruct (isTranslatingRef s); [|split; reflexivity].
  destruct (10000 <? now - lastActivityTimeRef s); split; reflexivity.
Qed.

Lemma newContent_of_empty w : newContent "" w = "".
Proof.
  unfold newContent, Js.sliceFrom.
  destruct (isReset "" w); [reflexivity|].
  destruct (Z.to_nat (Js.len w)); reflexivity.
Qed.

Lemma newContent_of_watermark t : newContent t t = "".
Proof.
  unfold newContent, isReset, Js.startsWith, Js.sliceTo, Js.sliceFrom.
  rewrite Z.ltb_irrefl, prefix_of_own_start. simpl.
  unfold Js.len. rewrite Nat2Z.id, Nat.sub_diag, substring_zero_length.
  reflexivity.
Qed.

Lemma sliceFrom_beyond_end s n :
  Js.len s <= n -> Js.sliceFrom s n = "".
Proof.
  unfold Js.len, Js.sliceFrom. intros H.
  replace (String.length s - Z.to_nat n)%nat with 0%nat by lia.
  apply substring_zero_length.
Qed.

Lemma triggers_app a b :
  triggers (a ++ b)%list = (triggers a ++ triggers b)%list.
Proof. unfold triggers. apply flat_map_app. Qed.

Lemma started_app a b :
  started (a ++ b)%list = (started a ++ started b)%list.
Proof. unfold started. apply flat_map_app. Qed.

Lemma translateText_started now text s :
  Js.trim text <> "" ->
  started (snd (translateText now text s))
  = (if admits now s then [text] else []).
Proof.
  intros N. apply String.eqb_neq in N. unfold translateText, admits.
  rewrite N. destruct (isTranslatingRef s); [|reflexivity].
  cbn [negb orb]. destruct (10000 <? now - lastActivityTimeRef s);
    reflexivity.
Qed.

Lemma translateText_state now text s :
  Js.trim text <> "" ->
  fst (translateText now text s)
  = (if admits now s then beginRequest now s else s).
Proof.
  intros N. apply String.eqb_neq in N. unfold translateText, admits.
  rewrite N. destruct (isTranslatingRef s); [|reflexivity].
  cbn [negb orb]. destruct (10000 <? now - lastActivityTimeRef s);
    reflexivity.
Qed.

Lemma ready_content_is_not_blank transcript w :
  hasCompleteSentence (newContent transcript w)
  || (5 <=? wordCount (newContent transcript w)) = true ->
  Js.trim (newContent transcript w) <> "".
Proof.
  intros R.
  assert (N : newContent transcript w <> "").
  { intros E. rewrite E in R. discriminate. }
  unfold newContent in *. destruct (isReset transcript w);
    now rewrite trim_idempotent.
Qed.

(** C4. A feed hands the new content to [translateText] exactly when the
    new content holds one of the marks . ! ? , ; : or splits into at
    least five words, and the watermark already is the fed transcript
    when the call is made; the request itself is started exactly when,
    besides, the in-flight test admits the call, and otherwise the
    content is dropped with the watermark advanced. The same holds of
    [feedTranscript] while the hook is active on an external transcript,
    where the test admits the call only when no request is flagged,
    since the feed has just recorded an activity. A run of the interval
    callback at least 2000 ms after the last started request, with at
    least two words beyond the watermark, hands these words to
    [translateText], the watermark already being the full transcript,
    and the request is started exactly when the in-flight test admits
    it; the callback hands over nothing in any other case. *)
Theorem segmentation_triggers
        (now : Z) (recognition : option Handle) (transcript : string)
        (s : State) :
  let content := newContent transcript (lastProcessedRef s) in
  let ready := hasCompleteSentence content || (5 <=? wordCount content) in
  let pending :=
    Js.trim (Js.sliceFrom (fullTranscriptRef s) (Js.len (lastProcessedRef s)))
  in
  triggers (snd (processTranscript now transcript s))
  = (if ready then [(content, transcript)] else [])
  /\ started (snd (processTranscript now transcript s))
     = (if ready && admits now s then [content] else [])
  /\ (ready = true ->
      lastProcessedRef (fst (processTranscript now transcript s))
      = transcript
      /\ fst (processTranscript now transcript s)
         = (if admits now s
            then beginRequest now
                   (setLastProcessed transcript (setSource transcript s))
            else setLastProcessed transcript (setSource transcript s)))
  /\ (isActiveRef s = true -> useExternalTranscriptRef s = true ->
      triggers (snd (feedTranscript now transcript s))
      = (if ready then [(content, transcript)] else [])
      /\ started (snd (feedTranscript now transcript s))
         = (if ready && negb (isTranslatingRef s) then [content] else [])
      /\ (ready = true ->
          lastProcessedRef (fst (feedTranscript now transcript s))
          = transcript))
  /\ (2000 <= now - lastProcessedTimeRef s -> 2 <= wordCount pending ->
      triggers (snd (intervalTick now recognition s))
      = [(pending, fullTranscriptRef s)]
      /\ started (snd (intervalTick now recognition s))
         = (if admits now s then [pending] else [])
      /\ lastProcessedRef (fst (intervalTick now recognition s))
         = fullTranscriptRef s
      /\ fst (intervalTick now recognition s)
         = (if admits now s
            then beginRequest now (setLastProcessed (fullTranscriptRef s) s)
            else setLastProcessed (fullTranscriptRef s) s))
  /\ (triggers (snd (intervalTick now recognition s)) <> [] ->
      2000 <= now - lastProcessedTimeRef s /\ 2 <= wordCount pending).
Proof.
  intros content ready pending.
  assert (P : forall s0, lastProcessedRef s0 = lastProcessedRef s ->
     triggers (snd (processTranscript now transcript s0))
     = (if ready then [(content, transcript)] else [])
     /\ started (snd (processTranscript now transcript s0))
        = (if ready && admits now s0 then [content] else [])
     /\ (ready = true ->
         lastProcessedRef (fst (processTranscript now transcript s0))
         = transcript
         /\ fst (processTranscript now transcript s0)
            = (if admits now s0
               then beginRequest now
                      (setLastProcessed transcript (setSource transcript s0))
               else setLastProcessed transcript (setSource transcript s0)))).
  { intros s0 Hw. unfold processTranscript.
    destruct (String.eqb transcript "") eqn:E0.
    { apply String.eqb_eq in E0. subst transcript.
      subst ready content. rewrite newContent_of_empty.
      repeat split; try reflexivity; discriminate. }
    change (lastProcessedRef (setSource transcript s0))
      with (lastProcessedRef s0). rewrite Hw.
    destruct (String.eqb transcript (lastProcessedRef s)) eqn:E1.
    { apply String.eqb_eq in E1. subst ready content.
      rewrite <- E1, newContent_of_watermark.
      repeat split; try reflexivity; discriminate. }
    fold content.
    destruct (String.eqb content "") eqn:E2.
    { apply String.eqb_eq in E2. subst ready. rewrite E2.
      repeat split; try reflexivity; discriminate. }
    fold ready. destruct ready eqn:R;
      [|repeat split; try reflexivity; discriminate].
    assert (N : Js.trim content <> "")
      by (subst content; now apply ready_content_is_not_blank).
    destruct (translateText_triggers now content
                (setLastProcessed transcript (setSource transcript s0)))
      as [T1 T2].
    rewrite T1, T2, (translateText_started _ _ _ N),
      (translateText_state _ _ _ N).
    repeat split. }
  destruct (P s eq_refl) as (P1 & P2 & P3).
  split; [exact P1|]. split; [exact P2|]. split; [exact P3|].
  split; [|split].
  - intros Ha He. unfold feedTranscript. rewrite Ha, He. cbn [negb orb].
    destruct (P (setLastActivityTime now s) eq_refl) as (F1 & F2 & F3).
    split; [exact F1|]. split; [|intros R; now apply F3].
    rewrite F2. unfold admits.
    change (isTranslatingRef (setLastActivityTime now s))
      with (isTranslatingRef s).
    change (lastActivityTimeRef (setLastActivityTime now s)) with now.
    rewrite Z.sub_diag. cbn [Z.ltb Z.compare]. now rewrite orb_false_r.
  - intros Ht Hwc. unfold intervalTick. fold pending.
    assert (Hne : pending <> "").
    { intros E. rewrite E in Hwc. compute in Hwc. congruence. }
    assert (Hlen : Js.len (lastProcessedRef s) < Js.len (fullTranscriptRef s)).
    { destruct (Z.lt_ge_cases (Js.len (lastProcessedRef s))
                              (Js.len (fullTranscriptRef s))) as [L|L]; auto.
      exfalso. apply Hne. subst pending.
      now rewrite sliceFrom_beyond_end. }
    assert (Hnb : Js.trim pending <> "").
    { subst pending. now rewrite trim_idempotent. }
    apply Z.leb_le in Ht. apply Z.ltb_lt in Hlen. rewrite Ht, Hlen. simpl.
    apply String.eqb_neq in Hne. rewrite Hne. simpl.
    apply Z.leb_le in Hwc. rewrite Hwc.
    destruct (translateText_triggers now pending
                (setLastProcessed (fullTranscriptRef s) s)) as [T1 T2].
    pose proof (translateText_started now pending
                  (setLastProcessed (fullTranscriptRef s) s) Hnb) as T3.
    pose proof (translateText_state now pending
                  (setLastProcessed (fullTranscriptRef s) s) Hnb) as T4.
    change (admits now (setLastProcessed (fullTranscriptRef s) s))
      with (admits now s) in T3, T4.
    destruct (translateText now pending
                (setLastProcessed (fullTranscriptRef s) s)) as [s1 acts].
    simpl in T1, T2, T3, T4.
    assert (Hq : (30000 <? now - lastActivityTimeRef s1) = false).
    { apply Z.ltb_ge. rewrite T4. unfold admits.
      destruct (isTranslatingRef s); cbn [negb orb].
      - destruct (10000 <? now - lastActivityTimeRef s) eqn:G.
        + cbn. lia.
        + apply Z.ltb_ge in G. cbn. lia.
      - cbn. lia. }
    rewrite Hq. cbn [andb snd fst]. rewrite T1, T3, T2.
    repeat split. exact T4.
  - intros N. unfold intervalTick in N. fold pending in N.
    destruct (2000 <=? now - lastProcessedTimeRef s) eqn:Ht;
      [apply Z.leb_le in Ht|].
    2:{ exfalso. apply N. cbn [andb].
        destruct ((30000 <? now - lastActivityTimeRef s) && isActiveRef s);
          reflexivity. }
    destruct (Js.len (lastProcessedRef s) <? Js.len (fullTranscriptRef s)).
    2:{ exfalso. apply N. cbn [andb].
        destruct ((30000 <? now - lastActivityTimeRef s) && isActiveRef s);
          reflexivity. }
    cbn [andb] in N.
    destruct (String.eqb pending ""); cbn [negb andb] in N.
    { exfalso. apply N.
      destruct ((30000 <? now - lastActivityTimeRef s) && isActiveRef s);
        reflexivity. }
    destruct (2 <=? wordCount pending) eqn:Hw; [apply Z.leb_le in Hw|].
    2:{ exfalso. apply N.
        destruct ((30000 <? now - lastActivityTimeRef s) && isActiveRef s);
          reflexivity. }
    split; assumption.
Qed.

Lemma segmentation_triggers_witness :
  lastProcessedRef (fst (processTranscript 1500
                           "Hello there, how are you today friend"
                           afterComma))
  = "Hello there, how are you today friend"
  /\ triggers (snd (feedTranscript 1500 "Hello there, how are" afterComma))
     = []
  /\ (triggers (snd (intervalTick 3000 None afterComma))
      = [("how are", "Hello there, how are")]
      /\ started (snd (intervalTick 3000 None afterComma)) = []
      /\ lastProcessedRef (fst (intervalTick 3000 None afterComma))
         = "Hello there, how are")
  /\ started (snd (intervalTick 12000 None afterComma)) = ["how are"].
Proof.
  destruct (segmentation_triggers 1500 None
              "Hello there, how are you today friend" afterComma)
    as (_ & _ & W & _).
  destruct (W eq_refl) as [W1 _].
  destruct (segmentation_triggers 1500 None "Hello there, how are" afterComma)
    as (_ & _ & _ & F & _).
  destruct (segmentation_triggers 3000 None "" afterComma)
    as (_ & _ & _ & _ & T & _).
  destruct (segmentation_triggers 12000 None "" afterComma)
    as (_ & _ & _ & _ & T' & _).
  assert (A : 2000 <= 3000 - lastProcessedTimeRef afterComma)
    by (vm_compute; discriminate).
  assert (A' : 2000 <= 12000 - lastProcessedTimeRef afterComma)
    by (vm_compute; discriminate).
  assert (B : 2 <= wordCount
                     (Js.trim (Js.sliceFrom (fullTranscriptRef afterComma)
                                 (Js.len (lastProcessedRef afterComma)))))
    by (vm_compute; discriminate).
  destruct (T A B) as (T1 & T2 & T3 & _).
  destruct (T' A' B) as (_ & T4 & _).
  split; [exact W1|].
  split; [apply (F eq_refl eq_refl)|].
  split; [split; [exact T1|split; [exact T2|exact T3]]|].
  exact T4.
Defined.

(** C4 where the claim fails. The comma of "Hello there," started a
    request at 1000; at 1500, with that request still in flight, the feed
    has brought five more words: the new content is ready and is handed
    to [translateText] with the watermark advanced, but no request is
    started. *)
Lemma ready_content_starts_no_request :
  let transcript := "Hello there, how are you today friend" in
  let content := newContent transcript (lastProcessedRef requestInFlight) in
  content = "how are you today friend"
  /\ hasCompleteSentence content || (5 <=? wordCount content) = true
  /\ isTranslatingRef requestInFlight = true
  /\ triggers (snd (feedTranscript 1500 transcript requestInFlight))
     = [(content, transcript)]
  /\ started (snd (feedTranscript 1500 transcript requestInFlight)) = []
  /\ lastProcessedRef (fst (feedTranscript 1500 transcript requestInFlight))
     = transcript.
Proof. repeat split; reflexivity. Qed.

(** The word-by-word scenario of the specification: fed one word at a
    time, the transcript triggers at the comma and again when five more
    words have come in. *)
Example word_by_word_feed :
  feedEach 100
    ["Hello"; "Hello there,"; "Hello there, how"; "Hello there, how are";
     "Hello there, how are you"; "Hello there, how are you today";
     "Hello there, how are you today friend"]
    (start 0 (Some "French") true None None initial)
  = [("Hello there,", "Hello there,");
     ("how are you today friend",
      "Hello there, how are you today friend")].
Proof. reflexivity. Qed.

(** Every text a feed or the interval callback hands to [translateText]
    is non-blank, so the in-flight test of [translateText] is reached. *)
Lemma triggered_text_is_not_blank now recognition transcript s text
      watermark :
  In (text, watermark) (triggers (snd (processTranscript now transcript s)))
  \/ In (text, watermark)
        (triggers (snd (intervalTick now recognition s))) ->
  Js.trim text <> "".
Proof.
  intros [H|H].
  - unfold processTranscript in H.
    destruct (String.eqb transcript ""); [contradiction|].
    destruct (String.eqb transcript _); [contradiction|].
    match type of H with
    | context [String.eqb ?c ""] => destruct (String.eqb c "") eqn:E
    end; [contradiction|].
    match type of H with
    | context [if ?b then _ else _] => destruct b
    end; [|contradiction].
    rewrite (proj1 (translateText_triggers _ _ _)) in H.
    destruct H as [H|[]]. inversion H; subst.
    apply String.eqb_neq in E. unfold newContent in *.
    destruct (isReset _ _); now rewrite trim_idempotent.
  - unfold intervalTick in H.
    match type of H with
    | context [let '(_, _) := ?c in _] => destruct c as [s1 acts] eqn:C
    end.
    assert (H' : In (text, watermark) (triggers acts)).
    { destruct ((30000 <? now - lastActivityTimeRef s1) && isActiveRef s1);
        simpl in H; auto.
      rewrite triggers_app in H. apply in_app_or in H.
      destruct H as [H|H]; auto. destruct H. }
    clear H.
    destruct ((2000 <=? now - lastProcessedTimeRef s)
              && (Js.len (lastProcessedRef s) <? Js.len (fullTranscriptRef s)));
      [|inversion C; subst; destruct H'].
    match type of C with
    | context [String.eqb ?c ""] => destruct (String.eqb c "") eqn:E
    end; simpl in C; [inversion C; subst; destruct H'|].
    destruct (2 <=? wordCount _); [|inversion C; subst; destruct H'].
    pose proof (translateText_triggers now
      (Js.trim (Js.sliceFrom (fullTranscriptRef s)
                             (Js.len (lastProcessedRef s))))
      (setLastProcessed (fullTranscriptRef s) s)) as [T _].
    rewrite C in T. simpl in T. rewrite T in H'.
    destruct H' as [H'|[]]. inversion H'; subst.
    apply String.eqb_neq in E. now rewrite trim_idempotent.
Qed.

(** The branches of [translateText] on the in-flight flag. While the flag
    is set and the last recorded activity is at most 10000 ms old, a call
    of [translateText] starts nothing and changes nothing: the text is
    not kept anywhere. While the flag is set and the last activity is more
    than 10000 ms old, a call with non-blank text clears the flag and
    starts its request, setting the flag and both time stamps. A request
    only ever starts from a flag that is clear or stale. *)
Theorem single_request_gate (now : Z) (text : string) (s : State) :
  isTranslatingRef s = true ->
  (now - lastActivityTimeRef s <= 10000 ->
   fst (translateText now text s) = s
   /\ started (snd (translateText now text s)) = [])
  /\ (10000 < now - lastActivityTimeRef s -> Js.trim text <> "" ->
      snd (translateText now text s)
      = [TranslateTextCalled text (lastProcessedRef s); ForcedReset;
         RequestStarted text (targetLanguageRef s)]
      /\ fst (translateText now text s) = beginRequest now s
      /\ isTranslatingRef (fst (translateText now text s)) = true
      /\ lastActivityTimeRef (fst (translateText now text s)) = now)
  /\ (forall s0 : State,
      started (snd (translateText now text s0)) <> [] ->
      isTranslatingRef s0 = false \/ 10000 < now - lastActivityTimeRef s0).
Proof.
  intros Hflag. unfold translateText. repeat split.
  - destruct (String.eqb (Js.trim text) ""); [reflexivity|].
    rewrite Hflag.
    destruct (10000 <? now - lastActivityTimeRef s) eqn:E;
      [apply Z.ltb_lt in E; lia|reflexivity].
  - destruct (String.eqb (Js.trim text) ""); [reflexivity|].
    rewrite Hflag.
    destruct (10000 <? now - lastActivityTimeRef s) eqn:E;
      [apply Z.ltb_lt in E; lia|reflexivity].
  - apply String.eqb_neq in H0. rewrite H0, Hflag.
    apply Z.ltb_lt in H. now rewrite H.
  - apply String.eqb_neq in H0. rewrite H0, Hflag.
    apply Z.ltb_lt in H. now rewrite H.
  - apply String.eqb_neq in H0. rewrite H0, Hflag.
    apply Z.ltb_lt in H. now rewrite H.
  - apply String.eqb_neq in H0. rewrite H0, Hflag.
    apply Z.ltb_lt in H. now rewrite H.
  - intros s0 Hs.
    destruct (String.eqb (Js.trim text) ""); [now elim Hs|].
    destruct (isTranslatingRef s0); [|now left].
    destruct (10000 <? now - lastActivityTimeRef s0) eqn:E;
      [apply Z.ltb_lt in E; now right|now elim Hs].
Qed.

Lemma single_request_gate_witness :
  (fst (translateText 11000 "how are you today friend" requestInFlight)
   = requestInFlight
   /\ started (snd (translateText 11000 "how are you today friend"
                                  requestInFlight)) = [])
  /\ started (snd (translateText 11001 "how are you today friend"
                                 requestInFlight))
     = ["how are you today friend"].
Proof.
  destruct (single_request_gate 11000 "how are you today friend"
              requestInFlight eq_refl) as (Skip & _ & _).
  destruct (single_request_gate 11001 "how are you today friend"
              requestInFlight eq_refl) as (_ & Go & _).
  split.
  - apply Skip. vm_compute. discriminate.
  - destruct Go as (Acts & _).
    + reflexivity.
    + vm_compute. discriminate.
    + rewrite Acts. reflexivity.
Defined.

(** A fed transcript never clears a stale flag: [feedTranscript] records
    an activity before the test of [translateText] reads the stamp, so
    while the flag is set a feed starts no request, however old the
    last activity was. *)
Lemma feed_never_force_clears now transcript s :
  isTranslatingRef s = true ->
  started (snd (feedTranscript now transcript s)) = []
  /\ isTranslatingRef (fst (feedTranscript now transcript s)) = true.
Proof.
  intros F. unfold feedTranscript.
  destruct (negb (isActiveRef s) || negb (useExternalTranscriptRef s));
    [split; [reflexivity|exact F]|].
  unfold processTranscript.
  destruct (String.eqb transcript ""); [split; [reflexivity|exact F]|].
  destruct (String.eqb transcript _); [split; [reflexivity|exact F]|].
  destruct (String.eqb _ ""); [split; [reflexivity|exact F]|].
  destruct (_ || _); [|split; [reflexivity|exact F]].
  unfold translateText.
  destruct (String.eqb (Js.trim _) ""); [split; [reflexivity|exact F]|].
  cbn [isTranslatingRef setLastProcessed setSource setLastActivityTime
       lastActivityTimeRef].
  rewrite F, Z.sub_diag. split; [reflexivity|exact F].
Qed.

Section RequestsUnderWay.

Import Requests.

(** C6 at its failing inputs. First run: the comma of "Hello there,"
    starts a request at 100; the hook is stopped and started again (as a
    change of the target language does) and at 400 the comma of
    "Good morning," starts a second request while the first is under
    way; when the first settles at 500 its text is shown in the new
    session and its [finally] clears the flag that the second had set,
    and the feed at 600 starts a third request while the second, 200 ms
    old, is under way. Second run, with the
    interval callback every 500 ms: the first request hangs, and while
    feeds keep arriving it is never cleared: the ready content of the
    feeds at 14100 and 25100 is dropped with the watermark advanced,
    nothing is translated, and the flag is still set at 29500. *)
Theorem second_request_starts_while_first_runs :
  let w1 := run initialWorld [Start 0 "French"; Feed 100 "Hello there,"] in
  let w2 := run w1 [Stop; Start 200 "German"; Feed 400 "Good morning,"] in
  let w3 := run w2 [Chunk 450 0 "Bonjour,"; Completed 500 0 "Bonjour,"] in
  let w4 := run w3 [Feed 600 "Good morning, everyone."; Tick 700] in
  let u := run w1 (every500 27 500
                   ++ [Feed 14100 "Hello there, how are you."]
                   ++ every500 22 14500
                   ++ [Feed 25100 "Hello there, how are you. Fine."]
                   ++ every500 9 25500)%list in
  (inFlight w1 = ["Hello there,"]
   /\ isTranslatingRef (hook w1) = true
   /\ inFlight w2 = ["Hello there,"; "Good morning,"]
   /\ inFlight w3 = ["Good morning,"]
   /\ isTranslatingRef (hook w3) = false
   /\ targetLanguageRef (hook w3) = "German"
   /\ translatedText (hook w3) = "Bonjour, "
   /\ inFlight w4 = ["Good morning,"; "everyone."])
  /\ (inFlight u = ["Hello there,"]
      /\ isTranslatingRef (hook u) = true
      /\ lastProcessedRef (hook u) = "Hello there, how are you. Fine."
      /\ translatedText (hook u) = "").
Proof. repeat split; reflexivity. Qed.

End RequestsUnderWay.

(** ** The playback queue *)

Local Open Scope Q_scope.

Lemma max_cases (a b : Q) :
  (a <= b /\ Playback.max a b = b) \/ (b < a /\ Playback.max a b = a).
Proof.
  unfold Playback.max. destruct (Qle_bool a b) eqn:E.
  - left. split; [now apply Qle_bool_iff|reflexivity].
  - right. split; [|reflexivity]. apply Qnot_le_lt. intros H.
    apply Qle_bool_iff in H. congruence.
Qed.

(** Two chunks in a row, from any state of the queue: the second starts
    no earlier than the first ends, and exactly when the first ends if it
    arrived by then. *)
Lemma consecutive_chunks fresh (r : Playback.Refs) (a b : Playback.Chunk) :
  let '(r1, startA) :=
    Playback.playAudioChunk fresh (Playback.arrival a) (Playback.duration a) r
  in
  let '(r2, startB) :=
    Playback.playAudioChunk fresh (Playback.arrival b) (Playback.duration b) r1
  in
  startA + Playback.duration a <= startB
  /\ (Playback.arrival b <= startA + Playback.duration a ->
      startB == startA + Playback.duration a)
  /\ Playback.nextPlayTimeRef r2 == startB + Playback.duration b.
Proof.
  unfold Playback.playAudioChunk. simpl.
  set (sa := Playback.max (Playback.arrival a) (Playback.nextPlayTimeRef r)).
  destruct (max_cases (Playback.arrival b) (sa + Playback.duration a))
    as [[H E]|[H E]]; rewrite E; repeat split; try lra.
Qed.

Lemma pipeline_chunk_advances_the_queue fresh currentTime duration
      (s : LocalPipeline.State) :
  LocalPipeline.playback
    (fst (LocalPipeline.playAudioChunk fresh currentTime duration s))
  = fst (Playback.playAudioChunk fresh currentTime duration
           (LocalPipeline.playback s))
  /\ snd (LocalPipeline.playAudioChunk fresh currentTime duration s)
     = snd (Playback.playAudioChunk fresh currentTime duration
              (LocalPipeline.playback s)).
Proof. split; reflexivity. Qed.

Lemma persona_chunk_advances_the_queue fresh currentTime duration
      (s : PersonaPlex.State) :
  PersonaPlex.playback
    (fst (PersonaPlex.playAudioChunk fresh currentTime duration s))
  = fst (Playback.playAudioChunk fresh currentTime duration
           (PersonaPlex.playback s))
  /\ snd (PersonaPlex.playAudioChunk fresh currentTime duration s)
     = snd (Playback.playAudioChunk fresh currentTime duration
              (PersonaPlex.playback s)).
Proof. split; reflexivity. Qed.

Lemma live_chunk_advances_the_queue fresh currentTime duration
      (s : GeminiLive.State) :
  GeminiLive.playback
    (fst (GeminiLive.playAudioChunk fresh currentTime duration s))
  = fst (Playback.playAudioChunk fresh currentTime duration
           (GeminiLive.playback s))
  /\ snd (GeminiLive.playAudioChunk fresh currentTime duration s)
     = snd (Playback.playAudioChunk fresh currentTime duration
              (GeminiLive.playback s)).
Proof. split; reflexivity. Qed.

Lemma pipelineRun_is_the_queue fresh cs : forall s,
  HookPlayback.pipelineRun fresh s cs
  = Playback.run fresh (LocalPipeline.playback s) cs.
Proof.
  induction cs as [|c cs IH]; intros s; [reflexivity|].
  cbn [HookPlayback.pipelineRun Playback.run].
  destruct (pipeline_chunk_advances_the_queue fresh (Playback.arrival c)
              (Playback.duration c) s) as [E1 E2].
  destruct (LocalPipeline.playAudioChunk fresh (Playback.arrival c)
              (Playback.duration c) s) as [s' st].
  destruct (Playback.playAudioChunk fresh (Playback.arrival c)
              (Playback.duration c) (LocalPipeline.playback s)) as [r' st'].
  cbn [fst snd] in E1, E2. subst. now rewrite IH.
Qed.

Lemma personaRun_is_the_queue fresh cs : forall s,
  HookPlayback.personaRun fresh s cs
  = Playback.run fresh (PersonaPlex.playback s) cs.
Proof.
  induction cs as [|c cs IH]; intros s; [reflexivity|].
  cbn [HookPlayback.personaRun Playback.run].
  destruct (persona_chunk_advances_the_queue fresh (Playback.arrival c)
              (Playback.duration c) s) as [E1 E2].
  destruct (PersonaPlex.playAudioChunk fresh (Playback.arrival c)
              (Playback.duration c) s) as [s' st].
  destruct (Playback.playAudioChunk fresh (Playback.arrival c)
              (Playback.duration c) (PersonaPlex.playback s)) as [r' st'].
  cbn [fst snd] in E1, E2. subst. now rewrite IH.
Qed.

Lemma liveRun_is_the_queue fresh cs : forall s,
  HookPlayback.liveRun fresh s cs
  = Playback.run fresh (GeminiLive.playback s) cs.
Proof.
  induction cs as [|c cs IH]; intros s; [reflexivity|].
  cbn [HookPlayback.liveRun Playback.run].
  destruct (live_chunk_advances_the_queue fresh (Playback.arrival c)
              (Playback.duration c) s) as [E1 E2].
  destruct (GeminiLive.playAudioChunk fresh (Playback.arrival c)
              (Playback.duration c) s) as [s' st].
  destruct (Playback.playAudioChunk fresh (Playback.arrival c)
              (Playback.duration c) (GeminiLive.playback s)) as [r' st'].
  cbn [fst snd] in E1, E2. subst. now rewrite IH.
Qed.

Lemma three_chunks_back_to_back fresh (r : Playback.Refs) (t0 c2 c3 : Q) :
  Playback.nextPlayTimeRef r = 0 ->
  0 <= t0 -> c2 <= t0 + 1 -> c3 <= t0 + (3 # 2) ->
  HookPlayback.backToBack t0
    (Playback.run fresh r
       [Playback.mkChunk t0 1; Playback.mkChunk c2 (1 # 2);
        Playback.mkChunk c3 (1 # 5)]).
Proof.
  intros Z0 H0 H2 H3.
  unfold HookPlayback.backToBack, Playback.run, Playback.playAudioChunk.
  simpl. rewrite Z0.
  destruct (max_cases t0 0) as [[A1 E1]|[A1 E1]]; rewrite E1;
    (destruct (max_cases c2 (0 + 1)) as [[A2 E2]|[A2 E2]];
     destruct (max_cases c2 (t0 + 1)) as [[A2' E2']|[A2' E2']];
     rewrite ?E2, ?E2';
     try (exfalso; lra));
    (destruct (max_cases c3 (0 + 1 + (1 # 2))) as [[A3 E3]|[A3 E3]];
     destruct (max_cases c3 (t0 + 1 + (1 # 2))) as [[A3' E3']|[A3' E3']];
     rewrite ?E3, ?E3';
     try (exfalso; lra));
    repeat split; lra.
Qed.

(** C7. The queue of every streaming hook starts with [nextPlayTime] 0.
    In useLocalPipeline, usePersonaPlex and useGeminiLive a call of
    [playAudioChunk] starts the chunk at the larger of the current time
    and the hook's [nextPlayTime], and leaves the hook's [nextPlayTime]
    at that start plus the chunk's duration; so the start times a hook
    gives to a sequence of chunks are those of the queue alone. Of two
    chunks in a row the second starts no earlier than the first ends,
    and exactly then if it arrived by then. In each hook, from a queue
    whose [nextPlayTime] is 0, three chunks of 1.0 s, 0.5 s and 0.2 s
    that arrive at [t0], [c2] and [c3], none later than the end of the
    chunk before it, start at [t0], [t0 + 1.0] and [t0 + 1.5]. Times
    are exact rationals. *)
Theorem playback_is_sequential
        (fresh : Handle) (r : Playback.Refs) (currentTime duration : Q)
        (a b : Playback.Chunk) (t0 c2 c3 : Q) :
  Playback.nextPlayTimeRef Playback.initial = 0
  /\ (Playback.nextPlayTimeRef (LocalPipeline.playback LocalPipeline.initial)
      = 0
      /\ Playback.nextPlayTimeRef (PersonaPlex.playback PersonaPlex.initial)
         = 0
      /\ Playback.nextPlayTimeRef (GeminiLive.playback GeminiLive.initial)
         = 0)
  /\ (let startTime := Playback.max currentTime (Playback.nextPlayTimeRef r) in
      snd (Playback.playAudioChunk fresh currentTime duration r) = startTime
      /\ Playback.nextPlayTimeRef
           (fst (Playback.playAudioChunk fresh currentTime duration r))
         = startTime + duration
      /\ (forall s, snd (LocalPipeline.playAudioChunk fresh currentTime
                           duration s)
                    = Playback.max currentTime
                        (Playback.nextPlayTimeRef (LocalPipeline.playback s)))
      /\ (forall s, snd (PersonaPlex.playAudioChunk fresh currentTime
                           duration s)
                    = Playback.max currentTime
                        (Playback.nextPlayTimeRef (PersonaPlex.playback s)))
      /\ (forall s, snd (GeminiLive.playAudioChunk fresh currentTime
                           duration s)
                    = Playback.max currentTime
                        (Playback.nextPlayTimeRef (GeminiLive.playback s))))
  /\ ((forall s,
         Playback.nextPlayTimeRef
           (LocalPipeline.playback
              (fst (LocalPipeline.playAudioChunk fresh currentTime duration
                      s)))
         = Playback.max currentTime
             (Playback.nextPlayTimeRef (LocalPipeline.playback s))
           + duration)
      /\ (forall s,
            Playback.nextPlayTimeRef
              (PersonaPlex.playback
                 (fst (PersonaPlex.playAudioChunk fresh currentTime duration
                         s)))
            = Playback.max currentTime
                (Playback.nextPlayTimeRef (PersonaPlex.playback s))
              + duration)
      /\ (forall s,
            Playback.nextPlayTimeRef
              (GeminiLive.playback
                 (fst (GeminiLive.playAudioChunk fresh currentTime duration
                         s)))
            = Playback.max currentTime
                (Playback.nextPlayTimeRef (GeminiLive.playback s))
              + duration))
  /\ ((forall s cs, HookPlayback.pipelineRun fresh s cs
                    = Playback.run fresh (LocalPipeline.playback s) cs)
      /\ (forall s cs, HookPlayback.personaRun fresh s cs
                       = Playback.run fresh (PersonaPlex.playback s) cs)
      /\ (forall s cs, HookPlayback.liveRun fresh s cs
                       = Playback.run fresh (GeminiLive.playback s) cs))
  /\ (match Playback.run fresh r [a; b] with
      | [startA; startB] =>
          startA + Playback.duration a <= startB
          /\ (Playback.arrival b <= startA + Playback.duration a ->
              startB == startA + Playback.duration a)
      | _ => False
      end)
  /\ (0 <= t0 -> c2 <= t0 + 1 -> c3 <= t0 + (3 # 2) ->
      match Playback.run fresh Playback.initial
              [Playback.mkChunk t0 1; Playback.mkChunk c2 (1 # 2);
               Playback.mkChunk c3 (1 # 5)] with
      | [s1; s2; s3] =>
          s1 == t0 /\ s2 == t0 + 1 /\ s3 == t0 + (3 # 2)
          /\ s1 < s2 /\ s2 < s3
      | _ => False
      end)
  /\ (0 <= t0 -> c2 <= t0 + 1 -> c3 <= t0 + (3 # 2) ->
      (forall s,
         Playback.nextPlayTimeRef (LocalPipeline.playback s) = 0 ->
         HookPlayback.backToBack t0
           (HookPlayback.pipelineRun fresh s
              [Playback.mkChunk t0 1; Playback.mkChunk c2 (1 # 2);
               Playback.mkChunk c3 (1 # 5)]))
      /\ (forall s,
            Playback.nextPlayTimeRef (PersonaPlex.playback s) = 0 ->
            HookPlayback.backToBack t0
              (HookPlayback.personaRun fresh s
                 [Playback.mkChunk t0 1; Playback.mkChunk c2 (1 # 2);
                  Playback.mkChunk c3 (1 # 5)]))
      /\ (forall s,
            Playback.nextPlayTimeRef (GeminiLive.playback s) = 0 ->
            HookPlayback.backToBack t0
              (HookPlayback.liveRun fresh s
                 [Playback.mkChunk t0 1; Playback.mkChunk c2 (1 # 2);
                  Playback.mkChunk c3 (1 # 5)]))).
Proof.
  split; [reflexivity|]. split; [repeat split; reflexivity|].
  split; [repeat split; reflexivity|].
  split; [repeat split; reflexivity|].
  split.
  { split; [|split]; intros s cs.
    - apply pipelineRun_is_the_queue.
    - apply personaRun_is_the_queue.
    - apply liveRun_is_the_queue. }
  split.
  { pose proof (consecutive_chunks fresh r a b) as H.
    unfold Playback.run.
    destruct (Playback.playAudioChunk fresh (Playback.arrival a)
                (Playback.duration a) r) as [r1 sa].
    destruct (Playback.playAudioChunk fresh (Playback.arrival b)
                (Playback.duration b) r1) as [r2 sb].
    destruct H as (H1 & H2 & _). split; assumption. }
  split.
  { intros H0 H2 H3.
    exact (three_chunks_back_to_back fresh Playback.initial t0 c2 c3
             eq_refl H0 H2 H3). }
  intros H0 H2 H3. split; [|split]; intros s Z0.
  - rewrite pipelineRun_is_the_queue.
    now apply three_chunks_back_to_back.
  - rewrite personaRun_is_the_queue.
    now apply three_chunks_back_to_back.
  - rewrite liveRun_is_the_queue.
    now apply three_chunks_back_to_back.
Qed.

Lemma playback_is_sequential_witness :
  HookPlayback.backToBack 2
    (HookPlayback.pipelineRun 0%nat LocalPipeline.initial
       [Playback.mkChunk 2 1; Playback.mkChunk (5 # 2) (1 # 2);
        Playback.mkChunk (5 # 2) (1 # 5)])
  /\ HookPlayback.backToBack 2
       (HookPlayback.personaRun 0%nat PersonaPlex.initial
          [Playback.mkChunk 2 1; Playback.mkChunk (5 # 2) (1 # 2);
           Playback.mkChunk (5 # 2) (1 # 5)])
  /\ match Playback.run 0%nat Playback.initial
            [Playback.mkChunk 2 1; Playback.mkChunk (5 # 2) (1 # 2);
             Playback.mkChunk (5 # 2) (1 # 5)] with
     | [s1; s2; s3] =>
         s1 == 2 /\ s2 == 2 + 1 /\ s3 == 2 + (3 # 2) /\ s1 < s2 /\ s2 < s3
     | _ => False
     end.
Proof.
  destruct (playback_is_sequential 0%nat Playback.initial 0 0
              (Playback.mkChunk 0 0) (Playback.mkChunk 0 0) 2 (5 # 2) (5 # 2))
    as (_ & _ & _ & _ & _ & _ & Queue & H).
  assert (A : 0 <= 2) by (vm_compute; discriminate).
  assert (B : 5 # 2 <= 2 + 1) by (vm_compute; discriminate).
  assert (C : 5 # 2 <= 2 + (3 # 2)) by (vm_compute; discriminate).
  destruct (H A B C) as (H1 & H2 & _).
  split; [apply H1; reflexivity|].
  split; [apply H2; reflexivity|].
  exact (Queue A B C).
Defined.

Local Close Scope Q_scope.

(** The example of C7 as binary64 arithmetic computes it, from the
    inexact start 0.1: the three start times are the doubles nearest to
    0.1, 1.1 and 1.6. *)
Example playback_example_in_binary64 :
  map (fun p => PrimFloat.eqb (fst p) (snd p))
      (combine
         (PlaybackBinary64.run 0%float
            [(0x1.999999999999ap-4, 1); (0x1.999999999999ap-4, 0.5);
             (0x1.999999999999ap-4, 0x1.999999999999ap-3)]%float)
         [0x1.999999999999ap-4; 0x1.199999999999ap+0;
          0x1.999999999999ap+0]%float)
  = [true; true; true].
Proof. vm_compute. reflexivity. Qed.

(** ** pcmToBase64 *)

Section PcmFacts.
Import Pcm.
Local Open Scope Q_scope.

Lemma qmin_cases a b : (a <= b /\ qmin a b = a) \/ (b < a /\ qmin a b = b).
Proof.
  unfold qmin. destruct (Qle_bool a b) eqn:E.
  - left. split; [now apply Qle_bool_iff|reflexivity].
  - right. split; [|reflexivity]. apply Qnot_le_lt. intros H.
    apply Qle_bool_iff in H. congruence.
Qed.

Lemma qmax_cases a b : (a <= b /\ qmax a b = b) \/ (b < a /\ qmax a b = a).
Proof.
  unfold qmax. destruct (Qle_bool a b) eqn:E.
  - left. split; [now apply Qle_bool_iff|reflexivity].
  - right. split; [|reflexivity]. apply Qnot_le_lt. intros H.
    apply Qle_bool_iff in H. congruence.
Qed.

(** The clamp yields a number in [-1, 1], except that NaN stays NaN. *)
Lemma clamp_range (x : Num) :
  match clamp x with
  | Fin c => -1 <= c <= 1
  | NaN => x = NaN
  | PosInf | NegInf => False
  end.
Proof.
  destruct x as [q| | |]; unfold clamp; simpl.
  - destruct (qmin_cases 1 q) as [[A E]|[A E]]; rewrite E;
      destruct (qmax_cases (-1) 1) as [[B F]|[B F]];
      destruct (qmax_cases (-1) q) as [[C G]|[C G]];
      rewrite ?F, ?G; lra.
  - reflexivity.
  - destruct (qmax_cases (-1) 1) as [[B F]|[B F]]; rewrite F; lra.
  - lra.
Qed.

(** The number stored is within the 16-bit range before conversion. *)
Lemma scaled_range (x : Num) :
  match scaled x with
  | Fin v => -32768 <= v <= 32767
  | NaN => x = NaN
  | PosInf | NegInf => False
  end.
Proof.
  unfold scaled. pose proof (clamp_range x) as H.
  destruct (clamp x) as [c| | |]; simpl; auto; try contradiction.
  destruct (Qle_bool 0 c) eqn:E; simpl.
  - apply Qle_bool_iff in E.
    change (inject_Z 32767) with 32767. nra.
  - assert (c < 0).
    { apply Qnot_le_lt. intros L. apply Qle_bool_iff in L. congruence. }
    change (inject_Z 32768) with 32768. nra.
Qed.

Local Close Scope Q_scope.
Local Open Scope Z_scope.

Lemma truncate_range (q : Q) :
  (-32768 <= q <= 32767)%Q -> -32768 <= truncate q <= 32767.
Proof.
  intros [L U]. unfold truncate.
  pose proof (Qfloor_resp_le (inject_Z (-32768)) q L) as F1.
  pose proof (Qfloor_resp_le q (inject_Z 32767) U) as F2.
  pose proof (Qceiling_resp_le (inject_Z (-32768)) q L) as C1.
  pose proof (Qceiling_resp_le q (inject_Z 32767) U) as C2.
  rewrite Qfloor_Z in F1, F2. rewrite Qceiling_Z in C1, C2.
  destruct (Qle_bool 0 q); lia.
Qed.

Lemma wrap16_in_range (z : Z) : -32768 <= z <= 32767 -> wrap16 z = z.
Proof.
  intros H. unfold wrap16.
  destruct (Z_lt_le_dec z 0) as [N|P].
  - replace (z mod 65536) with (z + 65536)
      by (apply Z.mod_unique with (q := -1); lia).
    destruct (32768 <=? z + 65536) eqn:E; [lia|apply Z.leb_gt in E; lia].
  - rewrite Z.mod_small by lia.
    destruct (32768 <=? z) eqn:E; [apply Z.leb_le in E; lia|reflexivity].
Qed.

Lemma sampleToInt16_exact (x : Num) :
  sampleToInt16 x
  = match scaled x with
    | Fin v => truncate v
    | NaN | PosInf | NegInf => 0
    end
  /\ -32768 <= sampleToInt16 x <= 32767.
Proof.
  unfold sampleToInt16, toInt16. pose proof (scaled_range x) as H.
  destruct (scaled x) as [v| | |]; try (split; [reflexivity|lia]).
  apply truncate_range in H. rewrite wrap16_in_range by exact H. auto.
Qed.

Lemma bytesOfInt16_bytes (v : Z) :
  forallb (fun u => (0 <=? u) && (u <=? 255)) (bytesOfInt16 v) = true.
Proof.
  unfold bytesOfInt16. simpl.
  pose proof (Z.mod_pos_bound v 65536 eq_refl) as H.
  pose proof (Z.mod_pos_bound (v mod 65536) 256 eq_refl) as H1.
  assert (0 <= v mod 65536 / 256 <= 255).
  { split; [apply Z.div_pos; lia|].
    apply Z.lt_succ_r. apply Z.div_lt_upper_bound; lia. }
  repeat (apply andb_true_iff; split); try reflexivity;
    try (apply Z.leb_le; lia).
Qed.

Lemma bytes_are_bytes (l : list Z) :
  forallb (fun u => (0 <=? u) && (u <=? 255)) (bytes l) = true.
Proof.
  induction l as [|v l IH]; [reflexivity|].
  change (bytes (v :: l)) with (bytesOfInt16 v ++ bytes l)%list.
  now rewrite forallb_app, IH, bytesOfInt16_bytes.
Qed.


End PcmFacts.


(** ** Teardown of the pipeline hooks *)

Lemma nullIfSet_None {A : Type} (r : option A) : nullIfSet r = None.
Proof. destruct r; reflexivity. Qed.

(** The one call of a teardown that can throw is caught, and then the
    socket is not closed: a socket that is still connecting stays so. *)
Lemma send_to_connecting_socket_skips_close st h x :
  WebSocket.get st h = Some x ->
  WebSocket.readyState x = CONNECTING ->
  WebSocket.send st h = Throw "InvalidStateError"
  /\ WebSocket.sendStopAndClose st h = st.
Proof.
  intros G R. unfold WebSocket.sendStopAndClose, WebSocket.send.
  rewrite G, R. split; reflexivity.
Qed.

(** C9. For the pipeline hooks among the sources (useLocalPipeline,
    usePersonaPlex, both versions of useGeminiLive, useTextTranslation):
    the teardown is a
    total function of the state, the one throwing call in it being
    caught; after it, whatever the state before, the socket or session
    ref, the media stream ref and both audio context refs are null,
    nextPlayTime is 0 and the connected, connecting, active and speaking
    flags are false; a second teardown changes nothing, neither in the
    hook nor among the sockets; and a teardown of the hook as first
    rendered changes nothing. *)
Theorem teardown_is_idempotent_and_releases (st : WebSocket.Store) :
  (forall s : LocalPipeline.State,
     let r := LocalPipeline.stop st s in
     LocalPipeline.wsRef (snd r) = None
     /\ LocalPipeline.mediaStreamRef (snd r) = None
     /\ LocalPipeline.audioContextRef (snd r) = None
     /\ LocalPipeline.recognitionRef (snd r) = None
     /\ LocalPipeline.playback (snd r) = Playback.mkRefs None 0
     /\ LocalPipeline.isActive (snd r) = false
     /\ LocalPipeline.isActiveRef (snd r) = false
     /\ LocalPipeline.isSpeaking (snd r) = false
     /\ LocalPipeline.stop (fst r) (snd r) = r)
  /\ LocalPipeline.stop st LocalPipeline.initial = (st, LocalPipeline.initial)
  /\ (forall s : PersonaPlex.State,
        let r := PersonaPlex.disconnect st s in
        PersonaPlex.wsRef (snd r) = None
        /\ PersonaPlex.mediaStreamRef (snd r) = None
        /\ PersonaPlex.audioContextRef (snd r) = None
        /\ PersonaPlex.playback (snd r) = Playback.mkRefs None 0
        /\ PersonaPlex.isConnected (snd r) = false
        /\ PersonaPlex.isConnecting (snd r) = false
        /\ PersonaPlex.disconnect (fst r) (snd r) = r)
  /\ PersonaPlex.disconnect st PersonaPlex.initial = (st, PersonaPlex.initial)
  /\ (forall s : GeminiLive.State,
        let r := GeminiLive.disconnect st s in
        GeminiLive.sessionRef (snd r) = None
        /\ GeminiLive.mediaStreamRef (snd r) = None
        /\ GeminiLive.audioContextRef (snd r) = None
        /\ GeminiLive.nudgeIntervalRef (snd r) = None
        /\ GeminiLive.playback (snd r) = Playback.mkRefs None 0
        /\ GeminiLive.isConnected (snd r) = false
        /\ GeminiLive.isConnecting (snd r) = false
        /\ GeminiLive.disconnect (fst r) (snd r) = r)
  /\ GeminiLive.disconnect st GeminiLive.initial = (st, GeminiLive.initial)
  /\ (forall s : GeminiLiveLegacy.State,
        let r := GeminiLiveLegacy.disconnect st s in
        GeminiLiveLegacy.sessionRef (snd r) = None
        /\ GeminiLiveLegacy.mediaStreamRef (snd r) = None
        /\ GeminiLiveLegacy.audioContextRef (snd r) = None
        /\ GeminiLiveLegacy.isConnected (snd r) = false
        /\ GeminiLiveLegacy.isConnecting (snd r) = false
        /\ GeminiLiveLegacy.disconnect (fst r) (snd r) = r)
  /\ GeminiLiveLegacy.disconnect st GeminiLiveLegacy.initial
     = (st, GeminiLiveLegacy.initial)
  /\ (forall s : TextTranslation.State,
        let s' := TextTranslation.stop s in
        TextTranslation.recognitionRef s' = None
        /\ TextTranslation.ttsQueueRef s' = []
        /\ TextTranslation.isActive s' = false
        /\ TextTranslation.isActiveRef s' = false
        /\ TextTranslation.isSpeaking s' = false
        /\ TextTranslation.isTranslatingRef s' = false
        /\ TextTranslation.stop s' = s')
  /\ TextTranslation.stop TextTranslation.initial = TextTranslation.initial.
Proof.
  repeat match goal with |- _ /\ _ => split end; try reflexivity.
  - intros s r. subst r. unfold LocalPipeline.stop. cbn.
    rewrite !nullIfSet_None. repeat split.
  - intros s r. subst r. unfold PersonaPlex.disconnect. cbn.
    rewrite !nullIfSet_None. repeat split.
  - intros s r. subst r. unfold GeminiLive.disconnect. cbn.
    rewrite !nullIfSet_None. repeat split.
  - intros s r. subst r. unfold GeminiLiveLegacy.disconnect. cbn.
    rewrite !nullIfSet_None. repeat split.
  - intros s s'. subst s'. unfold TextTranslation.stop. cbn.
    rewrite !nullIfSet_None. repeat split.
Qed.

(** ** Mode orchestration *)

Import Teleprompter.

(** When the mode effect starts a mode, the calls before the start are
    the teardowns of the four other modes, and the start is the last
    call; when translation is off it tears all five down. *)
Lemma mode_effect_tears_down_others_first (c : Component) :
  modeEffect c
  = if showSubtitles c then
      (map teardownOf
           (filter (fun m => negb (modeEqb m (translationMode c))) allModes)
       ++ [startOf (translationMode c)])%list
    else map teardownOf allModes.
Proof.
  unfold modeEffect. destruct (showSubtitles c); [|reflexivity].
  destruct (translationMode c); reflexivity.
Qed.

(** Right after a run of the mode effect, no mode other than the selected
    one reports connected, and none at all when translation is off. *)
Lemma after_mode_effect_others_are_down (w : World) (m : TranslationMode) :
  (showSubtitles (comp w) = false
   \/ modeEqb m (translationMode (comp w)) = false) ->
  reportsConnected (rerunModeEffect w) m = false.
Proof.
  intros H. unfold rerunModeEffect, modeEffect, modeEffectCleanup.
  destruct (showSubtitles (comp w)) eqn:S.
  - destruct H as [H|H]; [discriminate|].
    destruct (translationMode (comp w)), m; try discriminate; reflexivity.
  - destruct m; reflexivity.
Qed.

(** C8 at its failing input. Pipeline mode is switched on and, while its
    socket is still connecting, off again: [stop] cannot send on the
    connecting socket, the throw skips [close], and the ref is dropped.
    Text mode is then selected and switched on; the mode effect tears the
    pipeline hook down first, which finds no socket to close. When the
    abandoned socket opens, its [onopen] marks the pipeline active: both
    the text mode and the pipeline mode report connected. *)
Theorem abandoned_socket_breaks_exclusivity :
  let switchedOff :=
    run initialWorld [ClickMode local_pipeline; ClickToggle; ClickToggle] in
  let textOn := run switchedOff [ClickMode text; ClickToggle] in
  let w := run textOn [SocketOpened 0%nat] in
  option_map WebSocket.readyState (WebSocket.get (sockets switchedOff) 0)
  = Some CONNECTING
  /\ LocalPipeline.wsRef (pipelineHook switchedOff) = None
  /\ connectedModes switchedOff = []
  /\ connectedModes textOn = [text]
  /\ showSubtitles (comp w) = true
  /\ translationMode (comp w) = text
  /\ connectedModes w = [text; local_pipeline].
Proof. repeat split; reflexivity. Qed.

(* ===================================================================== *)
(** * Part III. Further properties of the code                            *)
(* ===================================================================== *)

(** ** The tracking loop *)

Lemma cleanWordAt_defined words i :
  0 <= i < Script.length words ->
  exists w, Script.cleanWordAt words i = Some w.
Proof.
  unfold Script.cleanWordAt, Script.length, Js.at_. intros H.
  destruct (i <? 0) eqn:E; [apply Z.ltb_lt in E; lia|].
  destruct (nth_error words (Z.to_nat i)) as [x|] eqn:N.
  - exists (cleanWord x). reflexivity.
  - apply nth_error_None in N. lia.
Qed.

Lemma matchCount_defined words second third i :
  0 <= i < Script.length words ->
  exists mc, Tracker.matchCount words second third i = Some mc.
Proof.
  intros H. unfold Tracker.matchCount.
  destruct (Js.truthy second && (0 <? i)) eqn:G1; [|eauto].
  apply andb_true_iff in G1. destruct G1 as [_ G1]. apply Z.ltb_lt in G1.
  destruct (cleanWordAt_defined words (i - 1)) as [w1 W1]; [lia|].
  rewrite W1. destruct (Js.strictEq w1 second); [|eauto].
  destruct (Js.truthy third && (1 <? i)) eqn:G2; [|eauto].
  apply andb_true_iff in G2. destruct G2 as [_ G2]. apply Z.ltb_lt in G2.
  destruct (cleanWordAt_defined words (i - 2)) as [w2 W2]; [lia|].
  rewrite W2. destruct (Js.strictEq w2 third); eauto.
Qed.

Lemma previousMatches_defined words second i :
  0 <= i < Script.length words ->
  exists b, LegacyTracker.previousMatches words second i = Some b.
Proof.
  intros H. unfold LegacyTracker.previousMatches.
  destruct (Js.truthy second && (0 <? i)) eqn:G1; [|eauto].
  apply andb_true_iff in G1. destruct G1 as [_ G1]. apply Z.ltb_lt in G1.
  destruct (cleanWordAt_defined words (i - 1)) as [w1 W1]; [lia|].
  rewrite W1. eauto.
Qed.

Section LoopFacts.
Variable words : list WordItem.
Variable activeIndex : Z.
Variable lastWord : string.
Variables secondLastWord thirdLastWord : option string.
Variable e : Z.
Hypothesis e_in_script : e <= Script.length words.

Let scan := Tracker.scan words activeIndex lastWord secondLastWord
                         thirdLastWord e.
Let ok := Candidates.qualifies words activeIndex lastWord secondLastWord
                               thirdLastWord.

(** The loop passes over candidates that do not qualify. *)
Lemma scan_skips fuel i :
  0 <= i -> ok i = false -> i < e ->
  scan (S fuel) i = scan fuel (i + 1).
Proof.
  intros Hi Hq Hie. subst scan ok. simpl.
  apply Z.ltb_lt in Hie. rewrite Hie. apply Z.ltb_lt in Hie.
  unfold Candidates.qualifies in Hq.
  destruct (cleanWordAt_defined words i) as [w W]; [lia|].
  rewrite W in *.
  destruct (String.eqb w lastWord); [|reflexivity].
  destruct (matchCount_defined words secondLastWord thirdLastWord i)
    as [mc M]; [lia|].
  rewrite M in *. simpl in Hq. now rewrite Hq.
Qed.

Lemma scan_stops fuel i :
  ok i = true -> i < e -> scan (S fuel) i = SetActiveIndex (i + 1).
Proof.
  intros Hq Hie. subst scan ok. simpl.
  apply Z.ltb_lt in Hie. rewrite Hie.
  unfold Candidates.qualifies in Hq.
  destruct (Script.cleanWordAt words i) as [w|]; [|discriminate].
  apply andb_true_iff in Hq. destruct Hq as [H1 H2]. rewrite H1.
  destruct (Tracker.matchCount words secondLastWord thirdLastWord i);
    [|discriminate].
  now rewrite H2.
Qed.

Lemma scan_reaches fuel i j :
  0 <= i <= j -> j < e -> (j - i < Z.of_nat fuel) ->
  ok j = true -> (forall k, i <= k < j -> ok k = false) ->
  scan fuel i = SetActiveIndex (j + 1).
Proof.
  revert i. induction fuel as [|fuel IH]; intros i Hi Hj Hf Hq Hnone.
  - simpl in Hf. lia.
  - destruct (Z.eq_dec i j) as [->|Hne].
    + now apply scan_stops.
    + rewrite scan_skips; [|lia|apply Hnone; lia|lia].
      apply IH; try lia; auto. intros k Hk. apply Hnone. lia.
Qed.

Lemma scan_finds_nothing fuel i :
  0 <= i -> (forall k, i <= k < e -> ok k = false) ->
  scan fuel i = NoWrite.
Proof.
  revert i. induction fuel as [|fuel IH]; intros i Hi Hnone; [reflexivity|].
  destruct (Z_lt_le_dec i e) as [L|G].
  - rewrite scan_skips; [|lia|apply Hnone; lia|lia].
    apply IH; [lia|]. intros k Hk. apply Hnone. lia.
  - subst scan. simpl.
    destruct (i <? e) eqn:E; [apply Z.ltb_lt in E; lia|reflexivity].
Qed.
End LoopFacts.

Lemma least_candidate (P : Z -> bool) (a j : Z) :
  a <= j -> P j = true ->
  exists i, a <= i <= j /\ P i = true /\ forall k, a <= k < i -> P k = false.
Proof.
  intros Haj. remember (Z.to_nat (j - a)) as n eqn:Hn.
  revert a Haj Hn. induction n as [|n IH]; intros a Haj Hn Hj.
  - assert (a = j) by lia. subst a. exists j.
    split; [lia|]. split; [exact Hj|]. intros k Hk. lia.
  - destruct (P a) eqn:Pa.
    + exists a. split; [lia|]. split; [exact Pa|]. intros k Hk. lia.
    + destruct (IH (a + 1)) as (i & Hi & Pi & Hmin); try lia; auto.
      exists i. split; [lia|]. split; [exact Pi|].
      intros k Hk. destruct (Z.eq_dec k a) as [->|Hne]; auto.
      apply Hmin. lia.
Qed.

Lemma effect_is_onWords words transcript activeIndex :
  Tracker.effect words transcript activeIndex
  = Tracker.onWords words (Script.transcriptWords transcript) activeIndex.
Proof.
  unfold Tracker.effect. destruct (String.eqb transcript "") eqn:E; auto.
  apply String.eqb_eq in E. subst. reflexivity.
Qed.

Lemma nearest_candidate_is_taken words transcript activeIndex j :
  0 <= activeIndex ->
  activeIndex <= j < Candidates.searchEndIndex words activeIndex ->
  Candidates.qualifiesFor words transcript activeIndex j = true ->
  exists i,
    activeIndex <= i <= j
    /\ Candidates.qualifiesFor words transcript activeIndex i = true
    /\ (forall k, activeIndex <= k < i ->
                  Candidates.qualifiesFor words transcript activeIndex k
                  = false)
    /\ Tracker.effect words transcript activeIndex = SetActiveIndex (i + 1).
Proof.
  intros Ha Hj Hq.
  destruct (least_candidate
              (Candidates.qualifiesFor words transcript activeIndex)
              activeIndex j) as (i & Hi & Qi & Hmin); [lia|exact Hq|].
  exists i. split; [lia|]. split; [exact Qi|]. split; [exact Hmin|].
  rewrite effect_is_onWords. unfold Tracker.onWords.
  unfold Candidates.qualifiesFor in Qi, Hmin.
  destruct (Script.lastWordOf (Script.transcriptWords transcript))
    as [lastWord|]; [|discriminate].
  unfold Candidates.searchEndIndex in Hj.
  apply scan_reaches; try lia; auto.
Qed.

(** The nearest qualifying candidate wins. With the cursor at or after 0,
    if some candidate of the search window qualifies, the five-mode
    tracking run moves the cursor just past the lowest such candidate. *)
Theorem tracker_takes_nearest_candidate
        (words : list WordItem) (transcript : string) (activeIndex j : Z) :
  0 <= activeIndex ->
  activeIndex <= j < Candidates.searchEndIndex words activeIndex ->
  Candidates.qualifiesFor words transcript activeIndex j = true ->
  exists i,
    activeIndex <= i <= j
    /\ Candidates.qualifiesFor words transcript activeIndex i = true
    /\ (forall k, activeIndex <= k < i ->
                  Candidates.qualifiesFor words transcript activeIndex k
                  = false)
    /\ Tracker.effect words transcript activeIndex = SetActiveIndex (i + 1).
Proof. apply nearest_candidate_is_taken. Qed.

Lemma tracker_takes_nearest_candidate_witness :
  exists i,
    0 <= i <= 4
    /\ Candidates.qualifiesFor catScript "on the" 0 i = true
    /\ (forall k, 0 <= k < i ->
                  Candidates.qualifiesFor catScript "on the" 0 k = false)
    /\ Tracker.effect catScript "on the" 0 = SetActiveIndex (i + 1).
Proof.
  apply (tracker_takes_nearest_candidate catScript "on the" 0 4).
  - lia.
  - vm_compute. split; [discriminate|reflexivity].
  - reflexivity.
Defined.

Lemma scan_never_fails words activeIndex lastWord second third e fuel i :
  0 <= i -> e <= Script.length words ->
  Tracker.scan words activeIndex lastWord second third e fuel i <> TypeError.
Proof.
  intros Hi He. revert i Hi.
  induction fuel as [|fuel IH]; intros i Hi; simpl; [discriminate|].
  destruct (i <? e) eqn:E; [|discriminate]. apply Z.ltb_lt in E.
  destruct (cleanWordAt_defined words i) as [w W]; [lia|]. rewrite W.
  destruct (String.eqb w lastWord); [|apply IH; lia].
  destruct (matchCount_defined words second third i) as [mc M]; [lia|].
  rewrite M.
  destruct (Nat.leb (Tracker.requiredMatches (i - activeIndex)) mc);
    [discriminate|apply IH; lia].
Qed.

Lemma five_mode_effect_never_fails words transcript activeIndex :
  0 <= activeIndex ->
  Tracker.effect words transcript activeIndex <> TypeError.
Proof.
  intros Ha. unfold Tracker.effect.
  destruct (String.eqb transcript ""); [discriminate|].
  unfold Tracker.onWords.
  destruct (Script.lastWordOf _); [|discriminate].
  apply scan_never_fails; [exact Ha|apply Z.le_min_r].
Qed.

(** With the cursor at or after 0, a five-mode tracking run leaves the
    cursor alone exactly when no candidate of the search window
    qualifies; it never fails. *)
Theorem tracker_stays_without_candidate
        (words : list WordItem) (transcript : string) (activeIndex : Z) :
  0 <= activeIndex ->
  (Tracker.effect words transcript activeIndex = NoWrite
   <-> forall k,
       activeIndex <= k < Candidates.searchEndIndex words activeIndex ->
       Candidates.qualifiesFor words transcript activeIndex k = false)
  /\ Tracker.effect words transcript activeIndex <> TypeError.
Proof.
  intros Ha.
  assert (D : (forall k,
       activeIndex <= k < Candidates.searchEndIndex words activeIndex ->
       Candidates.qualifiesFor words transcript activeIndex k = false)
     \/ exists j,
         activeIndex <= j < Candidates.searchEndIndex words activeIndex
         /\ Candidates.qualifiesFor words transcript activeIndex j = true).
  { set (e := Candidates.searchEndIndex words activeIndex).
    assert (G : forall n,
      (forall k, activeIndex <= k < activeIndex + Z.of_nat n -> k < e ->
         Candidates.qualifiesFor words transcript activeIndex k = false)
      \/ exists j, activeIndex <= j < e
           /\ Candidates.qualifiesFor words transcript activeIndex j = true).
    { induction n as [|n [IH|IH]]; [left; intros; lia| |right; exact IH].
      destruct (Z_lt_le_dec (activeIndex + Z.of_nat n) e) as [L|G].
      - destruct (Candidates.qualifiesFor words transcript activeIndex
                    (activeIndex + Z.of_nat n)) eqn:Q.
        + right. exists (activeIndex + Z.of_nat n). split; [lia|exact Q].
        + left. intros k Hk Hke.
          destruct (Z.eq_dec k (activeIndex + Z.of_nat n)) as [->|Hne]; auto.
          apply IH; lia.
      - left. intros k Hk Hke.
        destruct (Z.eq_dec k (activeIndex + Z.of_nat n)) as [->|Hne];
          [lia|apply IH; lia]. }
    destruct (G (Z.to_nat (e - activeIndex))) as [N|Y]; [left|right; exact Y].
    intros k Hk. apply N; lia. }
  destruct D as [N|(j & Hj & Qj)].
  - assert (E : Tracker.effect words transcript activeIndex = NoWrite).
    { rewrite effect_is_onWords. unfold Tracker.onWords.
      unfold Candidates.qualifiesFor in N.
      destruct (Script.lastWordOf (Script.transcriptWords transcript))
        as [lastWord|]; [|reflexivity].
      apply scan_finds_nothing; auto.
      unfold Candidates.searchEndIndex in N.
      apply Z.le_min_r. }
    rewrite E. split; [split; auto|discriminate].
  - destruct (nearest_candidate_is_taken words transcript
                activeIndex j Ha Hj Qj) as (i & Hi & Qi & _ & E).
    rewrite E. split; [|discriminate]. split; [discriminate|].
    intros N. rewrite N in Qi; [discriminate|lia].
Qed.

Lemma tracker_stays_without_candidate_witness :
  (Tracker.effect catScript "dog" 2 = NoWrite
   <-> forall k,
       2 <= k < Candidates.searchEndIndex catScript 2 ->
       Candidates.qualifiesFor catScript "dog" 2 k = false)
  /\ Tracker.effect catScript "dog" 2 <> TypeError.
Proof.
  apply (tracker_stays_without_candidate catScript "dog" 2). lia.
Defined.

Lemma legacy_scan_never_fails words activeIndex lastWord second e fuel i :
  0 <= i -> e <= Script.length words ->
  LegacyTracker.scan words activeIndex lastWord second e fuel i <> TypeError.
Proof.
  intros Hi He. revert i Hi.
  induction fuel as [|fuel IH]; intros i Hi; simpl; [discriminate|].
  destruct (i <? e) eqn:E; [|discriminate]. apply Z.ltb_lt in E.
  destruct (cleanWordAt_defined words i) as [w W]; [lia|]. rewrite W.
  destruct (String.eqb w lastWord); [|apply IH; lia].
  destruct (previousMatches_defined words second i) as [b B]; [lia|].
  rewrite B. destruct b; [discriminate|].
  destruct (activeIndex =? 0); [discriminate|apply IH; lia].
Qed.

Lemma lastWordOf_nonempty (tw : list string) :
  tw <> [] -> exists w, Script.lastWordOf tw = Some w.
Proof.
  intros H. unfold Script.lastWordOf, Js.at_.
  destruct tw as [|x r]; [contradiction|].
  destruct (Z.of_nat (List.length (x :: r)) - 1 <? 0) eqn:E.
  - apply Z.ltb_lt in E. simpl List.length in E. lia.
  - destruct (nth_error (x :: r)
                (Z.to_nat (Z.of_nat (List.length (x :: r)) - 1))) eqn:N;
      [eauto|].
    apply nth_error_None in N. simpl List.length in *. lia.
Qed.

(** From a cursor at or after 0 a tracking run of either component never
    reads a word that is not there; but on an empty script the forward
    arrow key moves the cursor from 0 to -1, and from there a tracking run
    on any transcript that has a word fails on [words[-1]]. *)
Theorem tracking_fails_only_from_negative_cursor
        (v : TeleprompterVariant) (words : list WordItem)
        (transcript : string) (activeIndex : Z) :
  (0 <= activeIndex ->
   trackingEffect v words transcript activeIndex <> TypeError)
  /\ (Script.transcriptWords transcript <> [] ->
      Cursor.step (trackingEffect v) [] false 0 Cursor.ArrowForward = -1
      /\ trackingEffect v [] transcript (-1) = TypeError).
Proof.
  split.
  - intros Ha. destruct v; simpl.
    + apply five_mode_effect_never_fails. exact Ha.
    + unfold LegacyTracker.effect.
      destruct (String.eqb transcript ""); [discriminate|].
      unfold LegacyTracker.onWords.
      destruct (Script.lastWordOf _); [|discriminate].
      apply legacy_scan_never_fails; [exact Ha|apply Z.le_min_r].
  - intros Hw. split; [reflexivity|].
    destruct (lastWordOf_nonempty _ Hw) as [w L].
    assert (T : transcript <> "") by (intros ->; now apply Hw).
    apply String.eqb_neq in T.
    destruct v; simpl.
    + unfold Tracker.effect. rewrite T. unfold Tracker.onWords. rewrite L.
      reflexivity.
    + unfold LegacyTracker.effect. rewrite T.
      unfold LegacyTracker.onWords. rewrite L. reflexivity.
Qed.

Lemma tracking_fails_only_from_negative_cursor_witness :
  trackingEffect FiveMode catScript "the cat" 0 <> TypeError
  /\ Cursor.step (trackingEffect SingleMode) [] false 0 Cursor.ArrowForward
     = -1
  /\ trackingEffect SingleMode [] "hello" (-1) = TypeError.
Proof.
  destruct (tracking_fails_only_from_negative_cursor FiveMode catScript
              "the cat" 0) as [A _].
  destruct (tracking_fails_only_from_negative_cursor SingleMode catScript
              "hello" 0) as [_ B].
  split; [apply A; lia|]. apply B. vm_compute. discriminate.
Defined.

(** ** The cursor over whole sessions *)

(** Over a non-empty script the cursor stays within 0 .. words.length,
    both ends included, under every sequence of tracking runs, clicks,
    arrow keys and restarts, in both components. *)
Theorem cursor_never_leaves_script
        (v : TeleprompterVariant) (words : list WordItem) (pdfFile : bool)
        (activeIndex : Z) (events : list Cursor.Event) :
  0 < Script.length words ->
  0 <= activeIndex <= Script.length words ->
  0 <= Cursor.run (trackingEffect v) words pdfFile activeIndex events
    <= Script.length words.
Proof.
  intros Hne. revert activeIndex.
  induction events as [|e es IH]; intros a Ha; [exact Ha|].
  change (Cursor.run (trackingEffect v) words pdfFile a (e :: es))
    with (Cursor.run (trackingEffect v) words pdfFile
            (Cursor.step (trackingEffect v) words pdfFile a e) es).
  apply IH. now apply cursor_stays_within_closed_range.
Qed.

Lemma cursor_never_leaves_script_witness :
  0 <= Cursor.run (trackingEffect FiveMode) catScript false 0
         [Cursor.TrackingRun "on the mat"; Cursor.ArrowForward;
          Cursor.ClickWord 3; Cursor.TrackingRun "the mat";
          Cursor.TrackingRun "mat"; Cursor.ArrowBack; Cursor.Restart]
    <= Script.length catScript.
Proof.
  apply (cursor_never_leaves_script FiveMode catScript false 0).
  - reflexivity.
  - vm_compute. split; discriminate.
Defined.

Lemma wordless_transcript_writes_nothing v words transcript activeIndex :
  Silence.holdsNoWord transcript = true ->
  trackingEffect v words transcript activeIndex = NoWrite.
Proof.
  unfold Silence.holdsNoWord. intros H.
  destruct (Script.transcriptWords transcript) as [|w tw] eqn:E;
    [|discriminate].
  destruct v; cbn [trackingEffect].
  - unfold Tracker.effect. destruct (String.eqb transcript "");
      [reflexivity|]. now rewrite E.
  - unfold LegacyTracker.effect. destruct (String.eqb transcript "");
      [reflexivity|]. now rewrite E.
Qed.

(** While the transcript holds no word, the cursor stays on a word.
    Every change of the cursor runs the tracking effect again on the
    transcript that is held, so the runs are among the events: as long
    as each of them finds a transcript without a word (nothing
    recognised yet, or the transcript cleared by the restart button),
    clicks, arrow keys, restarts and these runs keep the cursor within
    0 .. words.length - 1. *)
Theorem navigation_keeps_cursor_on_a_word
        (v : TeleprompterVariant) (words : list WordItem) (pdfFile : bool)
        (activeIndex : Z) (events : list Cursor.Event) :
  forallb Silence.quiet events = true ->
  0 <= activeIndex < Script.length words ->
  0 <= Cursor.run (trackingEffect v) words pdfFile activeIndex events
    < Script.length words.
Proof.
  revert activeIndex.
  induction events as [|e es IH]; intros a Hall Ha; [exact Ha|].
  simpl in Hall. apply andb_true_iff in Hall. destruct Hall as [He Hes].
  change (Cursor.run (trackingEffect v) words pdfFile a (e :: es))
    with (Cursor.run (trackingEffect v) words pdfFile
            (Cursor.step (trackingEffect v) words pdfFile a e) es).
  apply IH; [exact Hes|].
  destruct (Cursor.isTracking e) eqn:T.
  - destruct e; try discriminate. cbn [Silence.quiet] in He.
    cbn [Cursor.step].
    rewrite (wordless_transcript_writes_nothing v words _ a He).
    exact Ha.
  - apply navigation_keeps_half_open_range; try lia. exact T.
Qed.

Lemma navigation_keeps_cursor_on_a_word_witness :
  0 <= Cursor.run (trackingEffect FiveMode) catScript false 4
         [Cursor.ArrowForward; Cursor.TrackingRun "";
          Cursor.ArrowForward; Cursor.TrackingRun "";
          Cursor.ArrowForward; Cursor.TrackingRun "?!";
          Cursor.ClickWord 9; Cursor.ArrowBack; Cursor.TrackingRun "";
          Cursor.Restart; Cursor.TrackingRun ""; Cursor.ArrowBack;
          Cursor.TrackingRun ""]
    < Script.length catScript.
Proof.
  apply (navigation_keeps_cursor_on_a_word FiveMode catScript false 4).
  - reflexivity.
  - vm_compute. split; [discriminate|reflexivity].
Defined.

(** ** Normalisation and splitting *)

Section SplitFacts.

Lemma all_of_list p (l : list ascii) :
  Chars.all p (string_of_list_ascii l) = forallb p l.
Proof. induction l as [|c l IH]; simpl; [reflexivity|now rewrite IH]. Qed.

Lemma forallb_rev_list {A} (p : A -> bool) (l : list A) :
  forallb p (rev l) = forallb p l.
Proof.
  induction l as [|c l IH]; simpl; [reflexivity|].
  rewrite forallb_app, IH. simpl. rewrite andb_true_r. apply andb_comm.
Qed.

(** The pieces of a split hold what the string held outside its white
    space. *)
Lemma splitGo_pieces (q : ascii -> bool) s inRun cur :
  Chars.all (fun c => Js.isSpace c || q c) s = true ->
  forallb q cur = true ->
  Forall (fun w => Chars.all q w = true) (Js.splitGo inRun cur s).
Proof.
  revert inRun cur. induction s as [|c r IH]; intros inRun cur Hs Hc; simpl.
  - constructor; [|constructor]. now rewrite all_of_list, forallb_rev_list.
  - simpl in Hs. apply andb_true_iff in Hs. destruct Hs as [Hq Hr].
    destruct (Js.isSpace c) eqn:Sp.
    + destruct inRun; [now apply IH|].
      constructor; [now rewrite all_of_list, forallb_rev_list|].
      now apply IH.
    + apply IH; [exact Hr|]. simpl. simpl in Hq. now rewrite Hq.
Qed.

Lemma all_weaken (p q : ascii -> bool) s :
  (forall c, p c = true -> q c = true) ->
  Chars.all p s = true -> Chars.all q s = true.
Proof.
  intros H. induction s as [|c r IH]; simpl; [auto|].
  intros K. apply andb_true_iff in K. destruct K as [K1 K2].
  rewrite (H _ K1). now apply IH.
Qed.

Lemma string_of_list_nonempty (l : list ascii) :
  l <> [] -> string_of_list_ascii (rev l) <> "".
Proof.
  intros H E. apply (f_equal list_ascii_of_string) in E.
  rewrite list_ascii_of_string_of_list_ascii in E. simpl in E.
  apply H. destruct l as [|x l]; [reflexivity|].
  simpl in E. now destruct (rev l).
Qed.

(** A string that does not end in white space splits without an empty
    piece, once its first piece has begun. *)
Lemma splitGo_nonempty s :
  Chars.lastIsSpace s = false ->
  (forall cur, cur <> [] ->
     Forall (fun w => w <> "") (Js.splitGo false cur s))
  /\ (s <> "" -> Forall (fun w => w <> "") (Js.splitGo true [] s)).
Proof.
  induction s as [|c r IH]; intros L.
  - split; [|congruence]. intros cur Hc. simpl.
    constructor; [now apply string_of_list_nonempty|constructor].
  - assert (Lr : Chars.lastIsSpace r = false).
    { destruct r; [reflexivity|exact L]. }
    destruct (IH Lr) as [IH1 IH2].
    destruct (Js.isSpace c) eqn:Sp.
    + assert (Rn : r <> "").
      { intros ->. simpl in L. congruence. }
      split.
      * intros cur Hc. simpl. rewrite Sp.
        constructor; [now apply string_of_list_nonempty|now apply IH2].
      * intros _. simpl. rewrite Sp. now apply IH2.
    + split.
      * intros cur Hc. simpl. rewrite Sp. apply IH1. discriminate.
      * intros _. simpl. rewrite Sp. apply IH1. discriminate.
Qed.

Lemma trimEnd_last s : Chars.lastIsSpace (Js.trimEnd s) = false.
Proof.
  induction s as [|c r IH]; [reflexivity|]. simpl.
  destruct (Js.trimEnd r) as [|d r'] eqn:E.
  - destruct (Js.isSpace c) eqn:Sp; [reflexivity|simpl; exact Sp].
  - exact IH.
Qed.

Lemma trim_shape s :
  Js.trim s = ""
  \/ exists c r, Js.trim s = String c r /\ Js.isSpace c = false.
Proof.
  unfold Js.trim. destruct (Js.trimStart s) as [|c r] eqn:E; [now left|].
  right. pose proof (trimStart_head _ _ _ E) as Sp.
  exists c, (Js.trimEnd r). split; [now apply trimEnd_cons|exact Sp].
Qed.

(** Trimmed text that is not empty splits into words: no piece is empty
    and none holds white space. *)
Lemma trimmed_splits_into_words s :
  Js.trim s <> "" ->
  Forall (fun w => Chars.isWord w = true) (Js.splitWhitespace (Js.trim s)).
Proof.
  intros Hne.
  assert (A : Forall (fun w => Chars.all Chars.notSpace w = true)
                     (Js.splitWhitespace (Js.trim s))).
  { apply splitGo_pieces; [|reflexivity].
    generalize (Js.trim s). intros t. induction t as [|c r IH]; simpl; auto.
    rewrite IH. unfold Chars.notSpace. now destruct (Js.isSpace c). }
  assert (B : Forall (fun w => w <> "") (Js.splitWhitespace (Js.trim s))).
  { destruct (trim_shape s) as [E|(c & r & E & Sp)]; [contradiction|].
    pose proof (trimEnd_last (Js.trimStart s)) as L.
    fold (Js.trim s) in L. rewrite E in *.
    unfold Js.splitWhitespace. simpl. rewrite Sp.
    assert (Lr : Chars.lastIsSpace r = false).
    { destruct r; [reflexivity|exact L]. }
    apply (proj1 (splitGo_nonempty r Lr)). discriminate. }
  rewrite Forall_forall in *. intros w Hw. unfold Chars.isWord.
  rewrite (A w Hw), andb_true_r. apply negb_true_iff.
  apply String.eqb_neq. now apply B.
Qed.

End SplitFacts.

(** Whenever the new content of a feed is not empty, it begins and ends
    without white space and the word count of [processTranscript] is the
    number of its words: every piece of the split is a non-empty run free
    of white space. *)
Theorem word_count_counts_words (transcript lastProcessed : string) :
  let content := newContent transcript lastProcessed in
  content <> "" ->
  Js.trim content = content
  /\ Forall (fun w => Chars.isWord w = true) (Js.splitWhitespace content).
Proof.
  intros content Hne.
  assert (T : Js.trim content = content).
  { subst content. unfold newContent.
    destruct (isReset transcript lastProcessed); apply trim_idempotent. }
  split; [exact T|].
  rewrite <- T. apply trimmed_splits_into_words. now rewrite T.
Qed.

Lemma word_count_counts_words_witness :
  Js.trim (newContent "Hello there,  how are" "Hello there,")
  = newContent "Hello there,  how are" "Hello there,"
  /\ Forall (fun w => Chars.isWord w = true)
            (Js.splitWhitespace
               (newContent "Hello there,  how are" "Hello there,")).
Proof.
  apply (word_count_counts_words "Hello there,  how are" "Hello there,").
  vm_compute. discriminate.
Defined.

Section CleanFacts.

Lemma lowerChar_idempotent c : Js.lowerChar (Js.lowerChar c) = Js.lowerChar c.
Proof.
  destruct c as [b0 b1 b2 b3 b4 b5 b6 b7].
  destruct b0, b1, b2, b3, b4, b5, b6, b7; reflexivity.
Qed.

Lemma kept_lower_is_alnum_or_space c :
  Js.keptByClean (Js.lowerChar c) = true ->
  Js.isSpace (Js.lowerChar c) || Chars.isLowerAlnum (Js.lowerChar c) = true.
Proof.
  destruct c as [b0 b1 b2 b3 b4 b5 b6 b7].
  destruct b0, b1, b2, b3, b4, b5, b6, b7; vm_compute; intros H;
    solve [reflexivity | discriminate].
Qed.

Lemma clean_cons c r :
  Script.clean (String c r)
  = if Js.keptByClean (Js.lowerChar c)
    then String (Js.lowerChar c) (Script.clean r)
    else Script.clean r.
Proof. reflexivity. Qed.

Lemma clean_idempotent w : Script.clean (Script.clean w) = Script.clean w.
Proof.
  induction w as [|c r IH]; [reflexivity|].
  rewrite clean_cons. destruct (Js.keptByClean (Js.lowerChar c)) eqn:K; auto.
  rewrite clean_cons, lowerChar_idempotent, K. now rewrite IH.
Qed.

Lemma clean_chars w :
  Chars.all (fun c => Js.isSpace c || Chars.isLowerAlnum c) (Script.clean w)
  = true.
Proof.
  induction w as [|c r IH]; [reflexivity|].
  rewrite clean_cons. destruct (Js.keptByClean (Js.lowerChar c)) eqn:K; auto.
  simpl. now rewrite (kept_lower_is_alnum_or_space _ K), IH.
Qed.

End CleanFacts.

(** Tracking looks at a transcript only through its normal form. The
    spoken words are non-empty runs of lowercase letters and digits,
    normalising a transcript twice changes nothing, and so a tracking run
    of either component gives the same result on a transcript and on its
    lower-cased, punctuation-free form. *)
Theorem tracking_ignores_case_and_punctuation
        (v : TeleprompterVariant) (words : list WordItem)
        (transcript : string) (activeIndex : Z) :
  Forall (fun w => w <> "" /\ Chars.all Chars.isLowerAlnum w = true)
         (Script.transcriptWords transcript)
  /\ Script.transcriptWords (Script.clean transcript)
     = Script.transcriptWords transcript
  /\ trackingEffect v words (Script.clean transcript) activeIndex
     = trackingEffect v words transcript activeIndex.
Proof.
  assert (I : Script.transcriptWords (Script.clean transcript)
              = Script.transcriptWords transcript).
  { unfold Script.transcriptWords. now rewrite clean_idempotent. }
  split; [|split; [exact I|]].
  - unfold Script.transcriptWords. apply Forall_forall. intros w Hw.
    apply filter_In in Hw. destruct Hw as [Hw Hn].
    split; [apply String.eqb_neq; now apply negb_true_iff|].
    pose proof (splitGo_pieces Chars.isLowerAlnum (Script.clean transcript)
                  false [] (clean_chars transcript) eq_refl) as P.
    rewrite Forall_forall in P. now apply P.
  - assert (E : forall t, Script.transcriptWords t = [] ->
                 trackingEffect v words t activeIndex = NoWrite).
    { intros t Ht. destruct v; simpl.
      - unfold Tracker.effect. destruct (String.eqb t ""); auto.
        unfold Tracker.onWords. now rewrite Ht.
      - unfold LegacyTracker.effect. destruct (String.eqb t ""); auto.
        unfold LegacyTracker.onWords. now rewrite Ht. }
    destruct (Script.transcriptWords transcript) as [|x tw] eqn:T.
    + rewrite (E transcript T). apply E. now rewrite I.
    + assert (N1 : transcript <> "") by (intros ->; discriminate).
      assert (N2 : Script.clean transcript <> "").
      { intros K. rewrite K in I. discriminate. }
      apply String.eqb_neq in N1. apply String.eqb_neq in N2.
      destruct v; simpl.
      * unfold Tracker.effect. now rewrite N1, N2, I, T.
      * unfold LegacyTracker.effect. now rewrite N1, N2, I, T.
Qed.

(** ** The segmenter and the request gate together *)

Lemma ready_content_is_handed_over now transcript s :
  hasCompleteSentence (newContent transcript (lastProcessedRef s))
  || (5 <=? wordCount (newContent transcript (lastProcessedRef s))) = true ->
  processTranscript now transcript s
  = translateText now (newContent transcript (lastProcessedRef s))
                  (setLastProcessed transcript (setSource transcript s)).
Proof.
  intros R. unfold processTranscript.
  destruct (String.eqb transcript "") eqn:E0.
  { apply String.eqb_eq in E0. subst.
    rewrite newContent_of_empty in R. discriminate. }
  change (lastProcessedRef (setSource transcript s))
    with (lastProcessedRef s).
  destruct (String.eqb transcript (lastProcessedRef s)) eqn:E1.
  { apply String.eqb_eq in E1. rewrite <- E1 in R.
    rewrite newContent_of_watermark in R. discriminate. }
  destruct (String.eqb (newContent transcript (lastProcessedRef s)) "")
    eqn:E2.
  { apply String.eqb_eq in E2. rewrite E2 in R. discriminate. }
  now rewrite R.
Qed.

(** Content that becomes ready while a request is in flight is lost. If
    the new content of a feed is ready (a mark or five words) while the
    in-flight flag is set and the last activity is at most 10000 ms old,
    no request starts, yet the watermark moves to the fed transcript:
    feeding the same transcript again hands nothing to [translateText],
    and neither does any later run of the interval callback. *)
Theorem content_ready_during_a_request_is_lost
        (now : Z) (transcript : string) (s : State) :
  isTranslatingRef s = true ->
  now - lastActivityTimeRef s <= 10000 ->
  hasCompleteSentence (newContent transcript (lastProcessedRef s))
  || (5 <=? wordCount (newContent transcript (lastProcessedRef s))) = true ->
  let s' := fst (processTranscript now transcript s) in
  started (snd (processTranscript now transcript s)) = []
  /\ lastProcessedRef s' = transcript
  /\ (forall later, snd (processTranscript later transcript s') = [])
  /\ (forall later recognition,
        triggers (snd (intervalTick later recognition s')) = []).
Proof.
  intros F A R s'. subst s'. rewrite (ready_content_is_handed_over _ _ _ R).
  set (content := newContent transcript (lastProcessedRef s)).
  set (s1 := setLastProcessed transcript (setSource transcript s)).
  assert (E : translateText now content s1 = (s1, [TranslateTextCalled content transcript])
              \/ translateText now content s1
                 = (s1, [TranslateTextCalled content transcript;
                         RequestSkipped content])).
  { unfold translateText. destruct (String.eqb (Js.trim content) "");
      [now left|right].
    change (isTranslatingRef s1) with (isTranslatingRef s). rewrite F.
    change (lastActivityTimeRef s1) with (lastActivityTimeRef s).
    destruct (10000 <? now - lastActivityTimeRef s) eqn:G;
      [apply Z.ltb_lt in G; lia|reflexivity]. }
  assert (N : transcript <> "").
  { intros ->. subst content. rewrite newContent_of_empty in R.
    discriminate. }
  assert (K : fst (translateText now content s1) = s1
              /\ started (snd (translateText now content s1)) = []).
  { destruct E as [E|E]; rewrite E; split; reflexivity. }
  destruct K as [K1 K2]. rewrite K1, K2.
  split; [reflexivity|]. split; [reflexivity|]. split.
  - intros later. unfold processTranscript.
    apply String.eqb_neq in N. rewrite N.
    change (lastProcessedRef (setSource transcript s1)) with transcript.
    now rewrite String.eqb_refl.
  - intros later recognition. unfold intervalTick.
    change (lastProcessedRef s1) with transcript.
    change (fullTranscriptRef s1) with transcript.
    rewrite Z.ltb_irrefl, andb_false_r.
    destruct ((30000 <? later - lastActivityTimeRef s1) && isActiveRef s1);
      reflexivity.
Qed.

Lemma content_ready_during_a_request_is_lost_witness :
  let s' := fst (processTranscript 1500
                   "Hello there, how are you today friend" requestInFlight)
  in
  started (snd (processTranscript 1500
                  "Hello there, how are you today friend" requestInFlight))
  = []
  /\ lastProcessedRef s' = "Hello there, how are you today friend"
  /\ (forall later,
        snd (processTranscript later
               "Hello there, how are you today friend" s') = [])
  /\ (forall later recognition,
        triggers (snd (intervalTick later recognition s')) = []).
Proof.
  apply (content_ready_during_a_request_is_lost 1500
           "Hello there, how are you today friend" requestInFlight).
  - reflexivity.
  - vm_compute. discriminate.
  - reflexivity.
Defined.

(** ** The speech queue of the text mode *)

Section SpeechQueue.

Import TextSpeech.

Lemma speech_step_keeps_order t e t' :
  settled t -> step t e = Some t' ->
  settled t'
  /\ (begun t' ++ ttsQueueRef (hook t'))%list
     = ((begun t ++ ttsQueueRef (hook t)) ++ queued [e])%list.
Proof.
  destruct t as [s b k]. destruct s.
  unfold settled, step, translationCompleted, utteranceEnded, processQueue,
    queued, note. cbn.
  intros (K & I & Q & F) R.
  destruct e as [now full|].
  - destruct (String.eqb (Js.trim full) "") eqn:E.
    + cbn in R. injection R as <-. cbn. rewrite ?app_nil_r.
      repeat split; auto; lia.
    + apply String.eqb_neq in E.
      destruct isTTSSpeakingRef0; cbn in R.
      * injection R as <-. cbn. rewrite ?app_nil_r, ?app_assoc.
        repeat split; auto; try discriminate; try lia.
        apply Forall_app; split; auto.
      * rewrite (Q eq_refl) in R. cbn in R.
        destruct (String.eqb (Js.trim full) "") eqn:E'.
        { apply String.eqb_eq in E'. contradiction. }
        injection R as <-. cbn. rewrite (Q eq_refl), ?app_nil_r.
        repeat split; auto; try discriminate; lia.
  - destruct (k <=? 0) eqn:G; [discriminate|]. apply Z.leb_gt in G.
    destruct isTTSSpeakingRef0; [|lia]. subst k.
    destruct ttsQueueRef0 as [|u rest]; cbn in R.
    + injection R as <-. cbn. rewrite ?app_nil_r.
      repeat split; auto; lia.
    + inversion F as [|? ? U F']; subst.
      apply String.eqb_neq in U. rewrite U in R.
      injection R as <-. cbn. rewrite ?app_nil_r, <- ?app_assoc.
      repeat split; auto; try discriminate; lia.
Qed.

Lemma speech_run_keeps_order es : forall t t',
  settled t -> run t es = Some t' ->
  settled t'
  /\ (begun t' ++ ttsQueueRef (hook t'))%list
     = ((begun t ++ ttsQueueRef (hook t)) ++ queued es)%list.
Proof.
  induction es as [|e es IH]; intros t t' S R; cbn [run] in R.
  - injection R as <-. split; [assumption|].
    unfold queued. cbn. now rewrite app_nil_r.
  - destruct (step t e) as [t1|] eqn:E; [|discriminate].
    destruct (speech_step_keeps_order _ _ _ S E) as [S1 O1].
    destruct (IH _ _ S1 R) as [S' O']. split; [assumption|].
    rewrite O', O1. unfold queued. cbn [flat_map].
    rewrite app_nil_r, !app_assoc. reflexivity.
Qed.

Lemma atRest_settled s : settled (atRest s).
Proof.
  unfold settled, atRest. cbn. repeat split; auto.
Qed.

(** Within a stretch that begins with no utterance under way, the
    translations are spoken one at a time and in the order in which
    they were completed: from a hook whose queue is at rest (empty, no
    utterance under way, the indicator off), after any run of completed
    translations and ended utterances (an utterance ends only while one
    is under way), the utterances begun so far, followed by those still
    waiting, are the trimmed non-blank translations in order; at most
    one utterance is under way, and the indicator [isSpeaking] is on
    exactly then; while none is under way nothing waits. A stop does
    not give such a stretch when an utterance is under way: it ends
    none, and after [stop] and [start] the next translation that
    completes with text begins its utterance at once, beside the ones
    still under way. *)
Theorem speech_is_serial_and_in_order
        (s : State) (es : list Event) (t' : Trace) :
  (run (atRest s) es = Some t' ->
   (begun t' ++ ttsQueueRef (hook t'))%list = queued es
   /\ 0 <= unfinished t' <= 1
   /\ (isSpeaking (hook t') = true <-> unfinished t' = 1)
   /\ (unfinished t' = 0 -> begun t' = queued es))
  /\ (forall (t : Trace) (restart now : Z) (ttsMode : option TTSMode)
             (fullTranslation : string),
        Js.trim fullTranslation <> "" ->
        exists t2,
          step (restarted restart ttsMode t)
               (Translated now fullTranslation)
          = Some t2
          /\ begun t2 = (begun t ++ [Js.trim fullTranslation])%list
          /\ unfinished t2 = unfinished t + 1
          /\ isTTSSpeakingRef (hook t2) = true).
Proof.
  split.
  - intros R.
    destruct (speech_run_keeps_order es _ _ (atRest_settled s) R)
      as [(K & I & Q & _) O].
    cbn in O. split; [exact O|].
    destruct (isTTSSpeakingRef (hook t')) eqn:F.
    + rewrite K, I. repeat split; try lia; discriminate.
    + rewrite K, I. split; [lia|]. split; [split; [discriminate|lia]|].
      intros _. rewrite (Q eq_refl), app_nil_r in O. exact O.
  - intros t restart now ttsMode full N. apply String.eqb_neq in N.
    unfold step, translationCompleted, restarted, processQueue. cbn.
    rewrite N. cbn.
    eexists. split; [reflexivity|]. cbn. repeat split; lia.
Qed.

Lemma speech_is_serial_and_in_order_witness :
  (exists t',
     run (atRest initial)
         [Translated 10 " Bonjour. "; Translated 20 "  ";
          Translated 30 "Merci."; UtteranceEnded]
     = Some t'
     /\ begun t' = ["Bonjour."; "Merci."]
     /\ unfinished t' = 1
     /\ (begun t' ++ ttsQueueRef (hook t'))%list
        = queued [Translated 10 " Bonjour. "; Translated 20 "  ";
                  Translated 30 "Merci."; UtteranceEnded])
  /\ (exists t1 t2,
        run (atRest initial) [Translated 10 "Bonjour."] = Some t1
        /\ unfinished t1 = 1
        /\ step (restarted 50 (Some gemini) t1)
                (Translated 90 "Guten Tag.") = Some t2
        /\ begun t2 = ["Bonjour."; "Guten Tag."]
        /\ unfinished t2 = 2).
Proof.
  split.
  - eexists. split; [vm_compute; reflexivity|].
    split; [reflexivity|]. split; [reflexivity|].
    apply (proj1 (speech_is_serial_and_in_order initial
                    [Translated 10 " Bonjour. "; Translated 20 "  ";
                     Translated 30 "Merci."; UtteranceEnded] _)).
    vm_compute. reflexivity.
  - eexists. 
    destruct (proj2 (speech_is_serial_and_in_order initial [] (atRest initial))
                (mkTrace
                   (fst (translationCompleted 10 "Bonjour."
                           (hook (atRest initial))))
                   ["Bonjour."] 1)
                50 90 (Some gemini) "Guten Tag.")
      as (t2 & E & B & U & _); [discriminate|].
    exists t2. split; [reflexivity|]. split; [reflexivity|].
    split; [exact E|]. split; [exact B|exact U].
Defined.

End SpeechQueue.

(** ** Capture and playback of audio *)

Section PcmRoundTrip.

Import Pcm PcmPlayback.

Lemma below_64 (P : Z -> bool) :
  forallb P (map Z.of_nat (seq 0 64)) = true ->
  forall n, 0 <= n < 64 -> P n = true.
Proof.
  intros H n B. rewrite forallb_forall in H. apply H.
  apply in_map_iff. exists (Z.to_nat n). split; [lia|].
  apply in_seq. lia.
Qed.

Lemma digit_facts n :
  0 <= n < 64 ->
  valueOf (digit n) = Some n
  /\ isPad (digit n) = false
  /\ isAsciiWhitespace (digit n) = false.
Proof.
  intros B.
  pose proof (below_64
    (fun n => match valueOf (digit n) with
              | Some m => Z.eqb m n
              | None => false
              end
              && negb (isPad (digit n))
              && negb (isAsciiWhitespace (digit n)))
    eq_refl n B) as H.
  cbv beta in H. apply andb_true_iff in H. destruct H as [H W].
  apply andb_true_iff in H. destruct H as [V D].
  destruct (valueOf (digit n)) as [m|]; [|discriminate].
  apply Z.eqb_eq in V. subst m.
  repeat split; [now apply negb_true_iff in D|now apply negb_true_iff in W].
Qed.

Lemma list_ind3 (A : Type) (P : list A -> Prop) :
  P [] -> (forall a, P [a]) -> (forall a b, P [a; b]) ->
  (forall a b c l, P l -> P (a :: b :: c :: l)) ->
  forall l, P l.
Proof.
  intros P0 P1 P2 P3 l.
  enough (Q : P l /\ (forall a, P (a :: l)) /\ (forall a b, P (a :: b :: l)))
    by apply Q.
  induction l as [|x l (I0 & I1 & I2)]; [now repeat split|].
  split; [apply I1|]. split; [intros a; apply I2|].
  intros a b. now apply P3.
Qed.

Lemma length4_step a b c d l : length4 (a :: b :: c :: d :: l) = length4 l.
Proof.
  unfold length4. cbn [List.length]. rewrite !Nat2Z.inj_succ.
  replace (Z.succ (Z.succ (Z.succ (Z.succ (Z.of_nat (List.length l))))))
    with (Z.of_nat (List.length l) + 1 * 4) by lia.
  apply Z_mod_plus_full.
Qed.

Lemma six_bits a b c :
  0 <= a <= 255 -> 0 <= b <= 255 -> 0 <= c <= 255 ->
  0 <= a / 4 < 64
  /\ 0 <= (a mod 4) * 16 + b / 16 < 64
  /\ 0 <= (b mod 16) * 4 + c / 64 < 64
  /\ 0 <= c mod 64 < 64
  /\ 0 <= (a mod 4) * 16 < 64
  /\ 0 <= (b mod 16) * 4 < 64.
Proof.
  intros. Z.div_mod_to_equations. lia.
Qed.

Lemma three_bytes a b c :
  0 <= a <= 255 -> 0 <= b <= 255 -> 0 <= c <= 255 ->
  (a / 4) * 4 + ((a mod 4) * 16 + b / 16) / 16 = a
  /\ (((a mod 4) * 16 + b / 16) mod 16) * 16 + ((b mod 16) * 4 + c / 64) / 4
     = b
  /\ (((b mod 16) * 4 + c / 64) mod 4) * 64 + c mod 64 = c.
Proof.
  intros. Z.div_mod_to_equations. lia.
Qed.

Lemma values_cons c r v :
  valueOf c = Some v ->
  values (c :: r) = option_map (cons v) (values r).
Proof.
  intros H. cbn [values]. rewrite H. now destruct (values r).
Qed.

Lemma stripPadding_digit c r :
  isPad c = false -> stripPadding (c :: r) = c :: stripPadding r.
Proof.
  intros H. cbn [stripPadding]. now rewrite H.
Qed.

(** What [atob] does to a string [encode] made. *)
Lemma encode_decodes (bs : list Z) :
  Forall (fun u => 0 <= u <= 255) bs ->
  let l := list_ascii_of_string (encode bs) in
  filter (fun c => negb (isAsciiWhitespace c)) l = l
  /\ length4 l = 0
  /\ length4 (stripPadding l) <> 1
  /\ option_map decode (values (stripPadding l)) = Some bs.
Proof.
  induction bs as [|a|a b|a b c rest IH] using list_ind3; intros F.
  - cbn. repeat split; auto. discriminate.
  - inversion F as [|? ? Ba _]; subst.
    destruct (six_bits a 0 0 Ba) as (D1 & _ & _ & _ & D2 & _); try lia.
    destruct (digit_facts _ D1) as (V1 & P1 & W1).
    destruct (digit_facts _ D2) as (V2 & P2 & W2).
    destruct (three_bytes a 0 0 Ba) as (E1 & _); try lia.
    cbn [encode list_ascii_of_string filter]. rewrite W1, W2.
    rewrite !stripPadding_digit by assumption.
    change (stripPadding ["="; "="]%char) with (@nil ascii).
    rewrite (values_cons _ _ _ V1), (values_cons _ _ _ V2).
    cbn [values option_map decode negb].
    repeat split; try reflexivity; try discriminate.
    rewrite Z.div_0_l, Z.add_0_r in E1 by lia. now rewrite E1.
  - inversion F as [|? ? Ba F1]; subst.
    inversion F1 as [|? ? Bb _]; subst.
    destruct (six_bits a b 0 Ba Bb) as (D1 & D2 & _ & _ & _ & D3); try lia.
    destruct (digit_facts _ D1) as (V1 & P1 & W1).
    destruct (digit_facts _ D2) as (V2 & P2 & W2).
    destruct (digit_facts _ D3) as (V3 & P3 & W3).
    destruct (three_bytes a b 0 Ba Bb) as (E1 & E2 & _); try lia.
    cbn [encode list_ascii_of_string filter]. rewrite W1, W2, W3.
    rewrite !stripPadding_digit by assumption.
    change (stripPadding ["="]%char) with (@nil ascii).
    rewrite (values_cons _ _ _ V1), (values_cons _ _ _ V2),
      (values_cons _ _ _ V3).
    cbn [values option_map decode negb].
    repeat split; try reflexivity; try discriminate.
    rewrite Z.div_0_l, Z.add_0_r in E2 by lia. now rewrite E1, E2.
  - inversion F as [|? ? Ba F1]; subst.
    inversion F1 as [|? ? Bb F2]; subst.
    inversion F2 as [|? ? Bc F3]; subst.
    destruct (IH F3) as (IW & IL & IS & ID). clear IH.
    destruct (six_bits a b c Ba Bb Bc) as (D1 & D2 & D3 & D4 & _ & _).
    destruct (digit_facts _ D1) as (V1 & P1 & W1).
    destruct (digit_facts _ D2) as (V2 & P2 & W2).
    destruct (digit_facts _ D3) as (V3 & P3 & W3).
    destruct (digit_facts _ D4) as (V4 & P4 & W4).
    destruct (three_bytes a b c Ba Bb Bc) as (E1 & E2 & E3).
    cbn [encode list_ascii_of_string].
    set (l := list_ascii_of_string (encode rest)) in *.
    split.
    { cbn [filter]. rewrite W1, W2, W3, W4. cbn [negb]. now rewrite IW. }
    split; [now rewrite length4_step|].
    rewrite !stripPadding_digit by assumption.
    split; [now rewrite length4_step|].
    rewrite (values_cons _ _ _ V1), (values_cons _ _ _ V2),
      (values_cons _ _ _ V3), (values_cons _ _ _ V4).
    destruct (values (stripPadding l)) as [vs|]; [|discriminate].
    cbn in ID. injection ID as ID. cbn [option_map decode].
    now rewrite E1, E2, E3, ID.
Qed.

Lemma atob_inverts_btoa (bs : list Z) (b64 : string) :
  btoa bs = Some b64 -> atob b64 = Some bs.
Proof.
  unfold btoa. destruct (forallb _ bs) eqn:F; [|discriminate].
  intros E. injection E as <-.
  assert (B : Forall (fun u => 0 <= u <= 255) bs).
  { apply Forall_forall. intros u I.
    rewrite forallb_forall in F. specialize (F u I).
    apply andb_true_iff in F. destruct F as [L U].
    apply Z.leb_le in L. apply Z.leb_le in U. lia. }
  destruct (encode_decodes bs B) as (W & L & S & D).
  unfold atob. rewrite W, L. cbn [Z.eqb].
  destruct (length4 (stripPadding (list_ascii_of_string (encode bs))) =? 1)
    eqn:G; [apply Z.eqb_eq in G; contradiction|exact D].
Qed.

Lemma int16OfBytes_inverts_bytes (vs : list Z) :
  Forall (fun v => -32768 <= v <= 32767) vs ->
  int16OfBytes (bytes vs) = Some vs.
Proof.
  induction 1 as [|v vs B _ IH]; [reflexivity|].
  change (bytes (v :: vs))
    with ((v mod 65536) mod 256 :: (v mod 65536) / 256 :: bytes vs).
  cbn [int16OfBytes]. rewrite IH. f_equal. f_equal.
  rewrite (Z.add_comm (v mod 65536 mod 256)), <- Z.div_mod by lia.
  unfold signed16.
  destruct (Z_lt_le_dec v 0) as [N|P].
  - replace (v mod 65536) with (v + 65536)
      by (apply Z.mod_unique with (q := -1); lia).
    destruct (32768 <=? v + 65536) eqn:E;
      [lia|apply Z.leb_gt in E; lia].
  - rewrite Z.mod_small by lia.
    destruct (32768 <=? v) eqn:E; [apply Z.leb_le in E; lia|reflexivity].
Qed.

(** What [pcmToBase64] encodes, the decoding lines of [playAudioChunk]
    give back: for every block of samples the capture side returns a
    string, the playback side decodes that string without a throw to the
    same 16-bit values, and the samples it plays are those values over
    32768. *)
Theorem captured_audio_decodes_to_its_samples (data : list Num) :
  exists base64Data,
    pcmToBase64 data = Some base64Data
    /\ PcmPlayback.int16 base64Data = Some (int16Array data)
    /\ float32 base64Data
       = Some (map (fun x => sample (sampleToInt16 x)) data).
Proof.
  unfold pcmToBase64, btoa. rewrite bytes_are_bytes.
  eexists. split; [reflexivity|].
  assert (I : PcmPlayback.int16 (encode (bytes (int16Array data)))
              = Some (int16Array data)).
  { unfold PcmPlayback.int16.
    rewrite (atob_inverts_btoa (bytes (int16Array data))
               (encode (bytes (int16Array data))))
      by (unfold btoa; now rewrite bytes_are_bytes).
    apply int16OfBytes_inverts_bytes. unfold int16Array.
    apply Forall_forall. intros v V. apply in_map_iff in V.
    destruct V as (x & <- & _). apply sampleToInt16_exact. }
  split; [exact I|]. unfold float32. rewrite I. cbn [option_map].
  unfold int16Array. now rewrite map_map.
Qed.

Local Open Scope Q_scope.

(** Capture followed by playback moves a sample by less than one part in
    16384 of full scale: the sample played for a captured sample [x] is
    within 1/16384 of [x] clamped to [-1, 1]; for a NaN it is 0. *)
Theorem playback_of_capture_is_close (x : Num) :
  match clamp x with
  | Fin c => c - (1 # 16384) < sample (sampleToInt16 x) < c + (1 # 16384)
  | NaN => sample (sampleToInt16 x) == 0
  | PosInf | NegInf => False
  end.
Proof.
  pose proof (clamp_range x) as R.
  pose proof (sampleToInt16_exact x) as [E _].
  unfold scaled in E.
  destruct (clamp x) as [c| | |] eqn:C; try contradiction;
    [|rewrite E; reflexivity].
  rewrite E. clear E. unfold ltZero, scale, truncate, sample.
  destruct (Qle_bool 0 c) eqn:S; cbn [negb].
  - apply Qle_bool_iff in S.
    assert (P : 0 <= c * inject_Z 32767)
      by (apply Qmult_le_0_compat; [exact S|discriminate]).
    apply Qle_bool_iff in P. rewrite P.
    pose proof (Qfloor_le (c * inject_Z 32767)) as F1.
    pose proof (Qlt_floor (c * inject_Z 32767)) as F2.
    set (n := Qfloor (c * inject_Z 32767)) in *.
    rewrite inject_Z_plus in F2.
    change (inject_Z 32767) with 32767 in *.
    change (inject_Z 1) with 1 in *.
    unfold Qdiv. change (/ 32768) with (1 # 32768). lra.
  - assert (N : c < 0).
    { apply Qnot_le_lt. intros H. apply Qle_bool_iff in H. congruence. }
    destruct (Qle_bool 0 (c * inject_Z 32768)) eqn:P.
    { apply Qle_bool_iff in P. change (inject_Z 32768) with 32768 in P.
      lra. }
    pose proof (Qle_ceiling (c * inject_Z 32768)) as F1.
    pose proof (Qceiling_lt (c * inject_Z 32768)) as F2.
    set (n := Qceiling (c * inject_Z 32768)) in *.
    unfold Zminus in F2. rewrite inject_Z_plus in F2.
    change (inject_Z 32768) with 32768 in *.
    change (inject_Z (- (1))) with (-1 # 1) in F2.
    unfold Qdiv. change (/ 32768) with (1 # 32768). lra.
Qed.

Local Close Scope Q_scope.

Lemma list_ind4 (A : Type) (P : list A -> Prop) :
  P [] -> (forall a, P [a]) -> (forall a b, P [a; b]) ->
  (forall a b c, P [a; b; c]) ->
  (forall a b c d l, P l -> P (a :: b :: c :: d :: l)) ->
  forall l, P l.
Proof.
  intros P0 P1 P2 P3 P4 l.
  enough (Q : P l /\ (forall a, P (a :: l)) /\ (forall a b, P (a :: b :: l))
              /\ (forall a b c, P (a :: b :: c :: l)))
    by apply Q.
  induction l as [|x l (I0 & I1 & I2 & I3)]; [now repeat split|].
  split; [apply I1|]. split; [intros a; apply I2|].
  split; [intros a b; apply I3|].
  intros a b c. now apply P4.
Qed.

Lemma position_bound c s : forall i v,
  position c s i = Some v ->
  i <= v < i + Z.of_nat (String.length s).
Proof.
  induction s as [|d r IH]; intros i v H; cbn [position] in H;
    [discriminate|].
  cbn [String.length]. rewrite Nat2Z.inj_succ.
  destruct (Ascii.eqb c d).
  - injection H as <-. lia.
  - apply IH in H. lia.
Qed.

Lemma values_bound l : forall vs,
  values l = Some vs -> Forall (fun v => 0 <= v < 64) vs.
Proof.
  induction l as [|c r IH]; intros vs H; cbn [values] in H.
  - injection H as <-. constructor.
  - destruct (valueOf c) as [v|] eqn:V; [|discriminate].
    destruct (values r) as [ws|]; [|discriminate].
    injection H as <-. constructor; [|now apply IH].
    apply position_bound in V. cbn in V. lia.
Qed.

Lemma decode_bytes vs :
  Forall (fun v => 0 <= v < 64) vs ->
  Forall (fun u => 0 <= u <= 255) (decode vs).
Proof.
  induction vs as [|a|a b|a b c|a b c d rest IH] using list_ind4; intros F;
    cbn [decode].
  - apply Forall_nil.
  - apply Forall_nil.
  - inversion F as [|? ? Ba F1]; subst. inversion F1 as [|? ? Bb _]; subst.
    apply Forall_cons; [|apply Forall_nil]. Z.div_mod_to_equations. lia.
  - inversion F as [|? ? Ba F1]; subst. inversion F1 as [|? ? Bb F2]; subst.
    inversion F2 as [|? ? Bc _]; subst.
    repeat (apply Forall_cons; [Z.div_mod_to_equations; lia|]).
    apply Forall_nil.
  - inversion F as [|? ? Ba F1]; subst. inversion F1 as [|? ? Bb F2]; subst.
    inversion F2 as [|? ? Bc F3]; subst. inversion F3 as [|? ? Bd F4]; subst.
    repeat (apply Forall_cons; [Z.div_mod_to_equations; lia|]).
    now apply IH.
Qed.

Lemma atob_bytes data bs :
  atob data = Some bs -> Forall (fun u => 0 <= u <= 255) bs.
Proof.
  unfold atob.
  set (l := if length4 _ =? 0 then _ else _).
  destruct (length4 l =? 1); [discriminate|].
  destruct (values l) as [vs|] eqn:V; [|discriminate].
  cbn [option_map]. intros H. injection H as <-.
  apply decode_bytes. now apply values_bound with (l := l).
Qed.

Lemma signed16_range lo hi :
  0 <= lo <= 255 -> 0 <= hi <= 255 ->
  -32768 <= signed16 (lo + 256 * hi) <= 32767.
Proof.
  intros Bl Bh. unfold signed16.
  destruct (32768 <=? lo + 256 * hi) eqn:E;
    [apply Z.leb_le in E|apply Z.leb_gt in E]; lia.
Qed.

Lemma int16OfBytes_range vs : forall bs,
  Forall (fun u => 0 <= u <= 255) bs ->
  int16OfBytes bs = Some vs ->
  Forall (fun v => -32768 <= v <= 32767) vs
  /\ List.length bs = (2 * List.length vs)%nat.
Proof.
  induction vs as [|v vs IH]; intros bs F H.
  - destruct bs as [|lo [|hi rest]]; cbn [int16OfBytes] in H;
      [now split|discriminate|].
    destruct (int16OfBytes rest); discriminate.
  - destruct bs as [|lo [|hi rest]]; cbn [int16OfBytes] in H;
      try discriminate.
    destruct (int16OfBytes rest) as [ws|] eqn:R; [|discriminate].
    injection H as <- <-.
    inversion F as [|? ? Bl F1]; subst. inversion F1 as [|? ? Bh F2]; subst.
    destruct (IH rest F2 R) as [I L]. split.
    + constructor; [|exact I]. now apply signed16_range.
    + cbn [List.length]. rewrite L. lia.
Qed.

Lemma sample_range v :
  -32768 <= v <= 32767 -> (-1 <= sample v)%Q /\ (sample v < 1)%Q.
Proof.
  intros B. unfold sample, Qdiv, Qle, Qlt, Qmult, Qinv, inject_Z.
  simpl. lia.
Qed.

(** Whatever chunk arrives, if its decoding does not throw, the buffer
    has an even number of bytes, there is one sample for every two
    bytes, and every sample handed to the audio buffer is in [-1, 1). *)
Theorem decoded_chunk_is_in_range (base64Data : string) (fs : list Q) :
  float32 base64Data = Some fs ->
  (exists bs, atob base64Data = Some bs
              /\ List.length bs = (2 * List.length fs)%nat)
  /\ Forall (fun f => (-1 <= f)%Q /\ (f < 1)%Q) fs.
Proof.
  unfold float32, PcmPlayback.int16.
  destruct (atob base64Data) as [bs|] eqn:A; [|discriminate].
  destruct (int16OfBytes bs) as [vs|] eqn:I; [|discriminate].
  cbn [option_map]. intros H. injection H as <-.
  destruct (int16OfBytes_range vs bs (atob_bytes _ _ A) I) as [R L].
  split.
  - exists bs. split; [reflexivity|]. now rewrite length_map.
  - apply Forall_forall. intros f F. apply in_map_iff in F.
    destruct F as (v & <- & V). apply sample_range.
    rewrite Forall_forall in R. now apply R.
Qed.

Lemma decoded_chunk_is_in_range_witness :
  float32 "AAD/fwCA"
  = Some [0 # 32768; 32767 # 32768; -32768 # 32768]%Q
  /\ Forall (fun f => (-1 <= f)%Q /\ (f < 1)%Q)
            [0 # 32768; 32767 # 32768; -32768 # 32768]%Q.
Proof.
  split; [vm_compute; reflexivity|].
  apply (decoded_chunk_is_in_range "AAD/fwCA"). vm_compute. reflexivity.
Defined.

End PcmRoundTrip.

(** ** The orchestrator between the runs of its effects *)

Section OrchestratorFacts.

Import Orchestration.

Lemma comp_perform c call w : comp (perform c call w) = comp w.
Proof. destruct call; reflexivity. Qed.

Lemma comp_performAll c calls : forall w,
  comp (performAll c calls w) = comp w.
Proof.
  unfold performAll. induction calls as [|call calls IH]; intros w;
    [reflexivity|].
  cbn [fold_left]. now rewrite IH, comp_perform.
Qed.

Lemma comp_rerunModeEffect w : comp (rerunModeEffect w) = comp w.
Proof. apply comp_performAll. Qed.

Lemma modeEqb_eq a b : modeEqb a b = true -> a = b.
Proof. destruct a, b; (reflexivity || discriminate). Qed.

Lemma only_selected_after_mode_effect w m :
  reportsConnected (rerunModeEffect w) m = true ->
  showSubtitles (comp (rerunModeEffect w)) = true
  /\ m = translationMode (comp (rerunModeEffect w)).
Proof.
  intros R. rewrite comp_rerunModeEffect.
  destruct (showSubtitles (comp w)) eqn:S.
  - split; [reflexivity|].
    destruct (modeEqb m (translationMode (comp w))) eqn:E;
      [now apply modeEqb_eq|].
    rewrite after_mode_effect_others_are_down in R by (now right).
    discriminate.
  - rewrite after_mode_effect_others_are_down in R by (now left).
    discriminate.
Qed.

(** Right after an action of the user on the translation controls, at
    most the selected mode reports connected. Either the action changes
    nothing (a disabled control, or the value it already has), or in the
    world it leaves every mode that reports connected is the selected
    one, with translation switched on. *)
Theorem user_action_leaves_only_selected_mode (w : World) (e : Event) :
  isUserAction e = true ->
  step w e = w
  \/ (forall m, reportsConnected (step w e) m = true ->
        showSubtitles (comp (step w e)) = true
        /\ m = translationMode (comp (step w e))).
Proof.
  intros U. destruct e; try discriminate; cbn [step].
  - destruct (activeIsConnecting w); [now left|right].
    intros m. apply only_selected_after_mode_effect.
  - destruct (showSubtitles (comp w) || modeEqb m (translationMode (comp w)));
      [now left|right].
    intros m'. apply only_selected_after_mode_effect.
  - destruct (showSubtitles (comp w)
              || negb (modeEqb (translationMode (comp w)) local_pipeline)
              || asrEqb m (pipelineAsrMode (comp w)));
      [now left|right].
    intros m'. apply only_selected_after_mode_effect.
  - destruct (showSubtitles (comp w)
              || negb (modeEqb (translationMode (comp w)) text)
              || ttsEqb m (voiceMode (comp w)));
      [now left|right].
    intros m'. apply only_selected_after_mode_effect.
  - destruct (showSubtitles (comp w) && negb (activeIsConnecting w)
              && negb (l =? targetLanguage (comp w))%string);
      [right|now left].
    intros m'. apply only_selected_after_mode_effect.
Qed.

Lemma user_action_leaves_only_selected_mode_witness :
  connectedModes
    (step (run initialWorld [ClickMode personaplex; ClickToggle;
                             MicGranted 0; SocketOpened 0; ClickToggle])
          (ClickMode text)) = []
  /\ connectedModes
       (step (run initialWorld [ClickMode personaplex; ClickToggle;
                                MicGranted 0; SocketOpened 0])
             ClickToggle) = []
  /\ (step initialWorld (ClickMode text) = initialWorld
      \/ (forall m,
            reportsConnected (step initialWorld (ClickMode text)) m = true ->
            showSubtitles (comp (step initialWorld (ClickMode text))) = true
            /\ m = translationMode
                     (comp (step initialWorld (ClickMode text))))).
Proof.
  split; [reflexivity|]. split; [reflexivity|].
  apply (user_action_leaves_only_selected_mode initialWorld (ClickMode text)).
  reflexivity.
Defined.

(** *** The restart timer of the tracking effect *)

Lemma timers_perform c call w :
  restartTimers (perform c call w) = restartTimers w.
Proof. destruct call; reflexivity. Qed.

Lemma timers_performAll c calls : forall w,
  restartTimers (performAll c calls w) = restartTimers w.
Proof.
  unfold performAll. induction calls as [|call calls IH]; intros w;
    [reflexivity|].
  cbn [fold_left]. now rewrite IH, timers_perform.
Qed.

Lemma timers_rerunModeEffect w :
  restartTimers (rerunModeEffect w) = restartTimers w.
Proof. apply timers_performAll. Qed.

Lemma timers_socketOpened h w :
  restartTimers (socketOpened h w) = restartTimers w.
Proof.
  unfold socketOpened. destruct (WebSocket.get (sockets w) h) as [x|];
    [|reflexivity].
  destruct (WebSocket.readyState x); try reflexivity.
  destruct (WebSocket.handlers x) as [[|]| | |]; reflexivity.
Qed.

Lemma timers_socketClosed failed h w :
  restartTimers (socketClosed failed h w) = restartTimers w.
Proof.
  unfold socketClosed. destruct (WebSocket.get (sockets w) h) as [x|];
    [|reflexivity].
  destruct (WebSocket.readyState x); try reflexivity;
    destruct (WebSocket.handlers x); reflexivity.
Qed.

Lemma timers_micGranted k w :
  restartTimers (micGranted k w) = restartTimers w.
Proof.
  unfold micGranted. destruct (nth_error (micRequests w) k) as [[]|];
    reflexivity.
Qed.

Lemma timers_micDenied k w :
  restartTimers (micDenied k w) = restartTimers w.
Proof.
  unfold micDenied. destruct (nth_error (micRequests w) k) as [[]|];
    reflexivity.
Qed.

Lemma fire_keeps_captures k : forall l,
  Forall capturedTextOn l -> Forall capturedTextOn (fire k l).
Proof.
  induction k as [|k IH]; intros l F; destruct l as [|x r]; cbn [fire];
    try apply Forall_nil; inversion F; subst; apply Forall_cons;
    auto; exact I.
Qed.

Lemma fire_marks_fired k : forall (l : list (option Component)) t,
  nth_error l k = Some t -> nth_error (fire k l) k = Some None.
Proof.
  induction k as [|k IH]; intros l t H; destruct l as [|x r];
    try discriminate; cbn [fire nth_error] in *; eauto.
Qed.

Lemma step_keeps_captures w e :
  Forall capturedTextOn (restartTimers w) ->
  Forall capturedTextOn (restartTimers (step w e)).
Proof.
  intros F. destruct e; cbn [step].
  - destruct (activeIsConnecting w); [exact F|].
    now rewrite timers_rerunModeEffect.
  - destruct (_ || _); [exact F|]. now rewrite timers_rerunModeEffect.
  - destruct (_ || _); [exact F|]. now rewrite timers_rerunModeEffect.
  - destruct (_ || _); [exact F|]. now rewrite timers_rerunModeEffect.
  - destruct (_ && _); [|exact F]. now rewrite timers_rerunModeEffect.
  - unfold listeningChanged.
    destruct (Bool.eqb b (isListening (comp w))); [exact F|].
    destruct (showSubtitles (setListening b (comp w))
              && modeEqb (translationMode (setListening b (comp w))) text
              && negb (Bool.eqb (prevIsListeningRef (comp w)) b)) eqn:G;
      [|exact F].
    apply andb_true_iff in G. destruct G as [G _].
    apply andb_true_iff in G. destruct G as [G1 G2].
    apply modeEqb_eq in G2.
    cbn [restartTimers withRestartTimers]. apply Forall_app. split.
    + rewrite timers_perform. exact F.
    + apply Forall_cons; [split; assumption|apply Forall_nil].
  - unfold restartTimerFired.
    destruct (nth_error (restartTimers w) k) as [[captured|]|];
      try exact F.
    destruct (showSubtitles captured
              && modeEqb (translationMode captured) text);
      now apply fire_keeps_captures.
  - now rewrite timers_socketOpened.
  - now rewrite timers_socketClosed.
  - now rewrite timers_socketClosed.
  - now rewrite timers_micGranted.
  - now rewrite timers_micDenied.
  - destruct (0 <=? dt); exact F.
Qed.

Lemma run_keeps_captures es : forall w,
  Forall capturedTextOn (restartTimers w) ->
  Forall capturedTextOn (restartTimers (run w es)).
Proof.
  unfold run. induction es as [|e es IH]; intros w F; [exact F|].
  cbn [fold_left]. apply IH. now apply step_keeps_captures.
Qed.

(** An armed restart timer always restarts the text mode. In every world
    the component can reach, a timer that is armed captured translation
    on in text mode, so the test inside its callback holds whatever the
    controls show by then: when it fires, text translation is started
    and reports connected, with the tracking setting the timer
    captured. *)
Theorem armed_restart_timer_always_restarts
        (es : list Event) (k : nat) (c : Component) :
  nth_error (restartTimers (run initialWorld es)) k = Some (Some c) ->
  let w' := step (run initialWorld es) (RestartTimerFired k) in
  showSubtitles c = true
  /\ translationMode c = text
  /\ reportsConnected w' text = true
  /\ TextTranslation.useExternalTranscriptRef (textHook w') = isListening c
  /\ nth_error (restartTimers w') k = Some None.
Proof.
  intros A w'. subst w'.
  pose proof (run_keeps_captures es initialWorld (Forall_nil _)) as F.
  rewrite Forall_forall in F.
  destruct (F (Some c) (nth_error_In _ _ A)) as [S M].
  split; [exact S|]. split; [exact M|].
  cbn [step]. unfold restartTimerFired. rewrite A, S, M. cbn.
  repeat split. now apply fire_marks_fired with (t := Some c).
Qed.

Lemma armed_restart_timer_always_restarts_witness :
  let es := [ClickMode text; ClickToggle; ListeningChanged true;
             ClickToggle] in
  let w' := step (run initialWorld es) (RestartTimerFired 0) in
  showSubtitles (comp (run initialWorld es)) = false
  /\ connectedModes (run initialWorld es) = []
  /\ showSubtitles (comp w') = false
  /\ reportsConnected w' text = true.
Proof.
  split; [reflexivity|]. split; [reflexivity|]. split; [reflexivity|].
  apply (armed_restart_timer_always_restarts
           [ClickMode text; ClickToggle; ListeningChanged true; ClickToggle]
           0%nat
           (setListening true
              (setShowSubtitles true
                 (setTranslationMode text initialComponent)))).
  reflexivity.
Defined.

(** *** What a teardown does to the socket *)

Lemma get_update_same f : forall st h,
  WebSocket.get (WebSocket.update st h f) h
  = option_map f (WebSocket.get st h).
Proof.
  unfold WebSocket.get. induction st as [|x r IH]; intros [|h];
    cbn [WebSocket.update nth_error option_map]; auto.
Qed.

Lemma get_update_other f : forall st h h',
  h' <> h ->
  WebSocket.get (WebSocket.update st h f) h' = WebSocket.get st h'.
Proof.
  unfold WebSocket.get. induction st as [|x r IH]; intros [|h] [|h'] N;
    cbn [WebSocket.update nth_error]; auto; congruence.
Qed.

Lemma sendStopAndClose_socket st h x :
  WebSocket.get st h = Some x ->
  WebSocket.get (WebSocket.sendStopAndClose st h) h
  = Some (afterSendStopAndClose x)
  /\ (forall h', h' <> h ->
        WebSocket.get (WebSocket.sendStopAndClose st h) h'
        = WebSocket.get st h').
Proof.
  intros G.
  unfold WebSocket.sendStopAndClose, WebSocket.send, WebSocket.close,
    afterSendStopAndClose.
  rewrite G. destruct x as [rs hs cw]. cbn [WebSocket.readyState].
  destruct rs; cbn [andThen tryCatchEmpty].
  - split; [exact G|reflexivity].
  - split; [now rewrite get_update_same, G|].
    intros h' N. now apply get_update_other.
  - split; [now rewrite get_update_same, G|].
    intros h' N. now apply get_update_other.
  - split; [now rewrite get_update_same, G|].
    intros h' N. now apply get_update_other.
Qed.

(** The teardown of a socket hook closes its socket only when the socket
    is open. For [stop] of useLocalPipeline and [disconnect] of
    usePersonaPlex with a socket in the ref: an open socket starts
    closing, a socket in any other state (still connecting, closing,
    closed) is left as it is, no other socket is touched, and the ref is
    null afterwards, so that a socket still connecting stays behind with
    its handlers attached. The teardown of useGeminiLive instead leaves
    a close waiting on a session that is still connecting. *)
Theorem teardown_closes_only_an_open_socket
        (st : WebSocket.Store) (h : nat) (x : WebSocket.Socket) :
  WebSocket.get st h = Some x ->
  (forall s, LocalPipeline.wsRef s = Some h ->
     WebSocket.get (fst (LocalPipeline.stop st s)) h
     = Some (afterSendStopAndClose x)
     /\ (forall h', h' <> h ->
           WebSocket.get (fst (LocalPipeline.stop st s)) h'
           = WebSocket.get st h')
     /\ LocalPipeline.wsRef (snd (LocalPipeline.stop st s)) = None)
  /\ (forall s, PersonaPlex.wsRef s = Some h ->
       WebSocket.get (fst (PersonaPlex.disconnect st s)) h
       = Some (afterSendStopAndClose x)
       /\ (forall h', h' <> h ->
             WebSocket.get (fst (PersonaPlex.disconnect st s)) h'
             = WebSocket.get st h')
       /\ PersonaPlex.wsRef (snd (PersonaPlex.disconnect st s)) = None)
  /\ (forall s, GeminiLive.sessionRef s = Some h ->
       WebSocket.get (fst (GeminiLive.disconnect st s)) h
       = Some (match WebSocket.readyState x with
               | CONNECTING =>
                   WebSocket.mkSocket CONNECTING (WebSocket.handlers x) true
               | OPEN => WebSocket.setReady CLOSING x
               | _ => x
               end)
       /\ GeminiLive.sessionRef (snd (GeminiLive.disconnect st s)) = None).
Proof.
  intros G. destruct (sendStopAndClose_socket st h x G) as [S O].
  split; [|split].
  - intros s R. unfold LocalPipeline.stop. rewrite R. cbn.
    repeat split; assumption.
  - intros s R. unfold PersonaPlex.disconnect. rewrite R. cbn.
    repeat split; assumption.
  - intros s R. unfold GeminiLive.disconnect. rewrite R. cbn.
    split; [|reflexivity].
    unfold WebSocket.closeWhenResolved. now rewrite get_update_same, G.
Qed.

Lemma teardown_closes_only_an_open_socket_witness :
  let st := sockets (run initialWorld [ClickMode local_pipeline;
                                       ClickToggle]) in
  let s := pipelineHook (run initialWorld [ClickMode local_pipeline;
                                           ClickToggle]) in
  option_map WebSocket.readyState
    (WebSocket.get (fst (LocalPipeline.stop st s)) 0)
  = Some CONNECTING
  /\ LocalPipeline.wsRef (snd (LocalPipeline.stop st s)) = None.
Proof.
  cbv zeta.
  destruct (teardown_closes_only_an_open_socket
              (sockets (run initialWorld [ClickMode local_pipeline;
                                          ClickToggle]))
              0%nat
              (WebSocket.mkSocket CONNECTING
                 (WebSocket.PipelineSocket asrBrowser) false)
              eq_refl) as (P & _ & _).
  destruct (P (pipelineHook (run initialWorld [ClickMode local_pipeline;
                                               ClickToggle]))
              eq_refl) as (A & _ & B).
  split; [now rewrite A|exact B].
Defined.

End OrchestratorFacts.

(** ** Slide navigation *)

Lemma slide_key_keeps_range s e :
  Slides.isKey e = true ->
  1 <= Slides.currentSlide s <= Slides.totalSlides s ->
  1 <= Slides.currentSlide (Slides.step s e) <= Slides.totalSlides s
  /\ Slides.totalSlides (Slides.step s e) = Slides.totalSlides s.
Proof.
  intros K R. destruct e; try discriminate; cbn; lia.
Qed.

(** Once the document is loaded the slide number stays on a page: from a
    slide between 1 and the number of pages, any run of navigation keys
    and restarts keeps it there. Before the viewer has reported the
    number of pages the forward keys move it to 0, where it is when the
    document arrives. *)
Theorem slide_stays_on_a_page_once_loaded
        (s : Slides.State) (keys : list Slides.Event) :
  forallb Slides.isKey keys = true ->
  1 <= Slides.currentSlide s <= Slides.totalSlides s ->
  1 <= Slides.currentSlide (Slides.run s keys) <= Slides.totalSlides s
  /\ Slides.totalSlides (Slides.run s keys) = Slides.totalSlides s
  /\ (forall numPages,
        Slides.run Slides.initial [Slides.Forward; Slides.Loaded numPages]
        = Slides.mkState 0 numPages).
Proof.
  intros K R. rewrite <- and_assoc. split; [|reflexivity].
  revert s K R. unfold Slides.run.
  induction keys as [|e keys IH]; intros s K R; [cbn; lia|].
  cbn [forallb] in K. apply andb_true_iff in K. destruct K as [K1 K2].
  destruct (slide_key_keeps_range s e K1 R) as [R1 T1].
  cbn [fold_left]. specialize (IH (Slides.step s e) K2).
  rewrite T1 in IH. apply IH. exact R1.
Qed.

Lemma slide_stays_on_a_page_once_loaded_witness :
  1 <= Slides.currentSlide
         (Slides.run (Slides.mkState 1 3)
            [Slides.Back; Slides.Forward; Slides.Forward; Slides.Forward;
             Slides.Forward]) <= 3.
Proof.
  apply (slide_stays_on_a_page_once_loaded (Slides.mkState 1 3)
           [Slides.Back; Slides.Forward; Slides.Forward; Slides.Forward;
            Slides.Forward]).
  - reflexivity.
  - cbn. lia.
Defined.

(** ** The speaking indicator of the pipeline mode *)

Section PipelineSpeechFacts.

Import PipelineSpeech.

Lemma sounding_step t e t' :
  LocalPipeline.activeSourceCountRef (hook t) = sounding t ->
  LocalPipeline.isSpeaking (hook t) = (0 <? sounding t) ->
  0 <= sounding t ->
  step t e = Some t' ->
  LocalPipeline.activeSourceCountRef (hook t') = sounding t'
  /\ LocalPipeline.isSpeaking (hook t') = (0 <? sounding t')
  /\ 0 <= sounding t'.
Proof.
  intros C S P R. destruct e as [fresh currentTime duration|]; cbn [step] in R.
  - injection R as <-. cbn [hook sounding].
    unfold LocalPipeline.playAudioChunk.
    destruct (Playback.playAudioChunk fresh currentTime duration
                (LocalPipeline.playback (hook t))) as [p startTime].
    cbn. rewrite C. repeat split; lia.
  - destruct (sounding t <=? 0) eqn:G; [discriminate|].
    apply Z.leb_gt in G. injection R as <-. cbn [hook sounding].
    unfold LocalPipeline.onended. cbn. rewrite C, S.
    destruct (sounding t - 1 <=? 0) eqn:E.
    + apply Z.leb_le in E. replace (sounding t - 1) with 0 by lia.
      repeat split; lia.
    + apply Z.leb_gt in E. repeat split; lia.
Qed.

(** The speaking indicator of the pipeline mode is on exactly while a
    scheduled chunk has not ended. From a hook with no source counted
    and the indicator off, as [stop] and the first render leave it,
    after any run of chunks played and sources ended (a source ends only
    if one is sounding): the counter is the number of sources that were
    started and have not ended, and [isSpeaking] holds exactly when that
    number is positive. *)
Theorem speaking_indicator_follows_the_sources
        (s : LocalPipeline.State) (es : list Event) (t' : Trace) :
  LocalPipeline.activeSourceCountRef s = 0 ->
  LocalPipeline.isSpeaking s = false ->
  run (mkTrace s 0) es = Some t' ->
  LocalPipeline.activeSourceCountRef (hook t') = sounding t'
  /\ 0 <= sounding t'
  /\ (LocalPipeline.isSpeaking (hook t') = true <-> 0 < sounding t').
Proof.
  intros C S R.
  enough (G : LocalPipeline.activeSourceCountRef (hook t') = sounding t'
              /\ LocalPipeline.isSpeaking (hook t') = (0 <? sounding t')
              /\ 0 <= sounding t').
  { destruct G as (G1 & G2 & G3). split; [exact G1|]. split; [exact G3|].
    rewrite G2. apply Z.ltb_lt. }
  assert (I : LocalPipeline.activeSourceCountRef (hook (mkTrace s 0))
              = sounding (mkTrace s 0)
              /\ LocalPipeline.isSpeaking (hook (mkTrace s 0))
                 = (0 <? sounding (mkTrace s 0))
              /\ 0 <= sounding (mkTrace s 0)).
  { cbn. rewrite C, S. repeat split; lia. }
  revert R I. generalize (mkTrace s 0). clear C S.
  induction es as [|e es IH]; intros t R I; cbn [run] in R.
  - injection R as <-. exact I.
  - destruct (step t e) as [t1|] eqn:E; [|discriminate].
    apply (IH t1 R). destruct I as (I1 & I2 & I3).
    exact (sounding_step t e t1 I1 I2 I3 E).
Qed.

Lemma speaking_indicator_follows_the_sources_witness :
  exists t',
    run (mkTrace LocalPipeline.initial 0)
        [ChunkPlayed 7%nat 0%Q 1%Q; ChunkPlayed 8%nat 0%Q 1%Q; SourceEnded]
    = Some t'
    /\ sounding t' = 1
    /\ (LocalPipeline.isSpeaking (hook t') = true <-> 0 < sounding t').
Proof.
  eexists. split; [reflexivity|]. split; [reflexivity|].
  apply (speaking_indicator_follows_the_sources LocalPipeline.initial
           [ChunkPlayed 7%nat 0%Q 1%Q; ChunkPlayed 8%nat 0%Q 1%Q;
            SourceEnded]);
    reflexivity.
Defined.

End PipelineSpeechFacts.

(** ** The transcript of a recognition result *)

Section RecognitionFacts.

Import Recognition.

Lemma append_assoc (a b c : string) : (a ++ b) ++ c = a ++ (b ++ c).
Proof. induction a as [|x a IH]; cbn; [reflexivity|now rewrite IH]. Qed.

Lemma append_nil_r (a : string) : a ++ "" = a.
Proof. induction a as [|x a IH]; cbn; [reflexivity|now rewrite IH]. Qed.

Lemma texts_app (a b : list Result) : texts (a ++ b) = texts a ++ texts b.
Proof.
  induction a as [|r a IH]; cbn; [reflexivity|].
  now rewrite IH, append_assoc.
Qed.

Lemma loop_accumulates rs : forall f i,
  loop rs f i
  = (f ++ texts (filter isFinal rs), i ++ texts (filter isInterim rs)).
Proof.
  induction rs as [|r rs IH]; intros f i; cbn [loop filter texts].
  - now rewrite !append_nil_r.
  - unfold isInterim at 1. destruct (isFinal r); cbn [negb texts];
      rewrite IH, append_assoc; reflexivity.
Qed.

Lemma filter_all {A : Type} (p : A -> bool) (l : list A) :
  forallb p l = true -> filter p l = l.
Proof.
  induction l as [|x l IH]; cbn; [reflexivity|].
  intros H. apply andb_true_iff in H. destruct H as [H1 H2].
  now rewrite H1, IH.
Qed.

Lemma filter_none {A : Type} (p q : A -> bool) (l : list A) :
  (forall x, q x = true -> p x = false) ->
  forallb q l = true -> filter p l = [].
Proof.
  intros N. induction l as [|x l IH]; cbn; [reflexivity|].
  intros H. apply andb_true_iff in H. destruct H as [H1 H2].
  now rewrite (N x H1), IH.
Qed.

(** The transcript of a result event is the text of its final results
    followed by the text of its interim results, counted from
    [resultIndex]: the results before that index do not appear in it,
    and an interim result that comes before a final one is put after
    it. When the finals come first, as [fs] before [rest], it is the
    text of the results from [resultIndex] on, in their order. *)
Theorem transcript_of_a_result_event
        (resultIndex : nat) (results : list Result) :
  onresult resultIndex results
  = texts (filter isFinal (skipn resultIndex results))
    ++ texts (filter isInterim (skipn resultIndex results))
  /\ (forall fs rest : list Result,
        skipn resultIndex results = (fs ++ rest)%list ->
        forallb isFinal fs = true ->
        forallb isInterim rest = true ->
        onresult resultIndex results = texts (skipn resultIndex results)).
Proof.
  assert (G : onresult resultIndex results
              = texts (filter isFinal (skipn resultIndex results))
                ++ texts (filter isInterim (skipn resultIndex results))).
  { unfold onresult. now rewrite loop_accumulates. }
  split; [exact G|]. intros fs rest E F I.
  rewrite G, E, !filter_app.
  rewrite (filter_all isFinal fs F), (filter_all isInterim rest I).
  rewrite (filter_none isFinal isInterim rest),
    (filter_none isInterim isFinal fs); auto.
  - rewrite app_nil_r. cbn [app]. now rewrite texts_app.
  - intros x H. unfold isInterim. now rewrite H.
  - intros x H. unfold isInterim in H. now apply negb_true_iff in H.
Qed.

Lemma transcript_of_a_result_event_witness :
  onresult 1 [mkResult true "good morning "; mkResult true "ladies and ";
              mkResult false "gentle"]
  = "ladies and gentle"
  /\ onresult 0 [mkResult false "a "; mkResult true "b ";
                 mkResult false "c "; mkResult true "d"]
     = "b da c ".
Proof.
  split.
  - apply (proj2 (transcript_of_a_result_event 1
                    [mkResult true "good morning "; mkResult true "ladies and ";
                     mkResult false "gentle"])
             [mkResult true "ladies and "] [mkResult false "gentle"]);
      reflexivity.
  - rewrite (proj1 (transcript_of_a_result_event 0
                      [mkResult false "a "; mkResult true "b ";
                       mkResult false "c "; mkResult true "d"])).
    reflexivity.
Defined.

End RecognitionFacts.

(** ** The text panels of the pipeline mode *)

Section PipelineTextFacts.

Import PipelineText.

Lemma committed_text_after msgs : forall t,
  committedTextRef (run t msgs) = committedTextRef t ++ committedBy msgs.
Proof.
  unfold run. induction msgs as [|m msgs IH]; intros t; cbn [fold_left].
  - cbn. now rewrite append_nil_r.
  - rewrite IH. destruct m as [d|d|d|d|d|]; cbn [onmessage committedBy];
      try (destruct (asrModeRef t)); cbn [committedTextRef];
      try reflexivity; now rewrite !append_assoc.
Qed.

Lemma run_app t a b : run t (a ++ b) = run (run t a) b.
Proof. unfold run. apply fold_left_app. Qed.

Lemma committedBy_without_drafts msgs :
  committedBy (filter (fun m => negb (isDraft m)) msgs) = committedBy msgs.
Proof.
  induction msgs as [|m msgs IH]; [reflexivity|].
  destruct m; cbn [filter isDraft negb committedBy]; now rewrite ?IH.
Qed.

Lemma drafts_after_final texts : forall t,
  draftTextRef t = "" ->
  translatedText t = committedTextRef t ->
  translatedText (run t (drafts texts)) = committedTextRef t ++ joined texts
  /\ committedTextRef (run t (drafts texts)) = committedTextRef t.
Proof.
  enough (G : forall t,
             translatedText t = committedTextRef t ++ draftTextRef t ->
             translatedText (run t (drafts texts))
             = committedTextRef t ++ (draftTextRef t ++ joined texts)
             /\ committedTextRef (run t (drafts texts)) = committedTextRef t).
  { intros t D T. specialize (G t). rewrite D in G. apply G.
    now rewrite append_nil_r. }
  unfold run, drafts. induction texts as [|x texts IH]; intros t T;
    cbn [map fold_left joined].
  - now rewrite append_nil_r.
  - destruct (IH (onmessage t (translated_text_draft x)) eq_refl) as [A B].
    rewrite A, B. cbn. now rewrite append_assoc.
Qed.

(** A final translation replaces the drafts shown since the previous
    one. After any messages followed by a final translation, the
    translation panel shows the text committed so far (every final
    followed by a space, every legacy message as it is) and no draft,
    which is what it would show had no draft ever arrived; the drafts
    that follow are shown after the committed text, in their order, and
    commit nothing. *)
Theorem final_translation_replaces_drafts
        (t : Texts) (msgs : list Message) (data : string)
        (later : list string) :
  let final := run t (msgs ++ [translated_text_final data]) in
  translatedText final
  = committedTextRef t ++ committedBy msgs ++ data ++ " "
  /\ draftTextRef final = ""
  /\ translatedText final
     = translatedText
         (run t (filter (fun m => negb (isDraft m)) msgs
                 ++ [translated_text_final data]))
  /\ translatedText (run final (drafts later))
     = translatedText final ++ joined later
  /\ committedTextRef (run final (drafts later)) = translatedText final.
Proof.
  intros final.
  assert (F : forall l,
             translatedText (run t (l ++ [translated_text_final data]))
             = committedTextRef t ++ committedBy l ++ data ++ " "
             /\ draftTextRef (run t (l ++ [translated_text_final data])) = ""
             /\ committedTextRef (run t (l ++ [translated_text_final data]))
                = translatedText
                    (run t (l ++ [translated_text_final data]))).
  { intros l. rewrite run_app. cbn. rewrite committed_text_after.
    rewrite !append_assoc. repeat split. }
  destruct (F msgs) as (A & B & C). fold final in A, B, C.
  split; [exact A|]. split; [exact B|]. split.
  { rewrite A. destruct (F (filter (fun m => negb (isDraft m)) msgs))
      as (A' & _). now rewrite A', committedBy_without_drafts. }
  destruct (drafts_after_final later final B (eq_sym C)) as [D E].
  rewrite D, E, C. split; reflexivity.
Qed.

Lemma lastIndexOf_without t :
  hasNewline t = false -> lastIndexOf newline t = -1.
Proof.
  induction t as [|c t IH]; cbn [hasNewline lastIndexOf]; [reflexivity|].
  intros H. apply orb_false_iff in H. destruct H as [H1 H2].
  now rewrite (IH H2), H1.
Qed.

Lemma lastIndexOf_after a : forall t,
  hasNewline t = false ->
  lastIndexOf newline (a ++ String newline t) = Z.of_nat (String.length a).
Proof.
  induction a as [|c a IH]; intros t H.
  - cbn [append lastIndexOf String.length].
    rewrite (lastIndexOf_without t H). reflexivity.
  - cbn [append lastIndexOf String.length]. rewrite (IH t H).
    destruct (0 <=? Z.of_nat (String.length a)) eqn:E;
      [lia|apply Z.leb_gt in E; lia].
Qed.

Lemma substring_prefix_of_append a b :
  substring 0 (String.length a) (a ++ b) = a.
Proof.
  induction a as [|c a IH]; cbn.
  - destruct b; reflexivity.
  - now rewrite IH.
Qed.

Lemma committed_of_lines_and_tail a t :
  hasNewline t = false ->
  committed ((a ++ String newline "") ++ t) = a ++ String newline "".
Proof.
  intros H. unfold committed.
  rewrite append_assoc. cbn [append].
  rewrite (lastIndexOf_after a t H).
  destruct (0 <=? Z.of_nat (String.length a)) eqn:E;
    [|apply Z.leb_gt in E; lia].
  unfold Js.sliceTo.
  replace (Z.to_nat (Z.of_nat (String.length a) + 1))
    with (String.length (a ++ String newline "")).
  - change (String newline t) with (String newline "" ++ t).
    rewrite <- append_assoc. apply substring_prefix_of_append.
  - clear. induction a as [|c a IH]; cbn [append String.length];
      [reflexivity|]. rewrite IH. lia.
Qed.

Lemma joinLines_shape lines :
  joinLines lines = ""
  \/ exists a, joinLines lines = a ++ String newline "".
Proof.
  induction lines as [|x lines IH]; [now left|right].
  cbn [joinLines]. destruct IH as [E|[a E]]; rewrite E.
  - exists x. now rewrite append_nil_r.
  - exists ((x ++ String newline "") ++ a). now rewrite !append_assoc.
Qed.

Lemma committed_of_shown done interim :
  hasNewline interim = false ->
  committed (shown (done, interim)) = joinLines done.
Proof.
  intros H. unfold shown. cbn [fst snd].
  destruct (joinLines_shape done) as [E|[a E]]; rewrite E.
  - cbn [append]. unfold committed.
    now rewrite (lastIndexOf_without interim H).
  - now apply committed_of_lines_and_tail.
Qed.

Lemma joinLines_app a b : joinLines (a ++ b) = joinLines a ++ joinLines b.
Proof.
  induction a as [|x a IH]; cbn [app joinLines]; [reflexivity|].
  now rewrite IH, !append_assoc.
Qed.

Lemma source_text_after msgs : forall t done interim,
  asrModeRef t = asrLocal ->
  sourceText t = shown (done, interim) ->
  hasNewline interim = false ->
  forallb interimIsOneLine msgs = true ->
  sourceText (run t msgs) = shown (sourceLines done interim msgs).
Proof.
  unfold run.
  induction msgs as [|m msgs IH]; intros t done interim L S H O;
    cbn [fold_left sourceLines]; [exact S|].
  cbn [forallb] in O. apply andb_true_iff in O. destruct O as [O1 O2].
  destruct m as [d|d|d|d|d|]; cbn [onmessage]; try rewrite L;
    try (apply IH; auto; fail).
  - apply IH; auto; cbn [sourceText asrModeRef].
    + rewrite S, (committed_of_shown done interim H). reflexivity.
    + cbn [interimIsOneLine] in O1. now apply negb_true_iff in O1.
  - apply IH; auto; cbn [sourceText asrModeRef].
    rewrite S, (committed_of_shown done interim H). unfold shown.
    cbn [fst snd]. rewrite joinLines_app. cbn [joinLines].
    now rewrite !append_nil_r.
Qed.

(** The source panel shows the completed lines and the latest interim
    text. With recognition on the server, when no interim text contains
    a line break: after any messages the source text is the texts of
    the final messages, each followed by a line break, and then the
    text of the last interim message that came after them; an interim
    text replaces the interim text before it. With recognition in the
    browser no message of the server, whatever its text, changes the
    source text. *)
Theorem source_panel_shows_lines_and_interim (msgs : list Message) :
  (forallb interimIsOneLine msgs = true ->
   sourceText (run (started asrLocal) msgs) = shown (sourceLines [] "" msgs))
  /\ (forall t, asrModeRef t = asrBrowser ->
                sourceText (run t msgs) = sourceText t).
Proof.
  split.
  - intros O. now apply source_text_after.
  - unfold run. induction msgs as [|m msgs IH]; intros t B; [reflexivity|].
    cbn [fold_left]. rewrite IH.
    + destruct m; cbn [onmessage]; try rewrite B; reflexivity.
    + destruct m; cbn [onmessage]; try rewrite B;
        first [exact B|reflexivity].
Qed.

Lemma source_panel_shows_lines_and_interim_witness :
  sourceText
    (run (started asrLocal)
       [source_text_interim "good"; source_text_interim "good morn";
        source_text "good morning"; translated_text_draft "bon";
        source_text_interim "ladies"])
  = "good morning" ++ String newline "ladies"
  /\ sourceText
       (run (started asrBrowser)
          [source_text_interim ("good" ++ String newline "morning");
           source_text "good morning"])
     = "".
Proof.
  split.
  - apply (proj1 (source_panel_shows_lines_and_interim
                    [source_text_interim "good";
                     source_text_interim "good morn";
                     source_text "good morning"; translated_text_draft "bon";
                     source_text_interim "ladies"])).
    reflexivity.
  - apply (proj2 (source_panel_shows_lines_and_interim
                    [source_text_interim ("good" ++ String newline "morning");
                     source_text "good morning"])
             (started asrBrowser)).
    reflexivity.
Defined.

End PipelineTextFacts.

(** ** From the editor to the Teleprompter *)

Section StartReading.

Lemma blank_trims_to_nothing s :
  Chars.all Js.isSpace s = true -> Js.trim s = "".
Proof.
  unfold Js.trim. induction s as [|c r IH]; cbn; [reflexivity|].
  intros H. apply andb_true_iff in H. destruct H as [H1 H2].
  rewrite H1. now apply IH.
Qed.

Lemma begun_piece_is_kept s : forall cur,
  cur <> [] ->
  exists w rest, Js.splitGo false cur s = w :: rest /\ w <> "".
Proof.
  induction s as [|c r IH]; intros cur N; cbn [Js.splitGo].
  - eexists; eexists. split; [reflexivity|].
    now apply string_of_list_nonempty.
  - destruct (Js.isSpace c).
    + eexists; eexists. split; [reflexivity|].
      now apply string_of_list_nonempty.
    + apply IH. discriminate.
Qed.

Lemma split_has_a_piece s : forall inRun cur,
  Chars.all Js.isSpace s = false ->
  exists w, In w (Js.splitGo inRun cur s) /\ w <> "".
Proof.
  induction s as [|c r IH]; intros inRun cur H; [discriminate|].
  cbn [Chars.all] in H. cbn [Js.splitGo].
  destruct (Js.isSpace c) eqn:Sp.
  - cbn [andb] in H. destruct inRun.
    + apply IH. exact H.
    + destruct (IH true [] H) as (w & I & N).
      exists w. split; [now right|exact N].
  - destruct (begun_piece_is_kept r (c :: cur)) as (w & rest & E & N);
      [discriminate|].
    exists w. rewrite E. split; [now left|exact N].
Qed.

Lemma mapIndexed_keeps ws w : forall i,
  In w ws -> exists k, In (mkWordItem w (Script.clean w) k)
                          (Script.mapIndexed i ws).
Proof.
  induction ws as [|x ws IH]; intros i H; [contradiction|].
  cbn [Script.mapIndexed]. destruct H as [->|H].
  - exists i. now left.
  - destruct (IH (i + 1) H) as [k K]. exists k. now right.
Qed.

Lemma word_is_not_blank w :
  Chars.isWord w = true -> Js.trim w <> "".
Proof.
  unfold Chars.isWord. intros H. apply andb_true_iff in H.
  destruct H as [N A]. destruct w as [|c r]; [discriminate|].
  cbn [Chars.all] in A. apply andb_true_iff in A. destruct A as [A _].
  unfold Chars.notSpace in A. apply negb_true_iff in A.
  unfold Js.trim. cbn [Js.trimStart]. rewrite A. cbn [Js.trimEnd].
  destruct (Js.trimEnd r); [rewrite A|]; discriminate.
Qed.

Lemma pieces_have_no_space s :
  Forall (fun w => Chars.all Chars.notSpace w = true) (Js.splitWhitespace s).
Proof.
  apply splitGo_pieces; [|reflexivity].
  induction s as [|c r IH]; cbn; [reflexivity|].
  rewrite IH. unfold Chars.notSpace. now destruct (Js.isSpace c).
Qed.

Lemma started_script_has_a_word script :
  ScriptEditor.canStartReading script = true ->
  0 < Script.length (Script.words script).
Proof.
  unfold ScriptEditor.canStartReading. intros H.
  apply negb_true_iff in H. apply String.eqb_neq in H.
  assert (B : Chars.all Js.isSpace script = false).
  { destruct (Chars.all Js.isSpace script) eqn:E; [|reflexivity].
    now apply blank_trims_to_nothing in E. }
  destruct (split_has_a_piece script false [] B) as (w & I & N).
  assert (W : Chars.isWord w = true).
  { unfold Chars.isWord. apply andb_true_iff. split.
    - apply negb_true_iff. now apply String.eqb_neq.
    - pose proof (pieces_have_no_space script) as P.
      rewrite Forall_forall in P. now apply P. }
  destruct (mapIndexed_keeps _ w 0 I) as [k K].
  assert (M : In (mkWordItem w (Script.clean w) k) (Script.words script)).
  { unfold Script.words. apply filter_In. split; [exact K|].
    cbn [word]. apply negb_true_iff. apply String.eqb_neq.
    now apply word_is_not_blank. }
  unfold Script.length. destruct (Script.words script); [contradiction|].
  cbn [List.length]. lia.
Qed.

Lemma tracking_never_fails_on_a_word v words transcript activeIndex :
  0 <= activeIndex ->
  trackingEffect v words transcript activeIndex <> TypeError.
Proof.
  intros Ha. destruct v; simpl.
  - apply five_mode_effect_never_fails. exact Ha.
  - unfold LegacyTracker.effect.
    destruct (String.eqb transcript ""); [discriminate|].
    unfold LegacyTracker.onWords.
    destruct (Script.lastWordOf _); [|discriminate].
    apply legacy_scan_never_fails; [exact Ha|apply Z.le_min_r].
Qed.

(** A script the editor lets through gives the Teleprompter at least one
    word, and then nothing goes wrong with the cursor: when the start
    button is enabled, the word list is not empty; from the first word,
    after any run of tracking, clicks, arrow keys and restarts the
    cursor is between 0 and the number of words, and no run of the
    tracking effect reads a word that is not there. *)
Theorem started_script_keeps_the_cursor_safe
        (v : TeleprompterVariant) (script : string) (pdfFile : bool)
        (events : list Cursor.Event) (transcript : string) :
  ScriptEditor.canStartReading script = true ->
  let words := Script.words script in
  let reached := Cursor.run (trackingEffect v) words pdfFile 0 events in
  0 < Script.length words
  /\ 0 <= reached <= Script.length words
  /\ trackingEffect v words transcript reached <> TypeError.
Proof.
  intros H words reached.
  pose proof (started_script_has_a_word script H) as N. fold words in N.
  assert (R : forall a, 0 <= a <= Script.length words ->
                        0 <= Cursor.run (trackingEffect v) words pdfFile a
                               events <= Script.length words).
  { induction events as [|e es IH]; intros a Ha; [exact Ha|].
    change (Cursor.run (trackingEffect v) words pdfFile a (e :: es))
      with (Cursor.run (trackingEffect v) words pdfFile
              (Cursor.step (trackingEffect v) words pdfFile a e) es).
    apply IH. now apply cursor_stays_within_closed_range. }
  split; [exact N|]. split; [apply R; lia|].
  apply tracking_never_fails_on_a_word. apply R. lia.
Qed.

Lemma started_script_keeps_the_cursor_safe_witness :
  0 < Script.length (Script.words "  Hello, world ")
  /\ trackingEffect FiveMode (Script.words "  Hello, world ") "hello world"
       (Cursor.run (trackingEffect FiveMode)
          (Script.words "  Hello, world ") false 0
          [Cursor.TrackingRun "hello"; Cursor.ArrowForward;
           Cursor.ArrowForward])
     <> TypeError.
Proof.
  destruct (started_script_keeps_the_cursor_safe FiveMode
              "  Hello, world " false
              [Cursor.TrackingRun "hello"; Cursor.ArrowForward;
               Cursor.ArrowForward]
              "hello world" eq_refl) as (A & _ & C).
  split; [exact A|exact C].
Defined.

End StartReading.

(** ** A whole stream of chunks *)

Section StreamFacts.

Local Open Scope Q_scope.

Lemma intervals_cons fresh r c cs :
  Schedule.intervals fresh r (c :: cs)
  = (Playback.max (Playback.arrival c) (Playback.nextPlayTimeRef r),
     Playback.max (Playback.arrival c) (Playback.nextPlayTimeRef r)
     + Playback.duration c)
    :: Schedule.intervals fresh
         (fst (Playback.playAudioChunk fresh (Playback.arrival c)
                 (Playback.duration c) r))
         cs.
Proof. reflexivity. Qed.

Lemma later_chunks_wait fresh cs : forall r x,
  Forall (fun c => 0 <= Playback.duration c) cs ->
  In x (Schedule.intervals fresh r cs) ->
  Playback.nextPlayTimeRef r <= fst x.
Proof.
  induction cs as [|c cs IH]; intros r x F I; [contradiction|].
  inversion F as [|? ? D F']; subst.
  rewrite intervals_cons in I. destruct I as [<-|I].
  - cbn [fst].
    destruct (max_cases (Playback.arrival c) (Playback.nextPlayTimeRef r))
      as [[H E]|[H E]]; rewrite E; lra.
  - apply (IH _ _ F') in I. cbn in I.
    destruct (max_cases (Playback.arrival c) (Playback.nextPlayTimeRef r))
      as [[H E]|[H E]]; rewrite E in I; lra.
Qed.

(** No two chunks of a stream sound at the same time. For chunks of
    non-negative duration scheduled one after the other from any state
    of the queue: every chunk starts no earlier than it arrived, and of
    any two chunks, consecutive or not, the later one starts no earlier
    than the earlier one ends. *)
Theorem chunks_of_a_stream_never_overlap
        (fresh : Handle) (r : Playback.Refs) (cs : list Playback.Chunk)
        (i j : nat) (c : Playback.Chunk) (a b : Q * Q) :
  Forall (fun c => 0 <= Playback.duration c) cs ->
  (i < j)%nat ->
  nth_error cs i = Some c ->
  nth_error (Schedule.intervals fresh r cs) i = Some a ->
  nth_error (Schedule.intervals fresh r cs) j = Some b ->
  Playback.arrival c <= fst a
  /\ snd a == fst a + Playback.duration c
  /\ snd a <= fst b.
Proof.
  revert r i j. induction cs as [|x cs IH]; intros r i j F L C A B.
  - destruct i; discriminate.
  - inversion F as [|? ? D F']; subst.
    rewrite intervals_cons in A, B.
    destruct j as [|j]; [lia|]. cbn [nth_error] in B.
    destruct i as [|i].
    + cbn [nth_error] in C, A. injection C as ->. injection A as <-.
      cbn [fst snd]. apply nth_error_In in B.
      apply (later_chunks_wait _ _ _ _ F') in B. cbn in B.
      destruct (max_cases (Playback.arrival c) (Playback.nextPlayTimeRef r))
        as [[H E]|[H E]]; rewrite E in *; repeat split; lra.
    + cbn [nth_error] in C, A.
      eapply (IH _ i j F'); [lia|eassumption..].
Qed.

Lemma chunks_of_a_stream_never_overlap_witness :
  snd (nth 0 (Schedule.intervals 0%nat Playback.initial
                [Playback.mkChunk (1 # 2) 1; Playback.mkChunk (3 # 4) (1 # 2);
                 Playback.mkChunk 1 (1 # 5)]) (0, 0))
  <= fst (nth 2 (Schedule.intervals 0%nat Playback.initial
                   [Playback.mkChunk (1 # 2) 1;
                    Playback.mkChunk (3 # 4) (1 # 2);
                    Playback.mkChunk 1 (1 # 5)]) (0, 0)).
Proof.
  apply (chunks_of_a_stream_never_overlap 0%nat Playback.initial
           [Playback.mkChunk (1 # 2) 1; Playback.mkChunk (3 # 4) (1 # 2);
            Playback.mkChunk 1 (1 # 5)]
           0 2 (Playback.mkChunk (1 # 2) 1)).
  - repeat constructor; discriminate.
  - lia.
  - reflexivity.
  - reflexivity.
  - reflexivity.
Defined.

End StreamFacts.

(** ** The caption *)

Section CaptionFacts.

Import Caption.

Lemma split_not_empty s : split s <> [].
Proof.
  destruct s as [|c r]; cbn [split]; [discriminate|].
  destruct (Ascii.eqb c dot); [discriminate|].
  destruct (split r); discriminate.
Qed.

Lemma join_cons_char c p ps :
  join (String c p :: ps) = String c (join (p :: ps)).
Proof. destruct ps; reflexivity. Qed.

Lemma join_split s : join (split s) = s.
Proof.
  induction s as [|c r IH]; [reflexivity|]. cbn [split].
  destruct (Ascii.eqb c dot) eqn:E.
  - apply Ascii.eqb_eq in E. subst c.
    destruct (split r) as [|p ps] eqn:S; [now apply split_not_empty in S|].
    change (join ("" :: p :: ps)) with (String dot (join (p :: ps))).
    now rewrite IH.
  - destruct (split r) as [|p ps] eqn:S; [now apply split_not_empty in S|].
    now rewrite join_cons_char, IH.
Qed.

Lemma split_pieces_have_no_dot s : Forall (fun p => dots p = 0%nat) (split s).
Proof.
  induction s as [|c r IH]; cbn [split].
  - now constructor.
  - destruct (Ascii.eqb c dot) eqn:E.
    + now constructor.
    + destruct (split r) as [|p ps]; [constructor; [|constructor]|].
      * cbn. now rewrite E.
      * inversion IH; subst. constructor; [|assumption].
        cbn. now rewrite E.
Qed.

Lemma split_length s : List.length (split s) = S (dots s).
Proof.
  induction s as [|c r IH]; [reflexivity|]. cbn [split dots].
  destruct (Ascii.eqb c dot).
  - cbn [List.length]. now rewrite IH.
  - destruct (split r) as [|p ps] eqn:S; [now apply split_not_empty in S|].
    cbn [List.length] in *. now rewrite IH.
Qed.

Lemma dots_app a b : dots (a ++ b) = (dots a + dots b)%nat.
Proof.
  induction a as [|c a IH]; cbn [append dots]; [reflexivity|].
  rewrite IH. lia.
Qed.

Lemma join_app a b :
  a <> [] -> b <> [] -> join (a ++ b) = join a ++ String dot (join b).
Proof.
  intros A B. destruct b as [|z b]; [contradiction|]. clear B.
  induction a as [|x [|y a] IH]; [contradiction| |].
  - reflexivity.
  - change (join ((x :: y :: a) ++ z :: b))
      with (x ++ String dot (join ((y :: a) ++ z :: b))).
    rewrite IH by discriminate.
    change (join (x :: y :: a)) with (x ++ String dot (join (y :: a))).
    rewrite !append_assoc. reflexivity.
Qed.

Lemma lastTwo_splits {A : Type} (l : list A) :
  (List.length l <= 2)%nat /\ lastTwo l = l
  \/ exists init x y, l = (init ++ [x; y])%list /\ init <> []
                       /\ lastTwo l = [x; y].
Proof.
  unfold lastTwo.
  destruct (le_lt_dec (List.length l) 2) as [S|L].
  - left. split; [exact S|].
    replace (List.length l - 2)%nat with 0%nat by lia. reflexivity.
  - right.
    pose proof (firstn_skipn (List.length l - 2) l) as E.
    remember (skipn (List.length l - 2) l) as tl eqn:T.
    assert (N : List.length tl = 2%nat).
    { subst tl. rewrite length_skipn. lia. }
    destruct tl as [|x [|y [|z tl]]]; try discriminate.
    exists (firstn (List.length l - 2) l), x, y.
    split; [now symmetry|]. split; [|reflexivity].
    intros Z. apply (f_equal (@List.length A)) in Z.
    rewrite length_firstn in Z. cbn in Z. lia.
Qed.

(** The caption shows the end of the subtitle from its last full stop
    but one. The caption is what is left of the subtitle after a
    beginning that is empty or ends with a full stop; it holds at most
    one full stop; and a subtitle with at most one full stop is shown
    whole. *)
Theorem caption_is_the_end_of_the_subtitle (subtitle : string) :
  (exists before,
     subtitle = before ++ caption subtitle
     /\ (before = "" \/ exists b, before = b ++ String dot ""))
  /\ (dots (caption subtitle) <= 1)%nat
  /\ ((dots subtitle <= 1)%nat -> caption subtitle = subtitle).
Proof.
  unfold caption.
  pose proof (join_split subtitle) as J.
  pose proof (split_pieces_have_no_dot subtitle) as D.
  pose proof (split_length subtitle) as L.
  destruct (lastTwo_splits (split subtitle))
    as [[S E]|(init & x & y & E & N & T)].
  - rewrite E, J. split; [exists ""; split; [reflexivity|now left]|].
    split; [|reflexivity]. lia.
  - rewrite T. rewrite E in J, D, L.
    rewrite join_app in J by (assumption || discriminate).
    split; [|split].
    + exists (join init ++ String dot ""). split.
      * rewrite append_assoc. cbn [append]. now symmetry.
      * right. now exists (join init).
    + apply Forall_app in D. destruct D as [_ D].
      inversion D as [|? ? Dx D']; subst. inversion D' as [|? ? Dy _]; subst.
      cbn [join]. rewrite dots_app. cbn [dots]. rewrite Dx, Dy.
      now rewrite Ascii.eqb_refl.
    + intros U. rewrite length_app in L. cbn [List.length] in L.
      destruct init; [contradiction|]. cbn [List.length] in L. lia.
Qed.

Lemma caption_is_the_end_of_the_subtitle_witness :
  caption "Bonjour. Merci" = "Bonjour. Merci"
  /\ caption "Bonjour. Merci. Au revoir" = " Merci. Au revoir".
Proof.
  split; [|reflexivity].
  apply (caption_is_the_end_of_the_subtitle "Bonjour. Merci").
  cbn. lia.
Defined.

End CaptionFacts.
